(** * ReplyMate backend: the reply-generation pipeline

    A shallow embedding of the JavaScript sources of the reply pipeline
    (pattern classifier, data-fetch agent, reasoning agent, writer agent,
    safety-check agent and the two [/reply/generate] route handlers) and the
    properties of the specification stated against it.

    JavaScript strings are sequences of UTF-16 code units; they are modelled
    as [list N].  Regular expressions are modelled by a small backtracking
    matcher that follows the priority order of the ECMAScript matcher for
    the constructs that occur in the sources. *)

From Stdlib Require Import Ascii String.
From Stdlib Require Import NArith Bool Lia Arith PeanoNat List.
Import ListNotations.

Set Implicit Arguments.

(* ================================================================== *)
(** ** JavaScript strings *)
(* ================================================================== *)

Module Js.

Definition jsstring := list N.

(** An ASCII literal of the source as a sequence of code units. *)
Definition lit (s : string) : jsstring :=
  map N_of_ascii (list_ascii_of_string s).

Local Open Scope N_scope.

Definition between (lo hi c : N) : bool := (lo <=? c) && (c <=? hi).

(** LineTerminator of ECMAScript: LF, CR, LS, PS. *)
Definition isLineTerminator (c : N) : bool :=
  (c =? 10) || (c =? 13) || (c =? 8232) || (c =? 8233).

(** WhiteSpace of ECMAScript: TAB, VT, FF, SP, NBSP, ZWNBSP and the
    space separators (category Zs). *)
Definition isWhiteSpace (c : N) : bool :=
  (c =? 9) || (c =? 11) || (c =? 12) || (c =? 32) || (c =? 160)
  || (c =? 65279) || (c =? 5760) || between 8192 8202 c
  || (c =? 8239) || (c =? 8287) || (c =? 12288).

(** The code units removed by [String.prototype.trim]. *)
Definition isTrimChar (c : N) : bool := isWhiteSpace c || isLineTerminator c.

Definition isDigit (c : N) : bool := between 48 57 c.
Definition isUpperAscii (c : N) : bool := between 65 90 c.
Definition isLowerAscii (c : N) : bool := between 97 122 c.

(** The word characters of [\b] and [\w] (no unicode flag). *)
Definition isWordChar (c : N) : bool :=
  isUpperAscii c || isLowerAscii c || isDigit c || (c =? 95).

Definition upperAscii (c : N) : N := if isLowerAscii c then c - 32 else c.

(** *** Case conversion

    [String.prototype.toLowerCase] converts the code points of the
    string with the default case conversion of Unicode: the lowercase
    mapping of each code point, the one special casing that does not
    depend on the language (U+0130 becomes U+0069 U+0307) and the
    final-sigma rule.  The tables are those of Unicode 14.0. *)

Definition isHighSurrogate (c : N) : bool := between 55296 56319 c.
Definition isLowSurrogate (c : N) : bool := between 56320 57343 c.

(** The code points of a string; a surrogate that is not part of a
    pair stands for itself. *)
Fixpoint codePoints (s : jsstring) : list N :=
  match s with
  | [] => []
  | h :: rest =>
      match rest with
      | l :: r =>
          if isHighSurrogate h && isLowSurrogate l
          then (65536 + (h - 55296) * 1024 + (l - 56320)) :: codePoints r
          else h :: codePoints rest
      | [] => [h]
      end
  end.

Definition codeUnits (c : N) : jsstring :=
  if c <? 65536 then [c]
  else [55296 + (c - 65536) / 1024; 56320 + (c - 65536) mod 1024].

(** The simple lowercase mappings as runs [(first, last, step, image)]:
    the code points [first], [first + step], ... up to [last] map to
    [image], [image + step], ... *)
Definition lowerRuns : list (N * N * N * N) :=
  [ (65, 90, 1, 97); (192, 214, 1, 224); (216, 222, 1, 248);
    (256, 302, 2, 257); (306, 310, 2, 307); (313, 327, 2, 314);
    (330, 374, 2, 331); (376, 376, 1, 255); (377, 381, 2, 378);
    (385, 385, 1, 595); (386, 388, 2, 387); (390, 390, 1, 596);
    (391, 391, 1, 392); (393, 394, 1, 598); (395, 395, 1, 396);
    (398, 398, 1, 477); (399, 399, 1, 601); (400, 400, 1, 603);
    (401, 401, 1, 402); (403, 403, 1, 608); (404, 404, 1, 611);
    (406, 406, 1, 617); (407, 407, 1, 616); (408, 408, 1, 409);
    (412, 412, 1, 623); (413, 413, 1, 626); (415, 415, 1, 629);
    (416, 420, 2, 417); (422, 422, 1, 640); (423, 423, 1, 424);
    (425, 425, 1, 643); (428, 428, 1, 429); (430, 430, 1, 648);
    (431, 431, 1, 432); (433, 434, 1, 650); (435, 437, 2, 436);
    (439, 439, 1, 658); (440, 440, 1, 441); (444, 444, 1, 445);
    (452, 452, 1, 454); (453, 453, 1, 454); (455, 455, 1, 457);
    (456, 456, 1, 457); (458, 458, 1, 460); (459, 475, 2, 460);
    (478, 494, 2, 479); (497, 497, 1, 499); (498, 500, 2, 499);
    (502, 502, 1, 405); (503, 503, 1, 447); (504, 542, 2, 505);
    (544, 544, 1, 414); (546, 562, 2, 547); (570, 570, 1, 11365);
    (571, 571, 1, 572); (573, 573, 1, 410); (574, 574, 1, 11366);
    (577, 577, 1, 578); (579, 579, 1, 384); (580, 580, 1, 649);
    (581, 581, 1, 652); (582, 590, 2, 583); (880, 882, 2, 881);
    (886, 886, 1, 887); (895, 895, 1, 1011); (902, 902, 1, 940);
    (904, 906, 1, 941); (908, 908, 1, 972); (910, 911, 1, 973);
    (913, 929, 1, 945); (931, 939, 1, 963); (975, 975, 1, 983);
    (984, 1006, 2, 985); (1012, 1012, 1, 952); (1015, 1015, 1, 1016);
    (1017, 1017, 1, 1010); (1018, 1018, 1, 1019); (1021, 1023, 1, 891);
    (1024, 1039, 1, 1104); (1040, 1071, 1, 1072); (1120, 1152, 2, 1121);
    (1162, 1214, 2, 1163); (1216, 1216, 1, 1231); (1217, 1229, 2, 1218);
    (1232, 1326, 2, 1233); (1329, 1366, 1, 1377); (4256, 4293, 1, 11520);
    (4295, 4295, 1, 11559); (4301, 4301, 1, 11565); (5024, 5103, 1, 43888);
    (5104, 5109, 1, 5112); (7312, 7354, 1, 4304); (7357, 7359, 1, 4349);
    (7680, 7828, 2, 7681); (7838, 7838, 1, 223); (7840, 7934, 2, 7841);
    (7944, 7951, 1, 7936); (7960, 7965, 1, 7952); (7976, 7983, 1, 7968);
    (7992, 7999, 1, 7984); (8008, 8013, 1, 8000); (8025, 8031, 2, 8017);
    (8040, 8047, 1, 8032); (8072, 8079, 1, 8064); (8088, 8095, 1, 8080);
    (8104, 8111, 1, 8096); (8120, 8121, 1, 8112); (8122, 8123, 1, 8048);
    (8124, 8124, 1, 8115); (8136, 8139, 1, 8050); (8140, 8140, 1, 8131);
    (8152, 8153, 1, 8144); (8154, 8155, 1, 8054); (8168, 8169, 1, 8160);
    (8170, 8171, 1, 8058); (8172, 8172, 1, 8165); (8184, 8185, 1, 8056);
    (8186, 8187, 1, 8060); (8188, 8188, 1, 8179); (8486, 8486, 1, 969);
    (8490, 8490, 1, 107); (8491, 8491, 1, 229); (8498, 8498, 1, 8526);
    (8544, 8559, 1, 8560); (8579, 8579, 1, 8580); (9398, 9423, 1, 9424);
    (11264, 11311, 1, 11312); (11360, 11360, 1, 11361);
    (11362, 11362, 1, 619); (11363, 11363, 1, 7549); (11364, 11364, 1, 637);
    (11367, 11371, 2, 11368); (11373, 11373, 1, 593);
    (11374, 11374, 1, 625); (11375, 11375, 1, 592); (11376, 11376, 1, 594);
    (11378, 11378, 1, 11379); (11381, 11381, 1, 11382);
    (11390, 11391, 1, 575); (11392, 11490, 2, 11393);
    (11499, 11501, 2, 11500); (11506, 11506, 1, 11507);
    (42560, 42604, 2, 42561); (42624, 42650, 2, 42625);
    (42786, 42798, 2, 42787); (42802, 42862, 2, 42803);
    (42873, 42875, 2, 42874); (42877, 42877, 1, 7545);
    (42878, 42886, 2, 42879); (42891, 42891, 1, 42892);
    (42893, 42893, 1, 613); (42896, 42898, 2, 42897);
    (42902, 42920, 2, 42903); (42922, 42922, 1, 614);
    (42923, 42923, 1, 604); (42924, 42924, 1, 609); (42925, 42925, 1, 620);
    (42926, 42926, 1, 618); (42928, 42928, 1, 670); (42929, 42929, 1, 647);
    (42930, 42930, 1, 669); (42931, 42931, 1, 43859);
    (42932, 42946, 2, 42933); (42948, 42948, 1, 42900);
    (42949, 42949, 1, 642); (42950, 42950, 1, 7566);
    (42951, 42953, 2, 42952); (42960, 42960, 1, 42961);
    (42966, 42968, 2, 42967); (42997, 42997, 1, 42998);
    (65313, 65338, 1, 65345); (66560, 66599, 1, 66600);
    (66736, 66771, 1, 66776); (66928, 66938, 1, 66967);
    (66940, 66954, 1, 66979); (66956, 66962, 1, 66995);
    (66964, 66965, 1, 67003); (68736, 68786, 1, 68800);
    (71840, 71871, 1, 71872); (93760, 93791, 1, 93792);
    (125184, 125217, 1, 125218) ].

(** The property Cased, as ranges. *)
Definition casedRanges : list (N * N) :=
  [ (65, 90); (97, 122); (170, 170); (181, 181); (186, 186); (192, 214);
    (216, 246); (248, 442); (444, 447); (452, 659); (661, 696); (704, 705);
    (736, 740); (837, 837); (880, 883); (886, 887); (890, 893); (895, 895);
    (902, 902); (904, 906); (908, 908); (910, 929); (931, 1013);
    (1015, 1153); (1162, 1327); (1329, 1366); (1376, 1416); (4256, 4293);
    (4295, 4295); (4301, 4301); (4304, 4346); (4349, 4351); (5024, 5109);
    (5112, 5117); (7296, 7304); (7312, 7354); (7357, 7359); (7424, 7615);
    (7680, 7957); (7960, 7965); (7968, 8005); (8008, 8013); (8016, 8023);
    (8025, 8025); (8027, 8027); (8029, 8029); (8031, 8061); (8064, 8116);
    (8118, 8124); (8126, 8126); (8130, 8132); (8134, 8140); (8144, 8147);
    (8150, 8155); (8160, 8172); (8178, 8180); (8182, 8188); (8305, 8305);
    (8319, 8319); (8336, 8348); (8450, 8450); (8455, 8455); (8458, 8467);
    (8469, 8469); (8473, 8477); (8484, 8484); (8486, 8486); (8488, 8488);
    (8490, 8493); (8495, 8500); (8505, 8505); (8508, 8511); (8517, 8521);
    (8526, 8526); (8544, 8575); (8579, 8580); (9398, 9449); (11264, 11492);
    (11499, 11502); (11506, 11507); (11520, 11557); (11559, 11559);
    (11565, 11565); (42560, 42605); (42624, 42653); (42786, 42887);
    (42891, 42894); (42896, 42954); (42960, 42961); (42963, 42963);
    (42965, 42969); (42997, 42998); (43000, 43002); (43824, 43866);
    (43868, 43880); (43888, 43967); (64256, 64262); (64275, 64279);
    (65313, 65338); (65345, 65370); (66560, 66639); (66736, 66771);
    (66776, 66811); (66928, 66938); (66940, 66954); (66956, 66962);
    (66964, 66965); (66967, 66977); (66979, 66993); (66995, 67001);
    (67003, 67004); (67456, 67456); (67459, 67461); (67463, 67504);
    (67506, 67514); (68736, 68786); (68800, 68850); (71840, 71903);
    (93760, 93823); (119808, 119892); (119894, 119964); (119966, 119967);
    (119970, 119970); (119973, 119974); (119977, 119980); (119982, 119993);
    (119995, 119995); (119997, 120003); (120005, 120069); (120071, 120074);
    (120077, 120084); (120086, 120092); (120094, 120121); (120123, 120126);
    (120128, 120132); (120134, 120134); (120138, 120144); (120146, 120485);
    (120488, 120512); (120514, 120538); (120540, 120570); (120572, 120596);
    (120598, 120628); (120630, 120654); (120656, 120686); (120688, 120712);
    (120714, 120744); (120746, 120770); (120772, 120779); (122624, 122633);
    (122635, 122654); (125184, 125251); (127280, 127305); (127312, 127337);
    (127344, 127369) ].

(** The property Case_Ignorable, as ranges. *)
Definition caseIgnorableRanges : list (N * N) :=
  [ (39, 39); (46, 46); (58, 58); (94, 94); (96, 96); (168, 168);
    (173, 173); (175, 175); (180, 180); (183, 184); (688, 879); (884, 885);
    (890, 890); (900, 901); (903, 903); (1155, 1161); (1369, 1369);
    (1375, 1375); (1425, 1469); (1471, 1471); (1473, 1474); (1476, 1477);
    (1479, 1479); (1524, 1524); (1536, 1541); (1552, 1562); (1564, 1564);
    (1600, 1600); (1611, 1631); (1648, 1648); (1750, 1757); (1759, 1768);
    (1770, 1773); (1807, 1807); (1809, 1809); (1840, 1866); (1958, 1968);
    (2027, 2037); (2042, 2042); (2045, 2045); (2070, 2093); (2137, 2139);
    (2184, 2184); (2192, 2193); (2200, 2207); (2249, 2306); (2362, 2362);
    (2364, 2364); (2369, 2376); (2381, 2381); (2385, 2391); (2402, 2403);
    (2417, 2417); (2433, 2433); (2492, 2492); (2497, 2500); (2509, 2509);
    (2530, 2531); (2558, 2558); (2561, 2562); (2620, 2620); (2625, 2626);
    (2631, 2632); (2635, 2637); (2641, 2641); (2672, 2673); (2677, 2677);
    (2689, 2690); (2748, 2748); (2753, 2757); (2759, 2760); (2765, 2765);
    (2786, 2787); (2810, 2815); (2817, 2817); (2876, 2876); (2879, 2879);
    (2881, 2884); (2893, 2893); (2901, 2902); (2914, 2915); (2946, 2946);
    (3008, 3008); (3021, 3021); (3072, 3072); (3076, 3076); (3132, 3132);
    (3134, 3136); (3142, 3144); (3146, 3149); (3157, 3158); (3170, 3171);
    (3201, 3201); (3260, 3260); (3263, 3263); (3270, 3270); (3276, 3277);
    (3298, 3299); (3328, 3329); (3387, 3388); (3393, 3396); (3405, 3405);
    (3426, 3427); (3457, 3457); (3530, 3530); (3538, 3540); (3542, 3542);
    (3633, 3633); (3636, 3642); (3654, 3662); (3761, 3761); (3764, 3772);
    (3782, 3782); (3784, 3789); (3864, 3865); (3893, 3893); (3895, 3895);
    (3897, 3897); (3953, 3966); (3968, 3972); (3974, 3975); (3981, 3991);
    (3993, 4028); (4038, 4038); (4141, 4144); (4146, 4151); (4153, 4154);
    (4157, 4158); (4184, 4185); (4190, 4192); (4209, 4212); (4226, 4226);
    (4229, 4230); (4237, 4237); (4253, 4253); (4348, 4348); (4957, 4959);
    (5906, 5908); (5938, 5939); (5970, 5971); (6002, 6003); (6068, 6069);
    (6071, 6077); (6086, 6086); (6089, 6099); (6103, 6103); (6109, 6109);
    (6155, 6159); (6211, 6211); (6277, 6278); (6313, 6313); (6432, 6434);
    (6439, 6440); (6450, 6450); (6457, 6459); (6679, 6680); (6683, 6683);
    (6742, 6742); (6744, 6750); (6752, 6752); (6754, 6754); (6757, 6764);
    (6771, 6780); (6783, 6783); (6823, 6823); (6832, 6862); (6912, 6915);
    (6964, 6964); (6966, 6970); (6972, 6972); (6978, 6978); (7019, 7027);
    (7040, 7041); (7074, 7077); (7080, 7081); (7083, 7085); (7142, 7142);
    (7144, 7145); (7149, 7149); (7151, 7153); (7212, 7219); (7222, 7223);
    (7288, 7293); (7376, 7378); (7380, 7392); (7394, 7400); (7405, 7405);
    (7412, 7412); (7416, 7417); (7468, 7530); (7544, 7544); (7579, 7679);
    (8125, 8125); (8127, 8129); (8141, 8143); (8157, 8159); (8173, 8175);
    (8189, 8190); (8203, 8207); (8216, 8217); (8228, 8228); (8231, 8231);
    (8234, 8238); (8288, 8292); (8294, 8303); (8305, 8305); (8319, 8319);
    (8336, 8348); (8400, 8432); (11388, 11389); (11503, 11505);
    (11631, 11631); (11647, 11647); (11744, 11775); (11823, 11823);
    (12293, 12293); (12330, 12333); (12337, 12341); (12347, 12347);
    (12441, 12446); (12540, 12542); (40981, 40981); (42232, 42237);
    (42508, 42508); (42607, 42610); (42612, 42621); (42623, 42623);
    (42652, 42655); (42736, 42737); (42752, 42785); (42864, 42864);
    (42888, 42890); (42994, 42996); (43000, 43001); (43010, 43010);
    (43014, 43014); (43019, 43019); (43045, 43046); (43052, 43052);
    (43204, 43205); (43232, 43249); (43263, 43263); (43302, 43309);
    (43335, 43345); (43392, 43394); (43443, 43443); (43446, 43449);
    (43452, 43453); (43471, 43471); (43493, 43494); (43561, 43566);
    (43569, 43570); (43573, 43574); (43587, 43587); (43596, 43596);
    (43632, 43632); (43644, 43644); (43696, 43696); (43698, 43700);
    (43703, 43704); (43710, 43711); (43713, 43713); (43741, 43741);
    (43756, 43757); (43763, 43764); (43766, 43766); (43867, 43871);
    (43881, 43883); (44005, 44005); (44008, 44008); (44013, 44013);
    (64286, 64286); (64434, 64450); (65024, 65039); (65043, 65043);
    (65056, 65071); (65106, 65106); (65109, 65109); (65279, 65279);
    (65287, 65287); (65294, 65294); (65306, 65306); (65342, 65342);
    (65344, 65344); (65392, 65392); (65438, 65439); (65507, 65507);
    (65529, 65531); (66045, 66045); (66272, 66272); (66422, 66426);
    (67456, 67461); (67463, 67504); (67506, 67514); (68097, 68099);
    (68101, 68102); (68108, 68111); (68152, 68154); (68159, 68159);
    (68325, 68326); (68900, 68903); (69291, 69292); (69446, 69456);
    (69506, 69509); (69633, 69633); (69688, 69702); (69744, 69744);
    (69747, 69748); (69759, 69761); (69811, 69814); (69817, 69818);
    (69821, 69821); (69826, 69826); (69837, 69837); (69888, 69890);
    (69927, 69931); (69933, 69940); (70003, 70003); (70016, 70017);
    (70070, 70078); (70089, 70092); (70095, 70095); (70191, 70193);
    (70196, 70196); (70198, 70199); (70206, 70206); (70367, 70367);
    (70371, 70378); (70400, 70401); (70459, 70460); (70464, 70464);
    (70502, 70508); (70512, 70516); (70712, 70719); (70722, 70724);
    (70726, 70726); (70750, 70750); (70835, 70840); (70842, 70842);
    (70847, 70848); (70850, 70851); (71090, 71093); (71100, 71101);
    (71103, 71104); (71132, 71133); (71219, 71226); (71229, 71229);
    (71231, 71232); (71339, 71339); (71341, 71341); (71344, 71349);
    (71351, 71351); (71453, 71455); (71458, 71461); (71463, 71467);
    (71727, 71735); (71737, 71738); (71995, 71996); (71998, 71998);
    (72003, 72003); (72148, 72151); (72154, 72155); (72160, 72160);
    (72193, 72202); (72243, 72248); (72251, 72254); (72263, 72263);
    (72273, 72278); (72281, 72283); (72330, 72342); (72344, 72345);
    (72752, 72758); (72760, 72765); (72767, 72767); (72850, 72871);
    (72874, 72880); (72882, 72883); (72885, 72886); (73009, 73014);
    (73018, 73018); (73020, 73021); (73023, 73029); (73031, 73031);
    (73104, 73105); (73109, 73109); (73111, 73111); (73459, 73460);
    (78896, 78904); (92912, 92916); (92976, 92982); (92992, 92995);
    (94031, 94031); (94095, 94111); (94176, 94177); (94179, 94180);
    (110576, 110579); (110581, 110587); (110589, 110590); (113821, 113822);
    (113824, 113827); (118528, 118573); (118576, 118598); (119143, 119145);
    (119155, 119170); (119173, 119179); (119210, 119213); (119362, 119364);
    (121344, 121398); (121403, 121452); (121461, 121461); (121476, 121476);
    (121499, 121503); (121505, 121519); (122880, 122886); (122888, 122904);
    (122907, 122913); (122915, 122916); (122918, 122922); (123184, 123197);
    (123566, 123566); (123628, 123631); (125136, 125142); (125252, 125259);
    (127995, 127999); (917505, 917505); (917536, 917631); (917760, 917999) ].

Definition inRanges (t : list (N * N)) (c : N) : bool :=
  existsb (fun r => between (fst r) (snd r) c) t.

Definition isCased (c : N) : bool := inRanges casedRanges c.
Definition isCaseIgnorable (c : N) : bool := inRanges caseIgnorableRanges c.

Fixpoint lookupRun (t : list (N * N * N * N)) (c : N) : N :=
  match t with
  | [] => c
  | (first, last, step, image) :: t' =>
      if between first last c && ((c - first) mod step =? 0)
      then image + (c - first)
      else lookupRun t' c
  end.

(** The lowercase mapping of one code point; below U+00C0 only the
    ASCII capitals change. *)
Definition lowerPoint (c : N) : N :=
  if c <? 192 then (if isUpperAscii c then c + 32 else c)
  else lookupRun lowerRuns c.

(** Skipping case-ignorable code points, the next code point is cased. *)
Fixpoint reachesCased (l : list N) : bool :=
  match l with
  | [] => false
  | c :: r => if isCaseIgnorable c then reachesCased r else isCased c
  end.

(** [before] holds the code points already read, nearest first.  A
    capital sigma (U+03A3) becomes the final sigma (U+03C2) when a cased
    letter precedes it and none follows it, case-ignorable code points
    being skipped on both sides. *)
Fixpoint lowerFrom (before after : list N) : list N :=
  match after with
  | [] => []
  | c :: r =>
      (if c =? 304 then [105; 775]
       else if c =? 931 then
         [if reachesCased before && negb (reachesCased r) then 962 else 963]
       else [lowerPoint c])
      ++ lowerFrom (c :: before) r
  end.

Definition toLowerCase (s : jsstring) : jsstring :=
  flat_map codeUnits (lowerFrom [] (codePoints s)).

Fixpoint trimStart (s : jsstring) : jsstring :=
  match s with
  | c :: s' => if isTrimChar c then trimStart s' else s
  | [] => []
  end.

Definition trimEnd (s : jsstring) : jsstring := rev (trimStart (rev s)).

Definition trim (s : jsstring) : jsstring := trimEnd (trimStart s).

(** Truthiness of a possibly-undefined string: [undefined] and the
    empty string are falsy. *)
Definition truthy (s : option jsstring) : bool :=
  match s with
  | Some (_ :: _) => true
  | _ => false
  end.

(** [x || d] on a possibly-undefined string. *)
Definition orElse (s : option jsstring) (d : jsstring) : jsstring :=
  match s with
  | Some (c :: r) => c :: r
  | _ => d
  end.

(** Template-literal interpolation of a possibly-undefined string. *)
Definition interp (s : option jsstring) : jsstring :=
  match s with
  | Some v => v
  | None => lit "undefined"
  end.

(** A JSON number.  The sources only interpolate numbers into template
    literals, so a number is kept as the text that the conversion to
    string gives for it: the digits of an integer below 10^21, with a
    sign or a fraction where there is one, and the exponent form
    beyond. *)
Record number : Type := mkNumber { numberText : jsstring }.

Fixpoint join (sep : jsstring) (l : list jsstring) : jsstring :=
  match l with
  | [] => []
  | [x] => x
  | x :: rest => x ++ sep ++ join sep rest
  end.

(** A string that does not start with a code unit that [trim] removes. *)
Definition startsClean (s : jsstring) : Prop :=
  match s with
  | [] => True
  | c :: _ => isTrimChar c = false
  end.

End Js.

(* ================================================================== *)
(** ** Regular expressions *)
(* ================================================================== *)

Module Regex.
Import Js.
Local Open Scope N_scope.

(** The constructs used by the regular expressions of the sources. *)
Inductive regex : Type :=
| Eps
| Chr (c : N)              (* a literal character *)
| Dot                      (* .   *)
| Digit                    (* \d  *)
| WordB                    (* \b  *)
| Seq (a b : regex)
| Alt (a b : regex)        (* a|b *)
| Opt (a : regex)          (* a?  (greedy) *)
| DotStar.                 (* .*  (greedy) *)

(** A continuation receives the last consumed code unit (for [\b]) and
    the rest of the input. *)
Definition cont := option N -> jsstring -> option jsstring.

(** Character comparison.  With the [i] flag both sides are
    canonicalised; all literal characters of the sources are ASCII, and
    no code unit from U+0080 up canonicalises to an ASCII one, so the
    comparison is the ASCII case-insensitive one. *)
Definition charEq (icase : bool) (p c : N) : bool :=
  if icase then upperAscii p =? upperAscii c else p =? c.

Definition isWordOpt (c : option N) : bool :=
  match c with
  | Some x => isWordChar x
  | None => false
  end.

Definition atBoundary (prev : option N) (s : jsstring) : bool :=
  xorb (isWordOpt prev) (isWordOpt (hd_error s)).

Section Matcher.
Variable icase : bool.

Fixpoint dotStar (k : cont) (prev : option N) (s : jsstring)
  : option jsstring :=
  match s with
  | c :: s' =>
      if isLineTerminator c then k prev s
      else match dotStar k (Some c) s' with
           | Some r => Some r
           | None => k prev s
           end
  | [] => k prev s
  end.

Fixpoint matchR (r : regex) (prev : option N) (s : jsstring) (k : cont)
  : option jsstring :=
  match r with
  | Eps => k prev s
  | Chr p =>
      match s with
      | c :: s' => if charEq icase p c then k (Some c) s' else None
      | [] => None
      end
  | Dot =>
      match s with
      | c :: s' => if isLineTerminator c then None else k (Some c) s'
      | [] => None
      end
  | Digit =>
      match s with
      | c :: s' => if isDigit c then k (Some c) s' else None
      | [] => None
      end
  | WordB => if atBoundary prev s then k prev s else None
  | Seq a b => matchR a prev s (fun p s' => matchR b p s' k)
  | Alt a b =>
      match matchR a prev s k with
      | Some x => Some x
      | None => matchR b prev s k
      end
  | Opt a =>
      match matchR a prev s k with
      | Some x => Some x
      | None => k prev s
      end
  | DotStar => dotStar k prev s
  end.

Definition accept : cont := fun _ rest => Some rest.

(** A match that starts exactly here; the result is the input left
    after the match. *)
Definition matchAt (r : regex) (prev : option N) (s : jsstring)
  : option jsstring := matchR r prev s accept.

(** [RegExp.prototype.test] without the [g] flag: is there a match at
    some start position, the end of the input included. *)
Fixpoint testFrom (r : regex) (prev : option N) (s : jsstring) : bool :=
  match matchAt r prev s with
  | Some _ => true
  | None =>
      match s with
      | [] => false
      | c :: s' => testFrom r (Some c) s'
      end
  end.

Definition test (r : regex) (s : jsstring) : bool := testFrom r None s.

(** [String.prototype.match] without the [g] flag: the text of the
    leftmost match ([m[0]]), if any. *)
Fixpoint execFrom (r : regex) (prev : option N) (s : jsstring)
  : option jsstring :=
  match matchAt r prev s with
  | Some rest => Some (firstn (length s - length rest) s)
  | None =>
      match s with
      | [] => None
      | c :: s' => execFrom r (Some c) s'
      end
  end.

Definition exec (r : regex) (s : jsstring) : option jsstring :=
  execFrom r None s.

(** [String.prototype.replace] with the [g] flag and a replacement
    without [$] patterns.  [skip] counts the code units of the current
    match still to be dropped; after an empty match the scan advances
    by one code unit. *)
Fixpoint replaceFrom (r : regex) (rep : jsstring) (prev : option N)
         (s : jsstring) (skip : nat) : jsstring :=
  match s with
  | [] =>
      match skip with
      | O => match matchAt r prev [] with
             | Some _ => rep
             | None => []
             end
      | S _ => []
      end
  | c :: s' =>
      match skip with
      | S n => replaceFrom r rep (Some c) s' n
      | O =>
          match matchAt r prev s with
          | Some rest =>
              match (length s - length rest)%nat with
              | O => rep ++ c :: replaceFrom r rep (Some c) s' 0
              | S m => rep ++ replaceFrom r rep (Some c) s' m
              end
          | None => c :: replaceFrom r rep (Some c) s' 0
          end
      end
  end.

Definition replaceAll (r : regex) (rep s : jsstring) : jsstring :=
  replaceFrom r rep None s 0.

End Matcher.

(** Builders for the patterns of the sources. *)
Definition str (s : string) : regex :=
  fold_right (fun c r => Seq (Chr c) r) Eps (lit s).

Fixpoint cat (l : list regex) : regex :=
  match l with
  | [] => Eps
  | [r] => r
  | r :: rest => Seq r (cat rest)
  end.

Fixpoint alts (l : list regex) : regex :=
  match l with
  | [] => Eps
  | [r] => r
  | r :: rest => Alt r (alts rest)
  end.

Definition oneOf (l : list string) : regex := alts (map str l).

Fixpoint times (n : nat) (r : regex) : regex :=
  match n with
  | O => Eps
  | S m => Seq r (times m r)
  end.

(** Two continuations that agree whenever the consumed characters agree
    on being word characters. *)
Definition agree (k k' : cont) : Prop :=
  forall q q' s, isWordOpt q = isWordOpt q' -> k q s = k' q' s.

(** [k'] succeeds on the input extended by [ws] wherever [k] succeeds. *)
Definition extends (ws : jsstring) (k k' : cont) : Prop :=
  forall p s x, k p s = Some x -> exists y, k' p (s ++ ws) = Some y.

End Regex.

(* ================================================================== *)
(** ** Pattern classifier *)
(* ================================================================== *)

Module Classifier.
Import Js Regex.
Local Open Scope string_scope.
Local Open Scope N_scope.

(** The intent labels: the keys of the [patterns] objects, and the
    default label ['general']. *)
Inductive intent : Type :=
| general
| tracking
| return_
| refund
| damaged_item
| shipping_inquiry
| item_question
| discount_request
| cancellation
| positive_feedback
| legal_threat
| fraud_claim
| off_platform.

Inductive risk : Type := low | medium | high.

Definition intent_eq_dec (a b : intent) : {a = b} + {a <> b}.
Proof. decide equality. Defined.

Definition risk_eq_dec (a b : risk) : {a = b} + {a <> b}.
Proof. decide equality. Defined.

Definition intent_eqb (a b : intent) : bool :=
  if intent_eq_dec a b then true else false.

Definition risk_eqb (a b : risk) : bool :=
  if risk_eq_dec a b then true else false.

(** [Array.prototype.includes] on a list of intent labels. *)
Definition includes (l : list intent) (i : intent) : bool :=
  existsb (intent_eqb i) l.

Record classification : Type := mkClassification {
  c_intent : intent;
  confidence : N;
  c_risk : risk
}.

(** An entry of [Object.entries(patterns)]. *)
Definition entry : Type := (intent * list regex)%type.

Section ClassifyIntent.
(** [String.prototype.toLowerCase], and the [patterns] object in its
    insertion order. *)
Variable toLowerCase : jsstring -> jsstring.
Variable patterns : list entry.

(** [let score = 0; for (const r of regexes) if (r.test(msg)) score++] *)
Definition scoreOf (msg : jsstring) (regexes : list regex) : N :=
  fold_left (fun score r => if test true r msg then score + 1 else score)
            regexes 0.

(** One turn of the loop over the entries:
    [if (score > bestScore) { bestScore = score; bestIntent = intent; }] *)
Definition step (msg : jsstring) (best : intent * N) (e : entry)
  : intent * N :=
  let score := scoreOf msg (snd e) in
  if snd best <? score then (fst e, score) else best.

Definition bestOf (msg : jsstring) : intent * N :=
  fold_left (step msg) patterns (general, 0).

Definition classifyIntent (message : jsstring) : classification :=
  let msg := toLowerCase message in
  let (bestIntent, bestScore) := bestOf msg in
  let highRisk := includes [legal_threat; fraud_claim; off_platform] bestIntent in
  let mediumRisk :=
    includes [return_; refund; damaged_item; cancellation] bestIntent in
  {| c_intent := bestIntent;
     confidence := N.min (bestScore * 30 + 20) 95;
     c_risk := if highRisk then high else if mediumRisk then medium else low |}.
End ClassifyIntent.

(** *** The three pattern tables of the repository *)

(** backend/agents/classifierAgent.js *)
Definition patterns_agent : list entry :=
  [ (tracking,
      [ str "track";
        cat [str "where"; DotStar; oneOf ["order"; "package"; "item"; "shipment"]];
        str "not received";
        str "delivery date" ]);
    (return_,
      [ str "return"; cat [str "send"; DotStar; str "back"]; str "exchange" ]);
    (refund,
      [ str "refund"; str "money back"; cat [str "charge"; Opt Dot; str "back"] ]);
    (damaged_item,
      [ str "damaged"; str "broken"; str "cracked"; str "defective";
        str "not working" ]);
    (cancellation, [ str "cancel"; str "changed my mind" ]);
    (legal_threat,
      [ str "lawyer"; str "legal action"; str "sue"; str "court";
        str "report you" ]);
    (fraud_claim, [ str "scam"; str "fake"; str "counterfeit" ]);
    (off_platform,
      [ str "whatsapp"; cat [str "paypal"; DotStar; str "direct"];
        cat [str "email"; DotStar; str "direct"]; str "phone" ]) ].

(** routes/reply.js, the handler that uses eBay order data *)
Definition patterns_ebay : list entry :=
  [ (tracking,
      [ str "track";
        cat [str "where"; DotStar; oneOf ["order"; "package"; "item"]];
        cat [str "when"; DotStar; oneOf ["arrive"; "deliver"; "ship"; "get"]];
        cat [str "hasn"; Dot; str "t "; oneOf ["arrived"; "shipped"]];
        str "not received" ]);
    (return_,
      [ str "return"; cat [str "send"; DotStar; str "back"];
        cat [str "return "; oneOf ["policy"; "label"]]; str "exchange" ]);
    (refund, [ str "refund"; str "money back"; str "reimburse" ]);
    (damaged_item,
      [ str "damaged"; str "broken"; str "cracked"; str "defective";
        str "not working"; cat [str "doesn"; Dot; str "t work"]; str "faulty" ]);
    (shipping_inquiry,
      [ cat [str "shipping "; oneOf ["cost"; "time"; "method"]];
        cat [str "how long"; DotStar; oneOf ["ship"; "deliver"]];
        str "free shipping" ]);
    (item_question,
      [ str "compatible";
        cat [str "does "; oneOf ["it"; "this"]; str " "; oneOf ["work"; "fit"]];
        cat [str "what"; DotStar; oneOf ["size"; "color"; "dimension"]];
        str "specs" ]);
    (discount_request,
      [ str "discount"; str "lower price"; str "best price"; str "deal";
        str "offer" ]);
    (cancellation,
      [ str "cancel"; cat [str "don"; Dot; str "t want"]; str "changed my mind" ]);
    (positive_feedback,
      [ str "thank"; cat [str "great "; oneOf ["seller"; "service"]];
        str "love it"; str "perfect"; str "excellent" ]);
    (legal_threat,
      [ str "lawyer"; str "legal action"; str "sue"; str "court";
        str "report you" ]);
    (fraud_claim, [ str "scam"; str "fraud"; str "fake"; str "counterfeit" ]);
    (off_platform,
      [ str "whatsapp"; str "call me"; str "text me";
        cat [str "outside"; DotStar; str "ebay"] ]) ].

(** routes/reply.js, the handler with all logic inline *)
Definition patterns_inline : list entry :=
  [ (tracking,
      [ str "track";
        cat [str "where"; DotStar; oneOf ["order"; "package"; "item"; "shipment"]];
        str "shipping status";
        cat [str "when"; DotStar; oneOf ["arrive"; "deliver"; "ship"; "get"]];
        cat [str "hasn"; Dot; str "t "; oneOf ["arrived"; "shipped"]];
        str "not received";
        str "delivery date" ]);
    (return_,
      [ str "return";
        cat [str "send"; DotStar; oneOf ["back"; "it back"]];
        cat [str "want"; DotStar; str "refund"];
        cat [str "return "; oneOf ["policy"; "label"; "request"]];
        str "exchange" ]);
    (refund,
      [ str "refund"; str "money back"; cat [str "charge"; DotStar; str "back"];
        str "full refund"; str "partial refund"; str "reimburse" ]);
    (damaged_item,
      [ str "damaged"; str "broken"; str "cracked"; str "dent"; str "scratch";
        str "defective"; str "not working";
        cat [str "doesn"; Dot; str "t work"]; str "faulty";
        str "arrived broken" ]);
    (shipping_inquiry,
      [ cat [str "shipping "; oneOf ["cost"; "time"; "method"; "option"]];
        cat [str "how long"; DotStar; oneOf ["ship"; "deliver"]];
        str "expedit"; str "express ship"; str "free shipping";
        str "international ship" ]);
    (item_question,
      [ str "compatible";
        cat [str "does "; oneOf ["it"; "this"]; str " ";
             oneOf ["work"; "fit"; "come"]];
        cat [str "what"; DotStar;
             oneOf ["size"; "color"; "dimension"; "weight"; "material"]];
        cat [str "is "; oneOf ["it"; "this"]; str " ";
             oneOf ["new"; "genuine"; "authentic"; "original"]];
        str "specs"; str "specification" ]);
    (discount_request,
      [ str "discount"; str "lower price"; str "best price"; str "bulk";
        str "deal"; str "coupon"; str "offer"; str "negotiate" ]);
    (cancellation,
      [ str "cancel"; cat [str "don"; Dot; str "t want"];
        str "changed my mind"; cat [str "stop"; DotStar; str "order"] ]);
    (positive_feedback,
      [ str "thank";
        cat [str "great "; oneOf ["seller"; "service"; "product"; "item"]];
        cat [str "love "; oneOf ["it"; "this"]];
        str "perfect"; str "excellent"; str "amazing"; str "happy with";
        str "well packed"; str "fast ship" ]);
    (legal_threat,
      [ str "lawyer"; str "attorney"; str "legal action"; str "sue you";
        str "court"; str "trading standards"; str "consumer rights";
        str "report you"; str "bbb"; str "complaint" ]);
    (fraud_claim,
      [ str "scam"; str "fraud"; str "fake"; str "counterfeit";
        cat [str "not "; oneOf ["genuine"; "authentic"; "real"]];
        cat [str "knock"; Opt Dot; str "off"]; str "replica" ]);
    (off_platform,
      [ str "whatsapp"; cat [str "paypal"; DotStar; str "direct"];
        str "call me"; str "text me";
        cat [str "email"; DotStar; str "direct"];
        cat [str "outside"; DotStar; str "ebay"];
        cat [str "off"; DotStar; str "ebay"];
        cat [str "my"; DotStar; str "number"]; str "phone" ]) ].

(** [classifyIntent] of backend/agents/classifierAgent.js; the argument
    is [message || ''], so an undefined message is the empty string. *)
Definition classifyIntent_agent (message : option jsstring) : classification :=
  classifyIntent Js.toLowerCase patterns_agent (orElse message []).

(** [classifyIntent] of the two route files. *)
Definition classifyIntent_ebay : jsstring -> classification :=
  classifyIntent Js.toLowerCase patterns_ebay.

Definition classifyIntent_inline : jsstring -> classification :=
  classifyIntent Js.toLowerCase patterns_inline.

End Classifier.

(* ================================================================== *)
(** ** The agents *)
(* ================================================================== *)

Module Agents.
Import Js Regex Classifier.
Local Open Scope string_scope.
Local Open Scope N_scope.
Local Open Scope list_scope.

(** *** backend/agents/classifierAgent.js *)

(** [/\b\d{2}-\d{5}-\d{5}\b/] *)
Definition orderIdPattern : regex :=
  cat [WordB; times 2 Digit; str "-"; times 5 Digit; str "-"; times 5 Digit;
       WordB].

(** [String(text || '').match(...)], then [m ? m[0] : null]. *)
Definition extractOrderId (text : option jsstring) : option jsstring :=
  exec false orderIdPattern (orElse text []).

Record threadMessage : Type := mkThreadMessage {
  tm_role : option jsstring;
  tm_text : option jsstring
}.

Record needs : Type := mkNeeds {
  n_order : bool;
  n_tracking : bool
}.

(** The keys ['order_id'] and ['ebay_oauth'] of the [missing] arrays. *)
Inductive missingKey : Type := key_order_id | key_ebay_oauth.

Definition missingKey_eqb (a b : missingKey) : bool :=
  match a, b with
  | key_order_id, key_order_id | key_ebay_oauth, key_ebay_oauth => true
  | _, _ => false
  end.

Record classifierResult : Type := mkClassifierResult {
  cl_intent : intent;
  cl_confidence : N;
  cl_risk : risk;
  cl_orderId : option jsstring;        (* extracted.orderId *)
  cl_needs : needs;
  cl_missing : list missingKey
}.

(** An undefined array element is joined as the empty string. *)
Definition joinTexts (threadMessages : option (list threadMessage)) : jsstring :=
  join [10] (map (fun m => match tm_text m with Some t => t | None => [] end)
          (match threadMessages with Some l => l | None => [] end)).

Definition classifierAgent (latestBuyerMessage : option jsstring)
           (threadMessages : option (list threadMessage)) : classifierResult :=
  let text := orElse latestBuyerMessage [] in
  let orderId :=
    match extractOrderId (Some text) with
    | Some (c :: r) => Some (c :: r)
    | _ => extractOrderId (Some (joinTexts threadMessages))
    end in
  let c := classifyIntent_agent (Some text) in
  let i := c_intent c in
  let needsOrder :=
    includes [tracking; refund; return_; damaged_item; cancellation] i in
  let needsTracking := needsOrder && includes [tracking] i in
  let missing :=
    if needsOrder && negb (truthy orderId) then [key_order_id] else [] in
  {| cl_intent := i;
     cl_confidence := confidence c;
     cl_risk := c_risk c;
     cl_orderId := orderId;
     cl_needs := {| n_order := needsOrder; n_tracking := needsTracking |};
     cl_missing := missing |}.

(** *** backend/agents/dataFetchAgent.js *)

Record lineItem : Type := mkLineItem {
  li_title : option jsstring;
  li_quantity : option number;
  li_legacyItemId : option jsstring;
  li_lineItemId : option jsstring
}.

(** The order object of the eBay fulfillment API, as far as the agent
    reads it. *)
Record ebayOrder : Type := mkEbayOrder {
  eo_orderId : option jsstring;
  eo_orderFulfillmentStatus : option jsstring;
  eo_orderPaymentStatus : option jsstring;
  eo_creationDate : option jsstring;
  eo_buyerUsername : option jsstring;
  eo_shipToFullName : option jsstring;
  eo_lineItems : option (list lineItem)
}.

Record trackingEntry : Type := mkTrackingEntry {
  t_carrier : option jsstring;
  t_trackingNumber : option jsstring
}.

(** The result of [fetchOrderAndTracking]. *)
Inductive fetchResult : Type :=
| FetchOk (order : ebayOrder) (trackingList : option (list trackingEntry))
| FetchFailed.

Record item : Type := mkItem {
  i_title : option jsstring;
  i_qty : option number;
  i_itemId : option jsstring
}.

Record orderFacts : Type := mkOrderFacts {
  o_orderId : option jsstring;
  o_status : option jsstring;
  o_paymentStatus : option jsstring;
  o_created : option jsstring;
  o_buyerUsername : jsstring;
  o_shipToName : jsstring;
  o_items : option (list item)
}.

Record fetched : Type := mkFetched {
  f_order : option orderFacts;
  f_tracking : option (list trackingEntry);
  f_error : option fetchResult
}.

Record dataFetchResult : Type := mkDataFetch {
  d_ok : bool;
  d_fetched : fetched;
  d_missing : list missingKey
}.

Definition noneFetched : fetched :=
  {| f_order := None; f_tracking := None; f_error := None |}.

Definition firstTruthy (a b : option jsstring) : option jsstring :=
  if truthy a then a else b.

Definition normalizeItem (li : lineItem) : item :=
  {| i_title := li_title li;
     i_qty := li_quantity li;
     i_itemId := firstTruthy (li_legacyItemId li) (li_lineItemId li) |}.

(** The awaited collaborators either resolve or reject. *)
Inductive outcome (A : Type) : Type :=
| Resolved (a : A)
| Rejected.
Arguments Rejected {A}.

(** [getEbayToken(userId)] and [fetchOrderAndTracking(token, orderId)]
    are the outcomes of the two awaited calls. *)
Definition dataFetchAgent (getEbayToken : outcome (option jsstring))
           (fetchOrderAndTracking : jsstring -> jsstring -> outcome fetchResult)
           (nd : needs) (orderId : option jsstring)
  : outcome dataFetchResult :=
  let out := {| d_ok := true; d_fetched := noneFetched; d_missing := [] |} in
  if negb (n_order nd) then Resolved out
  else
    match orderId with
    | Some (c :: r) =>
        match getEbayToken with
        | Rejected => Rejected
        | Resolved (Some (tc :: tr)) =>
            match fetchOrderAndTracking (tc :: tr) (c :: r) with
            | Rejected => Rejected
            | Resolved FetchFailed =>
                Resolved {| d_ok := false;
                            d_fetched := {| f_order := None; f_tracking := None;
                                            f_error := Some FetchFailed |};
                            d_missing := [] |}
            | Resolved (FetchOk order trackingList) =>
                let tr' := match trackingList with Some l => l | None => [] end in
                Resolved
                  {| d_ok := true;
                     d_fetched :=
                       {| f_order := Some
                            {| o_orderId := eo_orderId order;
                               o_status := eo_orderFulfillmentStatus order;
                               o_paymentStatus := eo_orderPaymentStatus order;
                               o_created := eo_creationDate order;
                               o_buyerUsername := orElse (eo_buyerUsername order) [];
                               o_shipToName := orElse (eo_shipToFullName order) [];
                               o_items :=
                                 Some (map normalizeItem
                                         (match eo_lineItems order with
                                          | Some l => l
                                          | None => []
                                          end)) |};
                          f_tracking := Some tr';
                          f_error := None |};
                     d_missing := [] |}
            end
        | Resolved _ =>
            Resolved {| d_ok := false; d_fetched := noneFetched;
                        d_missing := [key_ebay_oauth] |}
        end
    | _ =>
        Resolved {| d_ok := false; d_fetched := noneFetched;
                    d_missing := [key_order_id] |}
    end.

(** *** backend/agents/reasoningAgent.js *)

Record reasoning : Type := mkReasoning {
  facts : list jsstring;
  questions : list jsstring;
  constraints : list jsstring
}.

Definition times_sign : jsstring := [215].

Definition itemText (i : item) : jsstring :=
  match i_qty i with Some q => numberText q | None => lit "undefined" end
  ++ times_sign ++ lit " " ++ interp (i_title i).

Definition orderIdLine (o : orderFacts) : jsstring :=
  lit "Order ID: " ++ interp (o_orderId o).

Definition statusLine (o : orderFacts) : jsstring :=
  lit "Order status: " ++ interp (o_status o).

Definition itemsLine (l : list item) : jsstring :=
  lit "Items: " ++ join (lit "; ") (map itemText l).

Definition trackingLine (t : trackingEntry) : jsstring :=
  trim (lit "Tracking: " ++ orElse (t_carrier t) [] ++ lit " "
          ++ orElse (t_trackingNumber t) []).

Definition askOrderNumber : jsstring :=
  lit "Could you please confirm your eBay order number so I can check the tracking/status?".

Definition askConnectEbay : jsstring :=
  lit "Seller needs to connect eBay account to fetch live order/tracking data.".

Definition orderOf (dataFetch : option dataFetchResult) : option orderFacts :=
  match dataFetch with
  | Some d => f_order (d_fetched d)
  | None => None
  end.

Definition trackingOf (dataFetch : option dataFetchResult) : list trackingEntry :=
  match dataFetch with
  | Some d => match f_tracking (d_fetched d) with Some l => l | None => [] end
  | None => []
  end.

Definition orderFactLines (o : orderFacts) : list jsstring :=
  [orderIdLine o]
  ++ (if truthy (o_status o) then [statusLine o] else [])
  ++ (match o_items o with
      | Some (i :: l) => [itemsLine (i :: l)]
      | _ => []
      end).

Definition trackingFactLines (trackingList : list trackingEntry) : list jsstring :=
  match trackingList with
  | t :: _ =>
      if truthy (t_carrier t) || truthy (t_trackingNumber t)
      then [trackingLine t] else []
  | [] => []
  end.

Definition reasoningAgent (classifier : option classifierResult)
           (dataFetch : option dataFetchResult)
           (riskConstraints profitGuidance : option (list jsstring))
  : reasoning :=
  let facts1 :=
    match orderOf dataFetch with
    | Some o => orderFactLines o
    | None => []
    end in
  let facts2 := trackingFactLines (trackingOf dataFetch) in
  let q1 :=
    match classifier with
    | Some c => if existsb (missingKey_eqb key_order_id) (cl_missing c)
                then [askOrderNumber] else []
    | None => []
    end in
  let q2 :=
    match dataFetch with
    | Some d => if existsb (missingKey_eqb key_ebay_oauth) (d_missing d)
                then [askConnectEbay] else []
    | None => []
    end in
  {| facts := facts1 ++ facts2;
     questions := q1 ++ q2;
     constraints :=
       (match riskConstraints with Some l => l | None => [] end)
       ++ (match profitGuidance with Some l => l | None => [] end) |}.

(** *** backend/agents/safetyCheckAgent.js *)

(** [/whatsapp|telegram|paypal|email me|call me|text me/gi] *)
Definition offPlatformPattern : regex :=
  oneOf ["whatsapp"; "telegram"; "paypal"; "email me"; "call me"; "text me"].

(** [/\b(it'?s our fault|we messed up|our mistake)\b/gi] *)
Definition admissionPattern : regex :=
  cat [WordB;
       alts [cat [str "it"; Opt (Chr 39); str "s our fault"];
             str "we messed up"; str "our mistake"];
       WordB].

(** [/\b(guarantee|definitely|100% sure)\b/gi] *)
Definition guaranteePattern : regex :=
  cat [WordB; oneOf ["guarantee"; "definitely"; "100% sure"]; WordB].

Definition ebayMessages : jsstring := lit "eBay messages".

(** The apostrophe of the replacement is U+2019. *)
Definition sorryText : jsstring :=
  lit "I" ++ [8217] ++ lit "m sorry for the inconvenience".

Definition bestEffort : jsstring := lit "will do our best to".

Definition safetyCheckAgent (draft : option jsstring) : jsstring :=
  let text := trim (orElse draft []) in
  let text := replaceAll true offPlatformPattern ebayMessages text in
  let text := replaceAll true admissionPattern sorryText text in
  let text := replaceAll true guaranteePattern bestEffort text in
  text.

(** Text in which none of the three trigger patterns matches. *)
Definition triggerFree (x : jsstring) : Prop :=
  test true offPlatformPattern x = false
  /\ test true admissionPattern x = false
  /\ test true guaranteePattern x = false.

End Agents.

(* ================================================================== *)
(** ** Effects: awaited calls, exceptions and the call trace *)
(* ================================================================== *)

Module Effects.
Import Js Agents.

(** The daily aggregate row of the [usage] table; [cost_usd] is kept in
    millionths of a dollar (the backends round it with [toFixed(6)]). *)
Record usageRow : Type := mkUsageRow {
  replies_count : N;
  rule_count : N;
  mini_count : N;
  large_count : N;
  tokens_used : N;
  cost_usd : N
}.

(** What a request does to the outside world, in program order. *)
Inductive event : Type :=
| CallOpenAI
| CallAnthropic
| SelectToneSamples
| LookupEbayData
| SelectUsage
| UpdateUsage (row : usageRow)
| InsertUsage (row : usageRow)
| InsertReplyLog (generated_reply : jsstring)
| UpdateLastActive
| ConsoleError.

(** A computation threads the trace and either resolves or rejects
    (throws). *)
Definition M (A : Type) : Type := list event -> outcome A * list event.

Definition ret {A} (a : A) : M A := fun t => (Resolved a, t).

Definition throw {A} : M A := fun t => (Rejected, t).

Definition bind {A B} (m : M A) (k : A -> M B) : M B :=
  fun t =>
    match m t with
    | (Resolved a, t') => k a t'
    | (Rejected, t') => (Rejected, t')
    end.

(** [await] of an external call whose outcome the world decides. *)
Definition await {A} (e : event) (o : outcome A) : M A :=
  fun t => (o, t ++ [e]).

Definition emit (e : event) : M unit := fun t => (Resolved tt, t ++ [e]).

(** [try { m } catch { h }] *)
Definition tryCatch {A} (m : M A) (h : M A) : M A :=
  fun t =>
    match m t with
    | (Resolved a, t') => (Resolved a, t')
    | (Rejected, t') => h t'
    end.

Definition run {A} (m : M A) : outcome A * list event := m [].

Definition isOpenAI (e : event) : bool :=
  match e with CallOpenAI => true | _ => false end.

Definition isAnthropic (e : event) : bool :=
  match e with CallAnthropic => true | _ => false end.

Definition count (p : event -> bool) (t : list event) : nat :=
  length (filter p t).

(** A postcondition on the value a computation resolves with. *)
Definition post {A} (m : M A) (Q : A -> Prop) : Prop :=
  forall t a t', m t = (Resolved a, t') -> Q a.

(** A bound on the backend calls a computation adds to the trace. *)
Definition adds {A} (m : M A) (na no : nat) : Prop :=
  forall t,
    (count isAnthropic (snd (m t)) <= count isAnthropic t + na)%nat
    /\ (count isOpenAI (snd (m t)) <= count isOpenAI t + no)%nat.

(** A computation that resolves, from every trace, with a value in [Q]. *)
Definition resolves {A} (m : M A) (Q : A -> Prop) : Prop :=
  forall t, exists a t', m t = (Resolved a, t') /\ Q a.

End Effects.

Declare Scope effect_scope.
Delimit Scope effect_scope with effect.
Notation "x <- m ;; k" := (Effects.bind m (fun x => k))
  (at level 61, m at next level, right associativity) : effect_scope.
Notation "m ;;; k" := (Effects.bind m (fun _ => k))
  (at level 61, right associativity) : effect_scope.

(* ================================================================== *)
(** ** The reply routes and the writer agent *)
(* ================================================================== *)

Module Routes.
Import Js Regex Classifier Agents Effects.
Local Open Scope string_scope.
Local Open Scope N_scope.
Local Open Scope list_scope.
Local Open Scope effect_scope.

(** A field of the JSON body whose type matters to the handler: absent
    or another falsy value that is not a string, a string, or a truthy
    value that is not a string (a number, [true], an array, an object). *)
Inductive bodyValue : Type :=
| Missing
| Text (s : jsstring)
| Other.

(** The value as a string, when it is one. *)
Definition textOf (v : bodyValue) : option jsstring :=
  match v with
  | Text s => Some s
  | _ => None
  end.

Record request : Type := mkRequest {
  customer_message : bodyValue;
  modify_instructions : option jsstring;
  buyer_name : option jsstring;
  order_id : option jsstring
}.

(** The row of [users] that the license middleware attaches. *)
Record user : Type := mkUser {
  u_name : option jsstring;
  u_business_name : option jsstring;
  u_signature_name : option jsstring;
  u_reply_tone : option jsstring
}.

(** What [callOpenAI] and [callAnthropic] return. *)
Record generation : Type := mkGeneration {
  g_reply : jsstring;
  g_model : jsstring;
  g_tokens : N;
  g_cost : N
}.

Inductive routeName : Type := rule | mini | large.

Definition routeName_eqb (a b : routeName) : bool :=
  match a, b with
  | rule, rule | mini, mini | large, large => true
  | _, _ => false
  end.

(** The order data the eBay-aware handler collects. *)
Record ebayData : Type := mkEbayData {
  ed_orderId : option jsstring;
  ed_buyer : option jsstring;
  ed_total : option jsstring;
  ed_status : option jsstring;
  ed_date : option jsstring;
  ed_items : list (option jsstring);
  ed_tracking : list trackingEntry
}.

(** The outcomes of the awaited calls of one request.  Each backend is
    called at most once per request, with the prompts of that request, so
    its outcome is one value; a throw while the prompt is built inside the
    same [try] block counts as a rejected call.  [ebayLookup] is the
    outcome of the whole order lookup of the eBay-aware handler.  An
    accounting call that resolves with an error value is a resolved call:
    the handlers never read that value. *)
Record world : Type := mkWorld {
  toneSamples : outcome unit;
  ebayLookup : outcome (option ebayData);
  openai : outcome generation;
  anthropic : outcome generation;
  usageSelect : outcome (option usageRow);
  usageWrite : outcome unit;
  replyLogInsert : outcome unit;
  lastActiveUpdate : outcome unit
}.

(** The mutable locals [reply, model, tokens, cost, route]. *)
Record draft : Type := mkDraft {
  reply : option jsstring;
  model : option jsstring;
  tokens : option N;
  cost : option N;
  route : option routeName
}.

Inductive response : Type :=
| Success (reply : jsstring) (i : intent) (r : risk) (route : option routeName)
          (ebay_data_used : option bool)
| Failure (status : N) (error : jsstring).

Definition nl : jsstring := [10].
Definition emdash : jsstring := [8212].

Definition orZero (n : option N) : N :=
  match n with Some v => v | None => 0 end.

Definition flag (d : draft) (r : routeName) : N :=
  match route d with
  | Some r' => if routeName_eqb r' r then 1 else 0
  | None => 0
  end.

Definition updatedRow (ex : usageRow) (d : draft) : usageRow :=
  {| replies_count := replies_count ex + 1;
     rule_count := rule_count ex + flag d rule;
     mini_count := mini_count ex + flag d mini;
     large_count := large_count ex + flag d large;
     tokens_used := tokens_used ex + orZero (tokens d);
     cost_usd := cost_usd ex + orZero (cost d) |}.

Definition insertedRow (d : draft) : usageRow :=
  {| replies_count := 1;
     rule_count := flag d rule;
     mini_count := flag d mini;
     large_count := flag d large;
     tokens_used := orZero (tokens d);
     cost_usd := orZero (cost d) |}.

(** The usage upsert, the reply log and the [last_active] update, each
    awaited in turn.  [reply.slice] throws on an undefined reply. *)
Definition trackUsage (w : world) (d : draft) : M unit :=
  existing <- await SelectUsage (usageSelect w) ;;
  (match existing with
   | Some ex => await (UpdateUsage (updatedRow ex d)) (usageWrite w)
   | None => await (InsertUsage (insertedRow d)) (usageWrite w)
   end) ;;;
  (match reply d with
   | Some r => await (InsertReplyLog (firstn 2000 r)) (replyLogInsert w)
   | None => throw
   end) ;;;
  await UpdateLastActive (lastActiveUpdate w).

Definition ofGeneration (g : generation) (r : routeName) : draft :=
  {| reply := Some (g_reply g); model := Some (g_model g);
     tokens := Some (g_tokens g); cost := Some (g_cost g); route := Some r |}.

(** Tier 2: [if (!reply && risk !== 'high') try { callOpenAI } catch { log }] *)
Definition tierMini (w : world) (c : classification) (d : draft) : M draft :=
  if negb (truthy (reply d)) && negb (risk_eqb (c_risk c) high) then
    tryCatch (g <- await CallOpenAI (openai w) ;; ret (ofGeneration g mini))
             (emit ConsoleError ;;; ret d)
  else ret d.

(** Tier 3: [if (!reply) try { callAnthropic } catch { log; return 500 }] *)
Definition tierLarge (unavailable : jsstring) (w : world) (d : draft)
  : M (draft + response) :=
  if negb (truthy (reply d)) then
    tryCatch (g <- await CallAnthropic (anthropic w) ;;
              ret (inl (ofGeneration g large)))
             (emit ConsoleError ;;; ret (inr (Failure 500 unavailable)))
  else ret (inl d).

(** The test [!customer_message || customer_message.trim().length < 3]:
    [Some msg] when it is false, so that the handler goes on with [msg].
    Otherwise the handler answers 400, unless the value is truthy and not
    a string: [customer_message.trim()] throws on it. *)
Definition validMessage (m : bodyValue) : option jsstring :=
  match m with
  | Text (c :: r) =>
      if (N.of_nat (length (trim (c :: r))) <? 3) then None else Some (c :: r)
  | _ => None
  end.

(** *** routes/reply.js with all logic inline *)
Module Inline.

Definition getRuleBasedReply (i : intent) (sellerName businessName : option jsstring)
  : option jsstring :=
  let sign := orElse sellerName (orElse businessName (lit "The Seller")) in
  match i with
  | tracking =>
      Some (concat
        [ lit "Hi there,"; nl; nl;
          lit "Thank you for your message. Your order has been dispatched and is on its way to you. You can find your tracking information in your eBay purchase history or notifications ";
          emdash;
          lit " please allow up to 24 hours for tracking to become active after shipping.";
          nl; nl;
          lit "If you have any other questions, please don't hesitate to ask."; nl;
          nl; lit "Best regards,"; nl; sign ])
  | positive_feedback =>
      Some (concat
        [ lit "Hi,"; nl; nl; lit "Thank you so much for the kind words "; emdash;
          lit " that really means a lot! I'm glad you're happy with your purchase. If you ever need anything in the future, don't hesitate to reach out.";
          nl; nl; lit "Wishing you all the best,"; nl; sign ])
  | shipping_inquiry =>
      Some (concat
        [ lit "Hi there,"; nl; nl;
          lit "Thank you for your interest! Shipping details including estimated delivery times and costs are listed on each item's listing page. Standard shipping typically takes 3-5 business days domestically.";
          nl; nl;
          lit "If you have any specific questions about shipping to your location, I'm happy to help.";
          nl; nl; lit "Best regards,"; nl; sign ])
  | item_question =>
      Some (concat
        [ lit "Hi,"; nl; nl;
          lit "Thank you for your question! All product details, specifications, and compatibility information are listed in the item description. I'd recommend checking there first.";
          nl; nl;
          lit "If you need any clarification or have specific questions not covered in the listing, please let me know and I'll be happy to help.";
          nl; nl; lit "Best regards,"; nl; sign ])
  | off_platform =>
      Some (concat
        [ lit "Hi,"; nl; nl;
          lit "Thank you for your message. For the protection of both buyers and sellers, I handle all communication and transactions through eBay's official messaging and checkout system.";
          nl; nl; lit "Please feel free to continue our conversation here ";
          emdash; lit " I'm happy to help with anything you need."; nl; nl;
          lit "Best regards,"; nl; sign ])
  | _ => None
  end.

Definition noDraft : draft :=
  {| reply := None; model := None; tokens := None; cost := None; route := None |}.

(** Tier 1: the rule template. *)
Definition tierRule (c : classification) (u : user) (req : request) : draft :=
  if (80 <=? confidence c) && risk_eqb (c_risk c) low
     && negb (truthy (modify_instructions req))
  then
    match getRuleBasedReply (c_intent c)
            (firstTruthy (u_signature_name u) (u_name u)) (u_business_name u) with
    | Some (x :: rr) =>
        {| reply := Some (x :: rr); model := Some (lit "rule-based");
           tokens := Some 0; cost := Some 0; route := Some rule |}
    | _ => noDraft
    end
  else noDraft.

Definition unavailable : jsstring :=
  lit "AI service unavailable. Please try again in a moment.".

Definition generate (w : world) (u : user) (req : request) : M response :=
  tryCatch
    (match validMessage (customer_message req) with
     | None =>
         match customer_message req with
         | Other => throw
         | _ => ret (Failure 400 (lit "Customer message is required"))
         end
     | Some msg =>
         let c := classifyIntent_inline msg in
         await SelectToneSamples (toneSamples w) ;;;
         d <- tierMini w c (tierRule c u req) ;;
         t3 <- tierLarge unavailable w d ;;
         match t3 with
         | inr resp => ret resp
         | inl d' =>
             trackUsage w d' ;;;
             ret (Success (interp (reply d')) (c_intent c) (c_risk c)
                          (route d') None)
         end
     end)
    (emit ConsoleError ;;;
     ret (Failure 500 (lit "Failed to generate reply. Please try again."))).

End Inline.

(** *** routes/reply.js that uses eBay order data when available *)
Module Ebay.

Definition getRuleReply (i : intent) (sign biz : option jsstring)
  : option jsstring :=
  let sign := orElse sign (orElse biz (lit "The Seller")) in
  match i with
  | tracking =>
      Some (concat
        [ lit "Hi there,"; nl; nl;
          lit "Thank you for your message. Your order has been dispatched and is on its way. You can find tracking info in your eBay purchase history ";
          emdash; lit " please allow 24 hours for tracking to activate."; nl; nl;
          lit "If you need anything else, just let me know."; nl; nl;
          lit "Best regards,"; nl; sign ])
  | positive_feedback =>
      Some (concat
        [ lit "Hi,"; nl; nl;
          lit "Thank you so much for the kind words! I'm really glad you're happy with your purchase. If you ever need anything, don't hesitate to reach out.";
          nl; nl; lit "All the best,"; nl; sign ])
  | shipping_inquiry =>
      Some (concat
        [ lit "Hi there,"; nl; nl;
          lit "Thank you for your interest! Shipping details and estimated delivery times are listed on each item's page. Standard shipping typically takes 3-5 business days domestically.";
          nl; nl;
          lit "Let me know if you have specific questions about shipping to your area.";
          nl; nl; lit "Best regards,"; nl; sign ])
  | off_platform =>
      Some (concat
        [ lit "Hi,"; nl; nl;
          lit "Thank you for your message. For the protection of both buyers and sellers, I handle all communication and transactions through eBay's messaging system.";
          nl; nl; lit "Please continue our conversation here "; emdash;
          lit " I'm happy to help!"; nl; nl; lit "Best regards,"; nl; sign ])
  | _ => None
  end.

(** [let reply, model, tokens = 0, cost = 0, route;] *)
Definition noDraft : draft :=
  {| reply := None; model := None; tokens := Some 0; cost := Some 0;
     route := None |}.

(** [if (order_id || buyer_name) try { ... } catch { log }]: a lookup
    that throws leaves [ebayData] null. *)
Definition lookupEbayData (w : world) (req : request) : M (option ebayData) :=
  if truthy (order_id req) || truthy (buyer_name req) then
    tryCatch (await LookupEbayData (ebayLookup w))
             (emit ConsoleError ;;; ret None)
  else ret None.

Definition isNull {A} (o : option A) : bool :=
  match o with Some _ => false | None => true end.

Definition tierRule (c : classification) (u : user) (req : request)
           (data : option ebayData) : draft :=
  if (80 <=? confidence c) && risk_eqb (c_risk c) low
     && negb (truthy (modify_instructions req)) && isNull data
  then
    match getRuleReply (c_intent c)
            (firstTruthy (u_signature_name u) (u_name u)) (u_business_name u) with
    | Some (x :: rr) =>
        {| reply := Some (x :: rr); model := Some (lit "rule");
           tokens := Some 0; cost := Some 0; route := Some rule |}
    | _ => noDraft
    end
  else noDraft.

Definition unavailable : jsstring :=
  lit "AI service unavailable. Please try again.".

Definition generate (w : world) (u : user) (req : request) : M response :=
  tryCatch
    (match validMessage (customer_message req) with
     | None =>
         match customer_message req with
         | Other => throw
         | _ => ret (Failure 400 (lit "Customer message is required"))
         end
     | Some msg =>
         let c := classifyIntent_ebay msg in
         await SelectToneSamples (toneSamples w) ;;;
         data <- lookupEbayData w req ;;
         d <- tierMini w c (tierRule c u req data) ;;
         t3 <- tierLarge unavailable w d ;;
         match t3 with
         | inr resp => ret resp
         | inl d' =>
             trackUsage w d' ;;;
             ret (Success (interp (reply d')) (c_intent c) (c_risk c)
                          (route d') (Some (negb (isNull data))))
         end
     end)
    (emit ConsoleError ;;;
     ret (Failure 500 (lit "Failed to generate reply."))).

End Ebay.

(** *** backend/agents/writerAgent.js
    [if (riskLevel === 'high') return callAnthropic(...);
     try { return await callOpenAI(...) } catch { return callAnthropic(...) }] *)
Definition writerAgent (w : world) (riskLevel : risk) : M generation :=
  if risk_eqb riskLevel high then await CallAnthropic (anthropic w)
  else tryCatch (await CallOpenAI (openai w))
                (await CallAnthropic (anthropic w)).

End Routes.

(* ================================================================== *)
(** ** The two generate handlers, side by side *)
(* ================================================================== *)

Module Handlers.
Import Js Regex Classifier Agents Effects Routes.
Local Open Scope N_scope.

Inductive handler : Type := InlineHandler | EbayHandler.

Definition generateOf (h : handler) : world -> user -> request -> M response :=
  match h with
  | InlineHandler => Inline.generate
  | EbayHandler => Ebay.generate
  end.

Definition classifyOf (h : handler) : jsstring -> classification :=
  match h with
  | InlineHandler => classifyIntent_inline
  | EbayHandler => classifyIntent_ebay
  end.

(** The rule template of a handler for a user. *)
Definition templateOf (h : handler) (i : intent) (u : user) : option jsstring :=
  match h with
  | InlineHandler =>
      Inline.getRuleBasedReply i
        (firstTruthy (u_signature_name u) (u_name u)) (u_business_name u)
  | EbayHandler =>
      Ebay.getRuleReply i
        (firstTruthy (u_signature_name u) (u_name u)) (u_business_name u)
  end.

(** The response and the trace of a request. *)
Definition responseOf (h : handler) (w : world) (u : user) (req : request)
  : outcome response := fst (run (generateOf h w u req)).

Definition traceOf (h : handler) (w : world) (u : user) (req : request)
  : list event := snd (run (generateOf h w u req)).

(** What the rule tier leaves in the locals. *)
Definition ruleDraft (name text : jsstring) : draft :=
  {| reply := Some text; model := Some name; tokens := Some 0;
     cost := Some 0; route := Some rule |}.

Section Invariants.
Variable h : handler.
Variable w : world.
Variable u : user.
Variable c : classification.

(** The tier a reply text comes from, as recorded in [route]. *)
Definition fromTier (rt : option routeName) (r : jsstring) : Prop :=
  (rt = Some rule /\ templateOf h (c_intent c) u = Some r)
  \/ (rt = Some mini /\ exists g, openai w = Resolved g /\ r = g_reply g)
  \/ (rt = Some large /\ exists g, anthropic w = Resolved g /\ r = g_reply g).

(** [G] is what is known when the rule tier was taken. *)
Variable G : Prop.

(** The invariant of the locals between the tiers. *)
Definition inv (d : draft) : Prop :=
  (forall r, reply d = Some r -> fromTier (route d) r)
  /\ (route d = Some rule -> G)
  /\ (c_risk c = high -> route d = Some rule \/ route d = Some mini -> False).

Definition invLarge (x : draft + response) : Prop :=
  match x with
  | inl d => inv d
  | inr resp => exists s e, resp = Failure s e
  end.

(** What a success response says, given the invariant of the draft. *)
Definition goodResponse (used0 : option bool) (resp : response) : Prop :=
  forall r i rk rt used,
    resp = Success r i rk rt used ->
    used = used0 /\ i = c_intent c /\ rk = c_risk c /\ fromTier rt r
    /\ (rt = Some rule -> G)
    /\ (c_risk c = high -> rt = Some large).

End Invariants.

(** What the rule tier requires, per handler; [used] is the
    [ebay_data_used] flag of the response. *)
Definition ruleCondition (h : handler) (c : classification) (req : request)
           (used : option bool) : Prop :=
  80 <= confidence c /\ c_risk c = low
  /\ truthy (modify_instructions req) = false
  /\ match h with
     | InlineHandler => True
     | EbayHandler => used = Some false
     end.

(** What a success response of a handler implies. *)
Definition successFacts (h : handler) (w : world) (u : user) (req : request)
           (resp : response) : Prop :=
  forall r i rk rt used,
    resp = Success r i rk rt used ->
    exists msg,
      validMessage (customer_message req) = Some msg
      /\ i = c_intent (classifyOf h msg)
      /\ rk = c_risk (classifyOf h msg)
      /\ fromTier h w u (classifyOf h msg) rt r
      /\ (rt = Some rule -> ruleCondition h (classifyOf h msg) req used)
      /\ (c_risk (classifyOf h msg) = high -> rt = Some large).

(** The high-cost tier left a defined reply in the locals. *)
Definition drafted (x : draft + response) : Prop :=
  exists d r, x = inl d /\ reply d = Some r.

(** A response that carries a reply. *)
Definition isSuccess (resp : response) : Prop :=
  exists r i rk rt used, resp = Success r i rk rt used.

End Handlers.

(* ================================================================== *)
(** ** Reference definitions that follow the wording of the specification *)
(* ================================================================== *)

Module Spec.
Import Js Regex Classifier.
Local Open Scope N_scope.

(** "For each intent, the match score is the count of patterns that
    test positive." *)
Definition matchScore (msg : jsstring) (regexes : list regex) : N :=
  N.of_nat (length (filter (fun r => test true r msg) regexes)).

Definition scores (table : list entry) (msg : jsstring) : list (intent * N) :=
  map (fun e => (fst e, matchScore msg (snd e))) table.

Definition maxScore (l : list (intent * N)) : N :=
  fold_right (fun e m => N.max (snd e) m) 0 l.

(** "The intent with the strictly highest score wins; on a tie, the
    intent that appears earliest in the fixed table order wins"; the
    default intent when no pattern matches. *)
Definition winner (l : list (intent * N)) : intent * N :=
  let m := maxScore l in
  if m =? 0 then (general, 0)
  else match find (fun e => snd e =? m) l with
       | Some e => e
       | None => (general, 0)
       end.

(** The fixed membership mapping of the risk tiers. *)
Definition riskOf (i : intent) : risk :=
  match i with
  | legal_threat | fraud_claim | off_platform => high
  | return_ | refund | damaged_item | cancellation => medium
  | _ => low
  end.

Definition classify (lower : jsstring -> jsstring) (table : list entry)
           (text : jsstring) : classification :=
  let w := winner (scores table (lower text)) in
  {| c_intent := fst w;
     confidence := N.min (snd w * 30 + 20) 95;
     c_risk := riskOf (fst w) |}.

Definition default : classification :=
  {| c_intent := general; confidence := 20; c_risk := low |}.

(** The entry kept by a scan that starts from the running best [acc]:
    [acc] itself unless some score is strictly higher. *)
Definition pick (acc : intent * N) (l : list (intent * N)) : intent * N :=
  let m := maxScore l in
  if m <=? snd acc then acc
  else match find (fun e => snd e =? m) l with
       | Some e => e
       | None => (general, 0)
       end.

End Spec.

(* ================================================================== *)
(** ** Concrete requests and worlds *)
(* ================================================================== *)

Module Samples.
Import Js Regex Classifier Agents Effects Routes Handlers.
Local Open Scope string_scope.
Local Open Scope N_scope.

(** The message of end-to-end scenario B and the inline table split at
    its [legal_threat] entry. *)
Definition lawyerFraudMessage : jsstring :=
  lit "I'm contacting my lawyer, this is fraud!".

Definition entriesBefore : list entry := firstn 9 patterns_inline.

Definition legalEntry : entry := nth 9 patterns_inline (general, []).

Definition entriesAfter : list entry := skipn 10 patterns_inline.

Definition seller : user :=
  {| u_name := Some (lit "Bob"); u_business_name := Some (lit "Bob's Shop");
     u_signature_name := None; u_reply_tone := None |}.

Definition messageOnly (text : string) : request :=
  {| customer_message := Text (lit text); modify_instructions := None;
     buyer_name := None; order_id := None |}.

Definition plainRequest : request := messageOnly "Hello, do you have it in blue?".
Definition trackingRequest : request :=
  messageOnly "Where is my order? please track it".
Definition thanksRequest : request := messageOnly "Thanks so much, love it!".
Definition lawyerRequest : request := messageOnly "I will contact my lawyer".

Definition definitelyText : jsstring := lit "We will definitely help.".
Definition calmText : jsstring := lit "Thank you for reaching out.".

Definition miniReply : generation :=
  {| g_reply := definitelyText; g_model := lit "gpt-4o-mini";
     g_tokens := 120; g_cost := 30 |}.

Definition largeReply : generation :=
  {| g_reply := calmText; g_model := lit "claude-haiku-4-5-20241022";
     g_tokens := 140; g_cost := 200 |}.

(** Every awaited call resolves. *)
Definition calmWorld : world :=
  {| toneSamples := Resolved tt; ebayLookup := Resolved None;
     openai := Resolved miniReply; anthropic := Resolved largeReply;
     usageSelect := Resolved None; usageWrite := Resolved tt;
     replyLogInsert := Resolved tt; lastActiveUpdate := Resolved tt |}.

(** The select on the [usage] table rejects. *)
Definition usageDownWorld : world :=
  {| toneSamples := Resolved tt; ebayLookup := Resolved None;
     openai := Resolved miniReply; anthropic := Resolved largeReply;
     usageSelect := Rejected; usageWrite := Resolved tt;
     replyLogInsert := Resolved tt; lastActiveUpdate := Resolved tt |}.

(** The insert into [reply_log] rejects. *)
Definition logDownWorld : world :=
  {| toneSamples := Resolved tt; ebayLookup := Resolved None;
     openai := Resolved miniReply; anthropic := Resolved largeReply;
     usageSelect := Resolved None; usageWrite := Resolved tt;
     replyLogInsert := Rejected; lastActiveUpdate := Resolved tt |}.

(** The reply text of a success response, the empty text otherwise. *)
Definition replyText (o : outcome response) : jsstring :=
  match o with
  | Resolved (Success r _ _ _ _) => r
  | _ => []
  end.

Definition thanksReply : jsstring :=
  Eval vm_compute in replyText (responseOf InlineHandler calmWorld seller thanksRequest).

Definition trackingReplyInline : jsstring :=
  Eval vm_compute in
    replyText (responseOf InlineHandler calmWorld seller trackingRequest).

Definition thanksReplyEbay : jsstring :=
  Eval vm_compute in replyText (responseOf EbayHandler calmWorld seller thanksRequest).

Definition trackingReplyEbay : jsstring :=
  Eval vm_compute in
    replyText (responseOf EbayHandler calmWorld seller trackingRequest).

Definition orderMessage : jsstring :=
  lit "Where is my order 12-34567-89012? please track it".

Definition noIdMessage : jsstring := lit "Where is my order? please track it".

Definition linkedToken : outcome (option jsstring) := Resolved (Some (lit "token")).

Definition upstreamDown : jsstring -> jsstring -> outcome fetchResult :=
  fun _ _ => Resolved FetchFailed.

(** The result of the data-fetch agent when the upstream fetch fails. *)
Definition upstreamFailure : dataFetchResult :=
  {| d_ok := false;
     d_fetched := {| f_order := None; f_tracking := None;
                     f_error := Some FetchFailed |};
     d_missing := [] |}.

Definition orderIdMissing : dataFetchResult :=
  {| d_ok := false; d_fetched := noneFetched; d_missing := [key_order_id] |}.

(** An order object of the upstream API without an order id. *)
Definition orderWithoutId : ebayOrder :=
  {| eo_orderId := None;
     eo_orderFulfillmentStatus := None;
     eo_orderPaymentStatus := None;
     eo_creationDate := None;
     eo_buyerUsername := None;
     eo_shipToFullName := None;
     eo_lineItems := None |}.

Definition upstreamWithoutId : jsstring -> jsstring -> outcome fetchResult :=
  fun _ _ => Resolved (FetchOk orderWithoutId None).

Definition orderFactsWithoutId : orderFacts :=
  {| o_orderId := None; o_status := None; o_paymentStatus := None;
     o_created := None; o_buyerUsername := []; o_shipToName := [];
     o_items := Some [] |}.

(** What the data-fetch agent returns for that order object. *)
Definition fetchedWithoutId : dataFetchResult :=
  {| d_ok := true;
     d_fetched := {| f_order := Some orderFactsWithoutId; f_tracking := Some [];
                     f_error := None |};
     d_missing := [] |}.

Definition needsOrder : needs := {| n_order := true; n_tracking := true |}.

Definition shippedOrder : orderFacts :=
  {| o_orderId := Some (lit "12-34567-89012");
     o_status := Some (lit "FULFILLED");
     o_paymentStatus := Some (lit "PAID");
     o_created := None;
     o_buyerUsername := lit "buyer1";
     o_shipToName := [];
     o_items := Some [ {| i_title := Some (lit "Blue mug");
                          i_qty := Some {| numberText := lit "2" |};
                          i_itemId := None |} ] |}.

Definition shippedFetch : dataFetchResult :=
  {| d_ok := true;
     d_fetched := {| f_order := Some shippedOrder;
                     f_tracking := Some [ {| t_carrier := Some (lit "UPS");
                                             t_trackingNumber := None |} ];
                     f_error := None |};
     d_missing := [] |}.

End Samples.

(* ================================================================== *)
(** ** The license middleware of the reply routes *)
(* ================================================================== *)

Module License.
Import Js.
Local Open Scope string_scope.
Local Open Scope N_scope.

Definition strEq (a b : jsstring) : bool :=
  if list_eq_dec N.eq_dec a b then true else false.

(** [x === 'text'] on a column that may be null. *)
Definition isText (x : option jsstring) (text : string) : bool :=
  match x with
  | Some v => strEq v (lit text)
  | None => false
  end.

(** A timestamp column: null, or a text together with the time value of
    [new Date(text)] ([None] for an invalid date). *)
Inductive dateField : Type :=
| DateNull
| DateText (text : jsstring) (time : option N).

(** The time value of [new Date(field)]; [new Date(null)] is the epoch. *)
Definition timeOf (d : dateField) : option N :=
  match d with
  | DateNull => Some 0
  | DateText _ t => t
  end.

Definition dateTruthy (d : dateField) : bool :=
  match d with
  | DateText (_ :: _) _ => true
  | _ => false
  end.

(** [now > new Date(field)]; a comparison with an invalid date is false. *)
Definition isAfter (now : N) (d : dateField) : bool :=
  match timeOf d with
  | Some t => t <? now
  | None => false
  end.

Record licenseUser : Type := mkLicenseUser {
  plan : option jsstring;
  trial_end : dateField;
  subscription_status : option jsstring;
  subscription_end : dateField
}.

(** What the middleware does with the request: [next()] with the user
    attached, or a JSON error. *)
Inductive decision : Type :=
| Next (u : licenseUser)
| Deny (status : N) (error : jsstring) (message : option jsstring).

(** [requireLicense] of the route file that uses eBay order data.
    [lookup] is the row of [users] with that license key, if any; [now]
    is the time value of [new Date()]. *)
Definition requireLicense_ebay (key : option jsstring)
           (lookup : jsstring -> option licenseUser) (now : N) : decision :=
  match key with
  | Some (c :: k) =>
      match lookup (c :: k) with
      | None => Deny 401 (lit "Invalid license key") None
      | Some user =>
          if isText (plan user) "owner" then Next user
          else if isText (plan user) "trial" && isAfter now (trial_end user)
          then Deny 403 (lit "trial_expired")
                    (Some (lit "Your 14-day trial has ended."))
          else if isText (plan user) "expired"
          then Deny 403 (lit "trial_expired") (Some (lit "Your trial has ended."))
          else if negb (isText (plan user) "trial")
                  && isText (subscription_status user) "canceled"
                  && dateTruthy (subscription_end user)
                  && isAfter now (subscription_end user)
          then Deny 403 (lit "subscription_ended") None
          else Next user
      end
  | _ => Deny 401 (lit "No license key") None
  end.

(** [requireLicense] of the route file with all logic inline. *)
Definition requireLicense_inline (key : option jsstring)
           (lookup : jsstring -> option licenseUser) (now : N) : decision :=
  match key with
  | Some (c :: k) =>
      match lookup (c :: k) with
      | None => Deny 401 (lit "Invalid license key") None
      | Some user =>
          if isText (plan user) "owner" then Next user
          else if isText (plan user) "trial" && isAfter now (trial_end user)
          then Deny 403 (lit "trial_expired")
                    (Some (lit "Your 14-day trial has ended. Please upgrade to continue."))
          else if isText (plan user) "expired"
          then Deny 403 (lit "trial_expired")
                    (Some (lit "Your trial has ended. Please upgrade to continue."))
          else if negb (isText (plan user) "trial")
                  && isText (subscription_status user) "canceled"
          then
            if dateTruthy (subscription_end user)
               && isAfter now (subscription_end user)
            then Deny 403 (lit "subscription_ended")
                      (Some (lit "Your subscription has ended."))
            else Next user
          else Next user
      end
  | _ => Deny 401 (lit "No license key") None
  end.

(** The status and the error code of a decision, without the message. *)
Definition verdict (d : decision) : option (N * jsstring) :=
  match d with
  | Next _ => None
  | Deny s e _ => Some (s, e)
  end.

Definition fst_status (d : decision) : option N :=
  match verdict d with
  | Some (s, _) => Some s
  | None => None
  end.

Definition passes (d : decision) : bool :=
  match d with
  | Next _ => true
  | Deny _ _ _ => false
  end.

End License.

(* ================================================================== *)
(** ** The risk and profit-protection agents *)
(* ================================================================== *)

Module ConstraintAgents.
Import Js Regex Classifier Agents.
Local Open Scope string_scope.
Local Open Scope N_scope.
Local Open Scope list_scope.

(** *** backend/agents/riskAgent.js *)

Definition baseline : list jsstring :=
  [ lit "Never suggest off-eBay communication";
    lit "Never invent tracking/order details";
    lit "Do not admit fault or liability" ].

Definition deescalation : list jsstring :=
  [ lit "Stay calm and factual; do not escalate";
    lit "If needed, suggest eBay Resolution Center" ].

Definition noAccusation : jsstring :=
  lit "Avoid accusing the buyer; offer a resolution path".

Record riskResult : Type := mkRiskResult {
  ra_risk : risk;
  ra_constraints : list jsstring
}.

Definition riskAgent (i : intent) (r : risk) : riskResult :=
  {| ra_risk := r;
     ra_constraints :=
       baseline
       ++ (if risk_eqb r high then deescalation else [])
       ++ (if intent_eqb i fraud_claim then [noAccusation] else []) |}.

(** *** backend/agents/profitProtectionAgent.js *)

(** [/SHIPPED|FULFILLED/i] *)
Definition shippedPattern : regex := oneOf ["SHIPPED"; "FULFILLED"].

Definition confirmShipment : list jsstring :=
  [ lit "Confirm shipment and provide carrier + tracking if present";
    lit "Set expectations on delivery window" ].

Definition checkingShipment : jsstring :=
  lit "State we are checking shipment status; avoid promising dates".

Definition refundGuidance : list jsstring :=
  [ lit "Do not promise refund until return process is followed";
    lit "Refer to return policy / official eBay return flow" ].

Definition alreadyDispatched : jsstring :=
  lit "Explain order may already be dispatched; offer return options".

Definition confirmCancellation : jsstring :=
  lit "If not shipped, confirm cancellation steps".

(** [tracking.some(t => t.trackingNumber)] *)
Definition hasTracking (fetchedData : option fetched) : bool :=
  existsb (fun t => truthy (t_trackingNumber t))
          (match fetchedData with
           | Some f => match f_tracking f with Some l => l | None => [] end
           | None => []
           end).

(** [fetched?.order?.status || ''] *)
Definition orderStatus (fetchedData : option fetched) : jsstring :=
  match fetchedData with
  | Some f => match f_order f with
              | Some o => orElse (o_status o) []
              | None => []
              end
  | None => []
  end.

Definition profitProtectionAgent (i : intent) (fetchedData : option fetched)
  : list jsstring :=
  (if intent_eqb i tracking then
     if hasTracking fetchedData then confirmShipment else [checkingShipment]
   else [])
  ++ (if intent_eqb i refund || intent_eqb i return_ then refundGuidance else [])
  ++ (if intent_eqb i cancellation then
        if truthy (Some (orderStatus fetchedData))
           && test true shippedPattern (orderStatus fetchedData)
        then [alreadyDispatched] else [confirmCancellation]
      else []).

End ConstraintAgents.

(* ================================================================== *)
(** ** backend/lib/ebayClient.js: the order and tracking fetch *)
(* ================================================================== *)

Module EbayClient.
Import Js Agents.

Record httpResponse (A : Type) : Type := mkHttpResponse {
  http_ok : bool;          (* res.ok *)
  http_json : A            (* await res.json() *)
}.

Record fulfillment : Type := mkFulfillment {
  shippingCarrierCode : option jsstring;
  trackingNumber : option jsstring
}.

(** [carrier: f.shippingCarrierCode || '', trackingNumber: f.trackingNumber || ''];
    the entry also carries [shippedDate] and [deliveryStatus], which no
    agent reads. *)
Definition toTracking (f : fulfillment) : trackingEntry :=
  {| t_carrier := Some (orElse (shippingCarrierCode f) []);
     t_trackingNumber := Some (orElse (trackingNumber f) []) |}.

(** [fetchOrderAndTracking]: [orderRes] and [trackRes] are the outcomes of
    the two HTTP calls, each with its parsed body (a body that does not
    parse rejects the call).  The tracking call sits in a [try] with an
    empty [catch]. *)
Definition fetchOrderAndTracking
           (orderRes : outcome (httpResponse ebayOrder))
           (trackRes : outcome (httpResponse (option (list fulfillment))))
  : outcome fetchResult :=
  match orderRes with
  | Rejected => Rejected
  | Resolved o =>
      if negb (http_ok o) then Resolved FetchFailed
      else
        let trackingList :=
          match trackRes with
          | Resolved f =>
              if http_ok f
              then map toTracking
                       (match http_json f with Some l => l | None => [] end)
              else []
          | Rejected => []
          end in
        Resolved (FetchOk (http_json o) (Some trackingList))
  end.

(** *** getEbayToken *)

(** The primary row of [ebay_accounts] of a user. *)
Record ebayAccount : Type := mkEbayAccount {
  ebay_token : option jsstring;
  ebay_refresh_token : option jsstring;
  token_expires_at : License.dateField
}.

(** The body of the answer of the token endpoint. *)
Record tokenData : Type := mkTokenData {
  access_token : option jsstring;
  expires_in : option N;
  refresh_token : option jsstring
}.

(** The columns written back after a refresh; the expiry as a time
    value in milliseconds. *)
Record tokenUpdate : Type := mkTokenUpdate {
  up_ebay_token : jsstring;
  up_token_expires_at : N;
  up_ebay_refresh_token : jsstring
}.

Inductive tokenEvent : Type :=
| SelectAccount
| RefreshToken (refresh_token : jsstring)
| UpdateAccount (columns : tokenUpdate).

(** The largest time value of a [Date]; [toISOString] throws beyond it
    and on [NaN]. *)
Definition maxTime : N := 8640000000000000.

(** [new Date(Date.now() + tokenData.expires_in * 1000).toISOString()]:
    [None] when it throws. *)
Definition newExpiry (now : N) (expiresIn : option N) : option N :=
  match expiresIn with
  | Some e => if (now + e * 1000 <=? maxTime)%N then Some (now + e * 1000)%N
              else None
  | None => None
  end.

(** [account.token_expires_at && new Date() > new Date(account.token_expires_at)] *)
Definition expired (now : N) (account : ebayAccount) : bool :=
  License.dateTruthy (token_expires_at account)
  && License.isAfter now (token_expires_at account).

(** [getEbayToken]: [select] is the outcome of the select on
    [ebay_accounts], [now] the time of the call, [refresh] the outcome of
    the call to the token endpoint with its parsed body, [update] the
    outcome of the update of the account row.  The result comes with the
    calls issued, in order. *)
Definition getEbayToken (select : outcome (option ebayAccount)) (now : N)
           (refresh : outcome tokenData) (update : outcome unit)
  : outcome (option jsstring) * list tokenEvent :=
  match select with
  | Rejected => (Rejected, [SelectAccount])
  | Resolved None => (Resolved None, [SelectAccount])
  | Resolved (Some account) =>
      if expired now account then
        match ebay_refresh_token account with
        | Some (c :: r) =>
            match refresh with
            | Rejected => (Rejected, [SelectAccount; RefreshToken (c :: r)])
            | Resolved data =>
                match access_token data with
                | Some (a :: t) =>
                    match newExpiry now (expires_in data) with
                    | None =>
                        (Rejected, [SelectAccount; RefreshToken (c :: r)])
                    | Some expiry =>
                        let columns :=
                          {| up_ebay_token := a :: t;
                             up_token_expires_at := expiry;
                             up_ebay_refresh_token :=
                               orElse (refresh_token data) (c :: r) |} in
                        (match update with
                         | Resolved _ => Resolved (Some (a :: t))
                         | Rejected => Rejected
                         end,
                         [SelectAccount; RefreshToken (c :: r);
                          UpdateAccount columns])
                    end
                | _ => (Resolved None, [SelectAccount; RefreshToken (c :: r)])
                end
            end
        | _ => (Resolved None, [SelectAccount])
        end
      else (Resolved (ebay_token account), [SelectAccount])
  end.

End EbayClient.

(* ================================================================== *)
(** ** The shape of an order id *)
(* ================================================================== *)

Module OrderIds.
Import Js.
Local Open Scope N_scope.

(** Two digits, a hyphen, five digits, a hyphen, five digits. *)
Definition shapedLikeOrderId (m : jsstring) : bool :=
  match m with
  | [d1; d2; h1; d3; d4; d5; d6; d7; h2; d8; d9; d10; d11; d12] =>
      forallb isDigit [d1; d2; d3; d4; d5; d6; d7; d8; d9; d10; d11; d12]
      && (h1 =? 45) && (h2 =? 45)
  | _ => false
  end.

End OrderIds.

(* ================================================================== *)
(** ** Traces of the handlers: order of calls and postconditions *)
(* ================================================================== *)

From Stdlib Require Import Sorted.

Module TraceLogic.
Import Js Classifier Agents Effects Routes Handlers.
Local Open Scope N_scope.

(** The place of an external call in the pipeline; [console.error] has
    none. *)
Definition stage (e : event) : option nat :=
  match e with
  | SelectToneSamples => Some 0%nat
  | LookupEbayData => Some 1%nat
  | CallOpenAI => Some 2%nat
  | CallAnthropic => Some 3%nat
  | SelectUsage => Some 4%nat
  | UpdateUsage _ | InsertUsage _ => Some 5%nat
  | InsertReplyLog _ => Some 6%nat
  | UpdateLastActive => Some 7%nat
  | ConsoleError => None
  end.

Fixpoint stages (t : list event) : list nat :=
  match t with
  | [] => []
  | e :: r => match stage e with
              | Some s => s :: stages r
              | None => stages r
              end
  end.

(** The calls of a trace are in pipeline order, each stage at most once,
    and all below [n]. *)
Definition below (n : nat) (t : list event) : Prop :=
  StronglySorted lt (stages t) /\ Forall (fun s => (s < n)%nat) (stages t).

Definition advances {A} (m : M A) (lo hi : nat) : Prop :=
  forall t, below lo t -> below hi (snd (m t)).

(** A computation only appends to the trace. *)
Definition appends {A} (m : M A) : Prop :=
  forall t, exists ext, snd (m t) = t ++ ext.

(** A postcondition on the resolved value and on the events added. *)
Definition postT {A} (m : M A) (Q : A -> list event -> Prop) : Prop :=
  forall t a t',
    m t = (Resolved a, t') -> exists ext, t' = t ++ ext /\ Q a ext.

Definition isBackend (e : event) : bool := isOpenAI e || isAnthropic e.

Definition isAccounting (e : event) : bool :=
  match e with
  | SelectUsage | UpdateUsage _ | InsertUsage _ | InsertReplyLog _
  | UpdateLastActive => true
  | _ => false
  end.

(** The write on the [usage] table that follows the select: an update of
    today's row when there is one, an insert otherwise. *)
Definition usageEventOf (w : world) (d : draft) : option event :=
  match usageSelect w with
  | Resolved (Some ex) => Some (UpdateUsage (updatedRow ex d))
  | Resolved None => Some (InsertUsage (insertedRow d))
  | Rejected => None
  end.

Definition accountingEvents (ue : event) (r : jsstring) : list event :=
  [SelectUsage; ue; InsertReplyLog (firstn 2000 r); UpdateLastActive].

(** The three accounting calls that follow the usage select resolved. *)
Definition accountingResolved (w : world) : Prop :=
  usageWrite w = Resolved tt /\ replyLogInsert w = Resolved tt
  /\ lastActiveUpdate w = Resolved tt.

(** The [model] recorded for the rule tier. *)
Definition ruleModel (h : handler) : jsstring :=
  match h with
  | InlineHandler => lit "rule-based"
  | EbayHandler => lit "rule"
  end.

(** The events of the order lookup: none in the inline handler; in the
    eBay-aware handler none, the lookup, or the lookup and its logged
    failure. *)
Definition lookupEvents (h : handler) (l : list event) : Prop :=
  match h with
  | InlineHandler => l = []
  | EbayHandler =>
      l = [] \/ l = [LookupEbayData] \/ l = [LookupEbayData; ConsoleError]
  end.

(** The locals and the backend events behind a reply [r] of route [rt]. *)
Definition draftedBy (h : handler) (w : world) (u : user) (c : classification)
           (rt : option routeName) (r : jsstring) (d : draft)
           (calls : list event) : Prop :=
  (rt = Some rule /\ calls = []
   /\ templateOf h (c_intent c) u = Some r /\ d = ruleDraft (ruleModel h) r)
  \/ (rt = Some mini /\ calls = [CallOpenAI] /\ c_risk c <> high
      /\ exists g, openai w = Resolved g /\ d = ofGeneration g mini
                   /\ r = g_reply g /\ r <> [])
  \/ (rt = Some large
      /\ ((calls = [CallAnthropic] /\ c_risk c = high)
          \/ (calls = [CallOpenAI; CallAnthropic] /\ c_risk c <> high
              /\ exists g1, openai w = Resolved g1 /\ g_reply g1 = [])
          \/ (calls = [CallOpenAI; ConsoleError; CallAnthropic]
              /\ c_risk c <> high /\ openai w = Rejected))
      /\ exists g, anthropic w = Resolved g /\ d = ofGeneration g large
                   /\ r = g_reply g).

(** The whole trace of a request answered with reply [r] and route [rt]. *)
Definition successTrace (h : handler) (w : world) (u : user)
           (c : classification) (rt : option routeName) (r : jsstring)
           (ext : list event) : Prop :=
  exists lookup calls d ue,
    ext = SelectToneSamples :: lookup ++ calls ++ accountingEvents ue r
    /\ lookupEvents h lookup
    /\ draftedBy h w u c rt r d calls
    /\ usageEventOf w d = Some ue
    /\ accountingResolved w.

(** What came before the call to the high-cost backend when the rule
    tier left no draft: nothing for a high risk, else the call to the
    low-cost backend, which returned an empty reply or rejected. *)
Definition lowCostAttempt (w : world) (c : classification)
           (calls : list event) : Prop :=
  (calls = [] /\ c_risk c = high)
  \/ (calls = [CallOpenAI] /\ c_risk c <> high
      /\ exists g1, openai w = Resolved g1 /\ g_reply g1 = [])
  \/ (calls = [CallOpenAI; ConsoleError] /\ c_risk c <> high
      /\ openai w = Rejected).

(** The trace of a request answered "AI service unavailable". *)
Definition unavailableTrace (h : handler) (w : world) (c : classification)
           (ext : list event) : Prop :=
  exists lookup calls,
    ext = SelectToneSamples :: lookup ++ calls ++ [CallAnthropic; ConsoleError]
    /\ lookupEvents h lookup
    /\ anthropic w = Rejected
    /\ lowCostAttempt w c calls.

Definition unavailableOf (h : handler) : jsstring :=
  match h with
  | InlineHandler => Inline.unavailable
  | EbayHandler => Ebay.unavailable
  end.

(** The answer of the outer [catch] of a handler. *)
Definition failedOf (h : handler) : jsstring :=
  match h with
  | InlineHandler => lit "Failed to generate reply. Please try again."
  | EbayHandler => lit "Failed to generate reply."
  end.

Definition messageRequired : jsstring := lit "Customer message is required".

(** One of the awaited database calls of a request rejected. *)
Definition databaseRejected (w : world) : Prop :=
  toneSamples w = Rejected \/ usageSelect w = Rejected
  \/ usageWrite w = Rejected \/ replyLogInsert w = Rejected
  \/ lastActiveUpdate w = Rejected.

(** What is known when a computation rejects. *)
Definition rejects {A} (m : M A) (R : Prop) : Prop :=
  forall t t', m t = (Rejected, t') -> R.

(** What makes the body of a handler throw, so that the outer [catch]
    answers: a message that is truthy and not a string, or an awaited
    database call that rejected. *)
Definition bodyThrows (w : world) (req : request) : Prop :=
  customer_message req = Other \/ databaseRejected w.

(** The four answers of a generate handler. *)
Definition answerKind (h : handler) (w : world) (req : request)
           (resp : response) : Prop :=
  isSuccess resp
  \/ resp = Failure 400 messageRequired
  \/ resp = Failure 500 (unavailableOf h)
  \/ (resp = Failure 500 (failedOf h) /\ bodyThrows w req).

(** What the response of a handler says about the events of the request. *)
Definition responseTrace (h : handler) (w : world) (u : user) (req : request)
           (resp : response) (ext : list event) : Prop :=
  (forall r i rk rt used,
      resp = Success r i rk rt used ->
      exists msg,
        validMessage (customer_message req) = Some msg
        /\ successTrace h w u (classifyOf h msg) rt r ext)
  /\ (forall e, resp = Failure 400 e ->
                 ext = [] /\ validMessage (customer_message req) = None
                 /\ customer_message req <> Other)
  /\ (resp = Failure 500 (unavailableOf h) ->
      exists msg,
        validMessage (customer_message req) = Some msg
        /\ unavailableTrace h w (classifyOf h msg) ext)
  /\ answerKind h w req resp.

(** The row the accounting starts from: today's row, or zeros. *)
Definition emptyRow : usageRow :=
  {| replies_count := 0; rule_count := 0; mini_count := 0; large_count := 0;
     tokens_used := 0; cost_usd := 0 |}.

Definition existingRow (w : world) : usageRow :=
  match usageSelect w with
  | Resolved (Some ex) => ex
  | _ => emptyRow
  end.

(** The write on the [usage] table that carries [row]. *)
Definition usageWriteOf (w : world) (row : usageRow) : event :=
  match usageSelect w with
  | Resolved (Some _) => UpdateUsage row
  | _ => InsertUsage row
  end.

(** The tokens of the backend behind a route. *)
Definition tokensSpent (w : world) (rt : option routeName) : N :=
  match rt with
  | Some mini =>
      match openai w with
      | Resolved g => g_tokens g
      | Rejected => 0
      end
  | Some large =>
      match anthropic w with
      | Resolved g => g_tokens g
      | Rejected => 0
      end
  | _ => 0
  end.

(** Every counted reply is counted under one route. *)
Definition balanced (row : usageRow) : Prop :=
  replies_count row = rule_count row + mini_count row + large_count row.

(** The intents the rule tier of a handler can answer. *)
Definition ruleIntents (h : handler) : list intent :=
  match h with
  | InlineHandler => [tracking; positive_feedback; shipping_inquiry; item_question]
  | EbayHandler => [tracking; positive_feedback; shipping_inquiry]
  end.

(** The counter increment of a route. *)
Definition bump (rt : option routeName) (x : routeName) : N :=
  match rt with
  | Some r => if routeName_eqb r x then 1 else 0
  | None => 0
  end.

End TraceLogic.

Module TraceSamples.
Import Js Classifier Agents Effects Routes Handlers Samples.
Local Open Scope string_scope.
Local Open Scope N_scope.

(** Both backends reject; every other call resolves. *)
Definition backendsDownWorld : world :=
  {| toneSamples := Resolved tt; ebayLookup := Resolved None;
     openai := Rejected; anthropic := Rejected;
     usageSelect := Resolved None; usageWrite := Resolved tt;
     replyLogInsert := Resolved tt; lastActiveUpdate := Resolved tt |}.

Definition todaysRow : usageRow :=
  {| replies_count := 7; rule_count := 3; mini_count := 3; large_count := 1;
     tokens_used := 900; cost_usd := 410 |}.

(** Today's usage row exists already. *)
Definition busyWorld : world :=
  {| toneSamples := Resolved tt; ebayLookup := Resolved None;
     openai := Resolved miniReply; anthropic := Resolved largeReply;
     usageSelect := Resolved (Some todaysRow); usageWrite := Resolved tt;
     replyLogInsert := Resolved tt; lastActiveUpdate := Resolved tt |}.

End TraceSamples.

(* ================================================================== *)
(** ** The modify handlers and the prompt of the writer agent *)
(* ================================================================== *)

Module Modify.
Import Js Agents Effects Routes.
Local Open Scope string_scope.
Local Open Scope N_scope.
Local Open Scope list_scope.
Local Open Scope effect_scope.

Record modifyRequest : Type := mkModifyRequest {
  original_reply : option jsstring;
  customer_message : option jsstring;
  instructions : option jsstring
}.

Inductive modifyResponse : Type :=
| Modified (reply : jsstring)
| ModifyFailure (status : N) (error : jsstring).

(** [if (!original_reply || !instructions)] *)
Definition fieldsMissing (req : modifyRequest) : bool :=
  negb (truthy (original_reply req)) || negb (truthy (instructions req)).

(** [try { result = await callOpenAI(..) } catch { result = await callAnthropic(..) }] *)
Definition eitherBackend (w : world) : M generation :=
  tryCatch (await CallOpenAI (openai w)) (await CallAnthropic (anthropic w)).

(** POST /reply/modify of the handler file that uses eBay order data:
    no [try] around the handler body. *)
Definition modify_ebay (w : world) (req : modifyRequest) : M modifyResponse :=
  if fieldsMissing req then ret (ModifyFailure 400 (lit "Missing fields"))
  else result <- eitherBackend w ;; ret (Modified (g_reply result)).

(** POST /reply/modify of the inline handler file. *)
Definition modify_inline (w : world) (req : modifyRequest) : M modifyResponse :=
  tryCatch
    (if fieldsMissing req then
       ret (ModifyFailure 400 (lit "Original reply and instructions are required"))
     else result <- eitherBackend w ;; ret (Modified (g_reply result)))
    (emit ConsoleError ;;;
     ret (ModifyFailure 500 (lit "Failed to modify reply. Please try again."))).

Definition modifyOf (h : Handlers.handler) : world -> modifyRequest -> M modifyResponse :=
  match h with
  | Handlers.InlineHandler => modify_inline
  | Handlers.EbayHandler => modify_ebay
  end.

(** The reply of a modify response. *)
Definition modifiedText (o : outcome modifyResponse) : option jsstring :=
  match o with
  | Resolved (Modified r) => Some r
  | _ => None
  end.

Definition statusOf (o : outcome modifyResponse) : option N :=
  match o with
  | Resolved (Modified _) => Some 200
  | Resolved (ModifyFailure s _) => Some s
  | Rejected => None
  end.

End Modify.

Module Writer.
Import Js Agents Effects Routes.
Local Open Scope string_scope.
Local Open Scope N_scope.
Local Open Scope list_scope.

Definition quote : jsstring := [34].

(** [threadMessages.slice(-10)] *)
Definition lastTen {A} (l : list A) : list A := skipn (length l - 10) l.

Section UserPrompt.
Variable toUpperCase : jsstring -> jsstring.

Definition threadLine (m : threadMessage) : jsstring :=
  toUpperCase (orElse (tm_role m) (lit "buyer")) ++ lit ": "
  ++ trim (orElse (tm_text m) []).

Definition threadText (threadMessages : option (list threadMessage)) : jsstring :=
  match threadMessages with
  | Some (m :: r) => join nl (map threadLine (lastTen (m :: r)))
  | _ => []
  end.

Definition userPrompt (latestBuyerMessage : option jsstring)
           (threadMessages : option (list threadMessage)) (r : reasoning)
  : jsstring :=
  concat
    [ lit "LATEST BUYER MESSAGE:"; nl; quote; interp latestBuyerMessage; quote;
      nl; nl; lit "THREAD (most recent last):"; nl;
      orElse (Some (threadText threadMessages)) (lit "(not provided)");
      nl; nl; lit "FACTS (from eBay API, if any):"; nl; lit "- ";
      orElse (Some (join (nl ++ lit "- ") (facts r))) (lit "(none)");
      nl; nl; lit "CONSTRAINTS:"; nl; lit "- ";
      join (nl ++ lit "- ") (constraints r);
      nl; nl; lit "IF INFO IS MISSING:"; nl;
      lit "- Ask 1 short clarifying question, do not guess."; nl; nl;
      lit "Now write the reply (under 150 words unless necessary). End with the seller signature." ].

End UserPrompt.

End Writer.

(* ================================================================== *)
(** ** db/supabase.js: what the awaited queries resolve with *)
(* ================================================================== *)

Module Supabase.
Import Js Classifier Agents Effects Routes Handlers.

(** The client is made by [createClient(url, key)], without
    [throwOnError]: an awaited query does not reject.  A query that
    fails resolves with [error] set and [data] null; [single()] on no
    row does so too. *)
Record result (A : Type) : Type := mkResult {
  data : option A;
  error : option jsstring
}.

(** The queries that a generate request awaits outside the order
    lookup, each with what it resolves with. *)
Record database : Type := mkDatabase {
  toneQuery : result unit;          (* select on tone_samples *)
  usageQuery : result usageRow;     (* select on usage, single() *)
  usageUpsert : result unit;        (* update or insert on usage *)
  replyLogQuery : result unit;      (* insert into reply_log *)
  lastActiveQuery : result unit     (* update on users *)
}.

(** The outcomes of the order lookup and of the two backends. *)
Record backends : Type := mkBackends {
  lookup : outcome (option ebayData);
  lowCost : outcome generation;
  highCost : outcome generation
}.

(** The world of a request served with this client: every query
    resolves, and the handlers read [data] of the usage select only. *)
Definition worldOf (db : database) (b : backends) : world :=
  {| toneSamples := Resolved tt;
     ebayLookup := lookup b;
     openai := lowCost b;
     anthropic := highCost b;
     usageSelect := Resolved (data (usageQuery db));
     usageWrite := Resolved tt;
     replyLogInsert := Resolved tt;
     lastActiveUpdate := Resolved tt |}.

(** Two computations resolve with the same value, or both reject,
    whatever the traces they start from. *)
Definition sameValue {A} (m m' : M A) : Prop :=
  forall t t', fst (m t) = fst (m' t').

(** What [ebayData] holds after the order lookup of the eBay-aware
    handler. *)
Definition lookedUp (b : backends) (req : request) : option ebayData :=
  if truthy (order_id req) || truthy (buyer_name req) then
    match lookup b with
    | Resolved d => d
    | Rejected => None
    end
  else None.

(** The locals after the rule tier of a handler. *)
Definition ruleTier (h : handler) (b : backends) (u : user) (req : request)
           (msg : jsstring) : draft :=
  match h with
  | InlineHandler => Inline.tierRule (classifyIntent_inline msg) u req
  | EbayHandler =>
      Ebay.tierRule (classifyIntent_ebay msg) u req (lookedUp b req)
  end.

(** A reply is drafted for the request: the rule tier leaves one, or the
    low-cost backend is reached and answers with a reply that is not
    empty, or the high-cost backend answers. *)
Definition replyDrafted (h : handler) (b : backends) (u : user)
           (req : request) (msg : jsstring) : Prop :=
  truthy (reply (ruleTier h b u req msg)) = true
  \/ (c_risk (classifyOf h msg) <> high
      /\ exists g, lowCost b = Resolved g /\ g_reply g <> [])
  \/ highCost b <> Rejected.

End Supabase.

Module ExtraSamples.
Import Js Classifier Agents Effects Routes Handlers Samples License.
Local Open Scope string_scope.
Local Open Scope N_scope.

(** A trial that ended at time 100. *)
Definition trialUser : licenseUser :=
  {| plan := Some (lit "trial");
     trial_end := DateText (lit "2024-01-01T00:00:00Z") (Some 100);
     subscription_status := None;
     subscription_end := DateNull |}.

Definition usersTable : jsstring -> option licenseUser :=
  fun _ => Some trialUser.

Definition trialKey : option jsstring := Some (lit "RM-TRIAL").

Definition sampleOrderId : jsstring := lit "12-34567-89012".

(** The tracking call of the upstream API rejects. *)
Definition trackingDown
  : outcome (EbayClient.httpResponse (option (list EbayClient.fulfillment))) :=
  Rejected.

Definition buyerLine : threadMessage :=
  {| tm_role := None; tm_text := Some (lit " where is it? ") |}.

Definition sellerLine : threadMessage :=
  {| tm_role := Some (lit "seller"); tm_text := Some (lit "On its way.") |}.

Definition recentThread : list threadMessage := repeat buyerLine 10.

Definition olderThread : list threadMessage := [sellerLine; buyerLine].

Definition emptyBundle : reasoning :=
  {| facts := []; questions := []; constraints := [] |}.

(** Upper-casing of the ASCII letters. *)
Definition asciiUpper (s : jsstring) : jsstring :=
  map (fun c => if between 97 122 c then c - 32 else c) s.

(** An account whose token expired at time 100. *)
Definition expiredAccount : EbayClient.ebayAccount :=
  {| EbayClient.ebay_token := Some (lit "old-token");
     EbayClient.ebay_refresh_token := Some (lit "refresh-1");
     EbayClient.token_expires_at :=
       DateText (lit "2024-01-01T00:00:00Z") (Some 100) |}.

(** The token endpoint answers without a new refresh token. *)
Definition refreshedToken : EbayClient.tokenData :=
  {| EbayClient.access_token := Some (lit "new-token");
     EbayClient.expires_in := Some 7200;
     EbayClient.refresh_token := None |}.

Definition storedColumns : EbayClient.tokenUpdate :=
  {| EbayClient.up_ebay_token := lit "new-token";
     EbayClient.up_token_expires_at := 7200150;
     EbayClient.up_ebay_refresh_token := lit "refresh-1" |}.

Definition noAccount : outcome (option EbayClient.ebayAccount) := Resolved None.

(** A seller who signs with the name of a payment service. *)
Definition paypalPete : user :=
  {| u_name := Some (lit "Pete"); u_business_name := None;
     u_signature_name := Some (lit "PayPal Pete"); u_reply_tone := None |}.

Definition peteReply : jsstring :=
  Eval vm_compute in
    replyText (responseOf InlineHandler calmWorld paypalPete thanksRequest).

Definition peteReplyEbay : jsstring :=
  Eval vm_compute in
    replyText (responseOf EbayHandler calmWorld paypalPete thanksRequest).

(** The high-cost backend drafts a promise. *)
Definition promiseWorld : world :=
  {| toneSamples := Resolved tt; ebayLookup := Resolved None;
     openai := Resolved miniReply;
     anthropic := Resolved {| g_reply := definitelyText;
                              g_model := lit "claude-haiku-4-5-20241022";
                              g_tokens := 140; g_cost := 200 |};
     usageSelect := Resolved None; usageWrite := Resolved tt;
     replyLogInsert := Resolved tt; lastActiveUpdate := Resolved tt |}.

(** The order call of the upstream API answers 200 with a body that has
    no [orderId]. *)
Definition orderCallWithoutId
  : outcome (EbayClient.httpResponse ebayOrder) :=
  Resolved {| EbayClient.http_ok := true;
              EbayClient.http_json := orderWithoutId |}.

(** The same call with a body whose [orderId] is the empty string. *)
Definition orderWithEmptyId : ebayOrder :=
  {| eo_orderId := Some [];
     eo_orderFulfillmentStatus := None;
     eo_orderPaymentStatus := None;
     eo_creationDate := None;
     eo_buyerUsername := None;
     eo_shipToFullName := None;
     eo_lineItems := None |}.

Definition orderCallEmptyId
  : outcome (EbayClient.httpResponse ebayOrder) :=
  Resolved {| EbayClient.http_ok := true;
              EbayClient.http_json := orderWithEmptyId |}.

Definition fetchedEmptyId : dataFetchResult :=
  {| d_ok := true;
     d_fetched :=
       {| f_order :=
            Some {| o_orderId := Some []; o_status := None;
                    o_paymentStatus := None; o_created := None;
                    o_buyerUsername := []; o_shipToName := [];
                    o_items := Some [] |};
          f_tracking := Some [];
          f_error := None |};
     d_missing := [] |}.

(** Every query fails: [error] is set and [data] is null. *)
Definition failingDatabase : Supabase.database :=
  {| Supabase.toneQuery :=
       {| Supabase.data := None; Supabase.error := Some (lit "timeout") |};
     Supabase.usageQuery :=
       {| Supabase.data := None; Supabase.error := Some (lit "timeout") |};
     Supabase.usageUpsert :=
       {| Supabase.data := None; Supabase.error := Some (lit "timeout") |};
     Supabase.replyLogQuery :=
       {| Supabase.data := None; Supabase.error := Some (lit "timeout") |};
     Supabase.lastActiveQuery :=
       {| Supabase.data := None; Supabase.error := Some (lit "timeout") |} |}.

(** Every query succeeds and today's usage row exists. *)
Definition healthyDatabase : Supabase.database :=
  {| Supabase.toneQuery := {| Supabase.data := Some tt; Supabase.error := None |};
     Supabase.usageQuery :=
       {| Supabase.data := Some TraceSamples.todaysRow; Supabase.error := None |};
     Supabase.usageUpsert :=
       {| Supabase.data := None; Supabase.error := None |};
     Supabase.replyLogQuery :=
       {| Supabase.data := None; Supabase.error := None |};
     Supabase.lastActiveQuery :=
       {| Supabase.data := None; Supabase.error := None |} |}.

Definition bothBackends : Supabase.backends :=
  {| Supabase.lookup := Resolved None;
     Supabase.lowCost := Resolved miniReply;
     Supabase.highCost := Resolved largeReply |}.

Definition noRefresh : outcome EbayClient.tokenData := Rejected.

End ExtraSamples.

(* ================================================================== *)
(** ** Properties of the pattern classifier *)
(* ================================================================== *)

Module ClassifierFacts.
Import Js Regex Classifier.
Local Open Scope N_scope.

Section Generic.
Variable lower : jsstring -> jsstring.
Variable table : list entry.

Lemma scoreOf_acc (msg : jsstring) (regexes : list regex) (a : N) :
  fold_left (fun score r => if test true r msg then score + 1 else score)
            regexes a
  = a + Spec.matchScore msg regexes.
Proof.
  unfold Spec.matchScore. revert a.
  induction regexes as [|r rs IH]; intros a; simpl.
  - lia.
  - destruct (test true r msg); rewrite IH; simpl length; lia.
Qed.

Lemma scoreOf_count (msg : jsstring) (regexes : list regex) :
  scoreOf msg regexes = Spec.matchScore msg regexes.
Proof. unfold scoreOf. rewrite scoreOf_acc. lia. Qed.

Lemma loop_pick (msg : jsstring) (l : list entry) (acc : intent * N) :
  fold_left (step msg) l acc = Spec.pick acc (Spec.scores l msg).
Proof.
  revert acc. induction l as [|e l IH]; intros acc.
  - unfold Spec.pick. simpl. destruct acc as [i b]. simpl.
    destruct (N.leb_spec 0 b); [reflexivity | lia].
  - simpl fold_left. rewrite IH. unfold step, Spec.pick.
    rewrite scoreOf_count. simpl Spec.scores. simpl Spec.maxScore.
    set (s := Spec.matchScore msg (snd e)).
    set (m' := Spec.maxScore (Spec.scores l msg)).
    simpl find. simpl snd at 1. fold s.
    destruct (N.ltb_spec (snd acc) s) as [Hlt | Hge].
    + simpl snd.
      destruct (N.leb_spec m' s) as [Hm | Hm].
      * replace (N.max s m') with s by lia.
        destruct (N.leb_spec s (snd acc)); [lia |].
        rewrite N.eqb_refl. reflexivity.
      * replace (N.max s m') with m' by lia.
        destruct (N.leb_spec m' (snd acc)); [lia |].
        destruct (N.eqb_spec s m'); [lia | reflexivity].
    + destruct (N.leb_spec m' (snd acc)) as [Hm | Hm].
      * destruct (N.leb_spec (N.max s m') (snd acc)); [reflexivity | lia].
      * replace (N.max s m') with m' by lia.
        destruct (N.leb_spec m' (snd acc)); [lia |].
        destruct (N.eqb_spec s m'); [lia | reflexivity].
Qed.

Lemma bestOf_winner (msg : jsstring) :
  bestOf table msg = Spec.winner (Spec.scores table msg).
Proof.
  unfold bestOf. rewrite loop_pick. unfold Spec.pick, Spec.winner. simpl snd.
  destruct (N.leb_spec (Spec.maxScore (Spec.scores table msg)) 0);
    destruct (N.eqb_spec (Spec.maxScore (Spec.scores table msg)) 0);
    try reflexivity; lia.
Qed.

Lemma risk_of_includes (i : intent) :
  (if includes [legal_threat; fraud_claim; off_platform] i then high
   else if includes [return_; refund; damaged_item; cancellation] i
        then medium else low)
  = Spec.riskOf i.
Proof. destruct i; reflexivity. Qed.

Lemma classifyIntent_spec (message : jsstring) :
  classifyIntent lower table message = Spec.classify lower table message.
Proof.
  unfold classifyIntent, Spec.classify.
  rewrite bestOf_winner.
  destruct (Spec.winner (Spec.scores table (lower message))) as [i b].
  cbn [fst snd]. rewrite risk_of_includes. reflexivity.
Qed.

Lemma confidence_bounds (message : jsstring) :
  20 <= confidence (classifyIntent lower table message) <= 95.
Proof.
  unfold classifyIntent.
  destruct (bestOf table (lower message)) as [i b]. simpl. lia.
Qed.

Lemma risk_is_riskOf (message : jsstring) :
  c_risk (classifyIntent lower table message)
  = Spec.riskOf (c_intent (classifyIntent lower table message)).
Proof. rewrite classifyIntent_spec. reflexivity. Qed.

End Generic.

Lemma maxScore_app (a b : list (intent * N)) :
  Spec.maxScore (a ++ b) = N.max (Spec.maxScore a) (Spec.maxScore b).
Proof.
  induction a as [| e a IH]; simpl.
  - lia.
  - rewrite IH. lia.
Qed.

Lemma maxScore_below (l : list (intent * N)) (m : N) :
  0 < m -> (forall e, In e l -> snd e < m) -> Spec.maxScore l < m.
Proof.
  intros Hm. induction l as [| e l IH]; simpl; intros H; [exact Hm |].
  assert (snd e < m) by (apply H; auto).
  assert (Spec.maxScore l < m) by (apply IH; intros; apply H; auto).
  lia.
Qed.

Lemma maxScore_bound (l : list (intent * N)) (m : N) :
  (forall e, In e l -> snd e <= m) -> Spec.maxScore l <= m.
Proof.
  induction l as [| e l IH]; simpl; intros H; [lia |].
  assert (snd e <= m) by (apply H; auto).
  assert (Spec.maxScore l <= m) by (apply IH; intros; apply H; auto).
  lia.
Qed.

Lemma find_skips (l rest : list (intent * N)) (m : N) :
  (forall e, In e l -> snd e < m) ->
  find (fun e => snd e =? m) (l ++ rest) = find (fun e => snd e =? m) rest.
Proof.
  induction l as [| e l IH]; simpl; intros H; [reflexivity |].
  assert (He : snd e < m) by (apply H; auto).
  destruct (N.eqb_spec (snd e) m); [lia |].
  apply IH. intros; apply H; auto.
Qed.

(** The winner is the earliest entry whose score no earlier entry reaches
    and no later entry exceeds. *)
Lemma winner_is_earliest_maximum (before after : list (intent * N))
      (e : intent * N) :
  0 < snd e ->
  (forall e', In e' before -> snd e' < snd e) ->
  (forall e', In e' after -> snd e' <= snd e) ->
  Spec.winner (before ++ e :: after) = e.
Proof.
  intros Hpos Hb Ha. unfold Spec.winner.
  assert (Hm : Spec.maxScore (before ++ e :: after) = snd e).
  { rewrite maxScore_app. simpl.
    pose proof (maxScore_below _ Hpos Hb).
    pose proof (maxScore_bound _ Ha). lia. }
  rewrite Hm.
  destruct (N.eqb_spec (snd e) 0); [lia |].
  rewrite find_skips by exact Hb.
  simpl. rewrite N.eqb_refl. reflexivity.
Qed.

Lemma riskOf_high (i : intent) :
  Spec.riskOf i = high <-> In i [legal_threat; fraud_claim; off_platform].
Proof.
  split.
  - destruct i; simpl; intros H; try discriminate H; auto.
  - simpl. intros [H | [H | [H | []]]]; subst i; reflexivity.
Qed.

Lemma riskOf_medium (i : intent) :
  Spec.riskOf i = medium
  <-> In i [return_; refund; damaged_item; cancellation].
Proof.
  split.
  - destruct i; simpl; intros H; try discriminate H; auto.
  - simpl. intros [H | [H | [H | [H | []]]]]; subst i; reflexivity.
Qed.

Lemma riskOf_low (i : intent) :
  Spec.riskOf i = low
  <-> ~ In i [legal_threat; fraud_claim; off_platform]
      /\ ~ In i [return_; refund; damaged_item; cancellation].
Proof.
  rewrite <- riskOf_high, <- riskOf_medium.
  destruct (Spec.riskOf i); split; intros H;
    try discriminate H; try reflexivity.
  - split; discriminate.
  - destruct H as [_ H]. now elim H.
  - destruct H as [H _]. now elim H.
Qed.

(** C6.  [classifyIntent] is a total function that computes exactly the
    specified algorithm, for every lowercasing function and every
    pattern table: the score of an intent is the number of its patterns
    that match the lowercased input; the strictly highest score wins, the
    earliest table entry winning a tie; when no pattern matches the result
    is general / 20 / low; and the confidence is min(score * 30 + 20, 95).
    The three tables of the repository return the default on the empty
    string. *)
Theorem classify_follows_fixed_algorithm :
  (forall lower table message,
      classifyIntent lower table message = Spec.classify lower table message)
  /\ (forall lower table message,
         Spec.maxScore (Spec.scores table (lower message)) = 0 ->
         classifyIntent lower table message = Spec.default)
  /\ (forall lower before e after message,
         let score := Spec.matchScore (lower message) in
         0 < score (snd e) ->
         (forall e', In e' before -> score (snd e') < score (snd e)) ->
         (forall e', In e' after -> score (snd e') <= score (snd e)) ->
         classifyIntent lower (before ++ e :: after) message
         = {| c_intent := fst e;
              confidence := N.min (score (snd e) * 30 + 20) 95;
              c_risk := Spec.riskOf (fst e) |})
  /\ (forall lower table message,
         confidence (classifyIntent lower table message)
         = N.min (snd (bestOf table (lower message)) * 30 + 20) 95)
  /\ classifyIntent_agent (Some []) = Spec.default
  /\ classifyIntent_agent None = Spec.default
  /\ classifyIntent_ebay [] = Spec.default
  /\ classifyIntent_inline [] = Spec.default.
Proof.
  split; [| split; [| split; [| split]]].
  - intros. apply classifyIntent_spec.
  - intros lower table message H. rewrite classifyIntent_spec.
    unfold Spec.classify, Spec.winner. rewrite H. reflexivity.
  - intros lower before e after message score Hpos Hb Ha.
    rewrite classifyIntent_spec. unfold Spec.classify, Spec.scores.
    rewrite map_app. cbn [map].
    rewrite winner_is_earliest_maximum; cbn [fst snd]; try assumption.
    + reflexivity.
    + intros e' He'. apply in_map_iff in He'.
      destruct He' as (x & <- & Hx). cbn [snd]. apply Hb. exact Hx.
    + intros e' He'. apply in_map_iff in He'.
      destruct He' as (x & <- & Hx). cbn [snd]. apply Ha. exact Hx.
  - intros lower table message. unfold classifyIntent.
    destruct (bestOf table (lower message)). reflexivity.
  - repeat split; vm_compute; reflexivity.
Qed.

(** C8.  The risk tier is a function of the winning intent alone,
    through the fixed membership sets. *)
Theorem risk_is_function_of_intent :
  forall lower table message,
    let r := classifyIntent lower table message in
    c_risk r = Spec.riskOf (c_intent r)
    /\ (c_risk r = high
        <-> In (c_intent r) [legal_threat; fraud_claim; off_platform])
    /\ (c_risk r = medium
        <-> In (c_intent r) [return_; refund; damaged_item; cancellation])
    /\ (c_risk r = low
        <-> ~ In (c_intent r) [legal_threat; fraud_claim; off_platform]
            /\ ~ In (c_intent r) [return_; refund; damaged_item; cancellation]).
Proof.
  intros lower table message r. subst r.
  rewrite risk_is_riskOf.
  repeat split; try apply riskOf_high; try apply riskOf_medium;
    try apply riskOf_low; auto.
Qed.

(** C10.  The confidence is an integer between 20 and 95 inclusive, and
    20 is attained (by the empty message, on each table of the
    repository). *)
Theorem confidence_between_20_and_95 :
  (forall lower table message,
      20 <= confidence (classifyIntent lower table message) <= 95)
  /\ confidence (classifyIntent_agent (Some [])) = 20
  /\ confidence (classifyIntent_ebay []) = 20
  /\ confidence (classifyIntent_inline []) = 20.
Proof.
  split; [intros; apply confidence_bounds |].
  repeat split; vm_compute; reflexivity.
Qed.

End ClassifierFacts.

(* ================================================================== *)
(** ** Reasoning about effectful computations *)
(* ================================================================== *)

Module EffectFacts.
Import Agents Effects.

Lemma count_app (p : event -> bool) (t1 t2 : list event) :
  count p (t1 ++ t2) = (count p t1 + count p t2)%nat.
Proof. unfold count. rewrite filter_app, length_app. reflexivity. Qed.

Lemma count_zero_not_in (t : list event) :
  count isOpenAI t = O -> ~ In CallOpenAI t.
Proof.
  unfold count. intros H Hin.
  assert (Hf : In CallOpenAI (filter isOpenAI t)).
  { apply filter_In. split; [assumption | reflexivity]. }
  destruct (filter isOpenAI t); [inversion Hf | discriminate H].
Qed.

(** *** Postconditions on the resolved value *)

Lemma post_ret {A} (a : A) (Q : A -> Prop) : Q a -> post (ret a) Q.
Proof. intros H t a' t' E. inversion E. subst. exact H. Qed.

Lemma post_throw {A} (Q : A -> Prop) : post (@throw A) Q.
Proof. intros t a t' E. inversion E. Qed.

Lemma post_await {A} (e : event) (o : outcome A) (Q : A -> Prop) :
  (forall a, o = Resolved a -> Q a) -> post (await e o) Q.
Proof. intros H t a t' E. inversion E. subst. apply H. reflexivity. Qed.

Lemma post_emit (e : event) (Q : unit -> Prop) : Q tt -> post (emit e) Q.
Proof. intros H t a t' E. inversion E. subst. exact H. Qed.

Lemma post_bind {A B} (m : M A) (k : A -> M B) (P : A -> Prop) (Q : B -> Prop) :
  post m P -> (forall a, P a -> post (k a) Q) -> post (bind m k) Q.
Proof.
  intros Hm Hk t b t' E. unfold bind in E.
  destruct (m t) as [[a |] t1] eqn:Em; [| inversion E].
  exact (Hk a (Hm _ _ _ Em) _ _ _ E).
Qed.

Lemma post_tryCatch {A} (m h : M A) (Q : A -> Prop) :
  post m Q -> post h Q -> post (tryCatch m h) Q.
Proof.
  intros Hm Hh t a t' E. unfold tryCatch in E.
  destruct (m t) as [[a0 |] t1] eqn:Em.
  - inversion E. subst. exact (Hm _ _ _ Em).
  - exact (Hh _ _ _ E).
Qed.

Lemma post_weaken {A} (m : M A) (P Q : A -> Prop) :
  post m P -> (forall a, P a -> Q a) -> post m Q.
Proof. intros Hm HPQ t a t' E. apply HPQ. exact (Hm _ _ _ E). Qed.

Lemma post_run {A} (m : M A) (Q : A -> Prop) (a : A) :
  post m Q -> fst (run m) = Resolved a -> Q a.
Proof.
  unfold run. intros Hm E. destruct (m []) as [o t'] eqn:Em.
  simpl in E. subst o. exact (Hm _ _ _ Em).
Qed.

(** *** Bounds on the number of backend calls *)

Lemma adds_ret {A} (a : A) : adds (ret a) 0 0.
Proof. intros t. simpl. lia. Qed.

Lemma adds_throw {A} : adds (@throw A) 0 0.
Proof. intros t. simpl. lia. Qed.

Lemma adds_await {A} (e : event) (o : outcome A) :
  adds (await e o)
       (if isAnthropic e then 1 else 0) (if isOpenAI e then 1 else 0).
Proof.
  intros t. unfold await. cbn [snd]. rewrite !count_app.
  unfold count. simpl.
  destruct (isAnthropic e), (isOpenAI e); simpl; lia.
Qed.

Lemma adds_emit (e : event) :
  adds (emit e)
       (if isAnthropic e then 1 else 0) (if isOpenAI e then 1 else 0).
Proof.
  intros t. unfold emit. cbn [snd]. rewrite !count_app.
  unfold count. simpl.
  destruct (isAnthropic e), (isOpenAI e); simpl; lia.
Qed.

Lemma adds_bind {A B} (m : M A) (k : A -> M B) (a1 o1 a2 o2 : nat) :
  adds m a1 o1 -> (forall x, adds (k x) a2 o2) ->
  adds (bind m k) (a1 + a2) (o1 + o2).
Proof.
  intros Hm Hk t. unfold bind.
  destruct (Hm t) as [Ha Ho].
  destruct (m t) as [[x |] t1]; cbn [snd] in *.
  - destruct (Hk x t1) as [Ha' Ho']. lia.
  - lia.
Qed.

Lemma adds_tryCatch {A} (m h : M A) (a1 o1 a2 o2 : nat) :
  adds m a1 o1 -> adds h a2 o2 ->
  adds (tryCatch m h) (a1 + a2) (o1 + o2).
Proof.
  intros Hm Hh t. unfold tryCatch.
  destruct (Hm t) as [Ha Ho].
  destruct (m t) as [[x |] t1]; cbn [snd] in *.
  - lia.
  - destruct (Hh t1) as [Ha' Ho']. lia.
Qed.

Lemma adds_weaken {A} (m : M A) (a o a' o' : nat) :
  adds m a o -> (a <= a')%nat -> (o <= o')%nat -> adds m a' o'.
Proof. intros Hm Ha Ho t. destruct (Hm t). lia. Qed.

(** *** Computations that resolve *)

Lemma resolves_ret {A} (a : A) (Q : A -> Prop) : Q a -> resolves (ret a) Q.
Proof. intros H t. exists a, t. split; [reflexivity | exact H]. Qed.

Lemma resolves_await {A} (e : event) (a : A) (Q : A -> Prop) :
  Q a -> resolves (await e (Resolved a)) Q.
Proof. intros H t. exists a, (t ++ [e]). split; [reflexivity | exact H]. Qed.

Lemma resolves_emit (e : event) (Q : unit -> Prop) : Q tt -> resolves (emit e) Q.
Proof. intros H t. exists tt, (t ++ [e]). split; [reflexivity | exact H]. Qed.

Lemma resolves_bind {A B} (m : M A) (k : A -> M B) (P : A -> Prop)
      (Q : B -> Prop) :
  resolves m P -> (forall a, P a -> resolves (k a) Q) -> resolves (bind m k) Q.
Proof.
  intros Hm Hk t. destruct (Hm t) as (a & t1 & E & Ha).
  destruct (Hk a Ha t1) as (b & t2 & E' & Hb).
  exists b, t2. unfold bind. rewrite E. auto.
Qed.

Lemma resolves_try {A} (m h : M A) (Q : A -> Prop) :
  resolves m Q -> resolves (tryCatch m h) Q.
Proof.
  intros Hm t. destruct (Hm t) as (a & t1 & E & Ha).
  exists a, t1. unfold tryCatch. rewrite E. auto.
Qed.

Lemma resolves_catch {A} (m h : M A) (Q : A -> Prop) :
  post m Q -> resolves h Q -> resolves (tryCatch m h) Q.
Proof.
  intros Hm Hh t. unfold tryCatch.
  destruct (m t) as [[a |] t1] eqn:E.
  - exists a, t1. split; [reflexivity | exact (Hm _ _ _ E)].
  - apply Hh.
Qed.

Lemma resolves_run {A} (m : M A) (Q : A -> Prop) :
  resolves m Q -> exists a, fst (run m) = Resolved a /\ Q a.
Proof.
  intros H. destruct (H []) as (a & t' & E & Ha).
  exists a. unfold run. rewrite E. auto.
Qed.

End EffectFacts.

(* ================================================================== *)
(** ** Properties of the generate handlers *)
(* ================================================================== *)

Module RouteFacts.
Import Js Regex Classifier Agents Effects Routes Handlers EffectFacts.
Local Open Scope N_scope.
Local Open Scope effect_scope.

Lemma inline_tierRule_cases (c : classification) (u : user) (req : request) :
  Inline.tierRule c u req = Inline.noDraft
  \/ exists x rr,
      Inline.tierRule c u req = ruleDraft (lit "rule-based") (x :: rr)
      /\ 80 <= confidence c /\ c_risk c = low
      /\ truthy (modify_instructions req) = false
      /\ templateOf InlineHandler (c_intent c) u = Some (x :: rr).
Proof.
  unfold Inline.tierRule, templateOf.
  destruct (N.leb_spec 80 (confidence c)) as [Hc | Hc]; [| now left].
  destruct (c_risk c) eqn:Hr; try now left.
  destruct (truthy (modify_instructions req)) eqn:Hm; [now left |].
  cbn [andb negb risk_eqb].
  destruct (Inline.getRuleBasedReply _ _ _) as [[| x rr] |]; try now left.
  right. exists x, rr. repeat split; auto.
Qed.

Lemma ebay_tierRule_cases (c : classification) (u : user) (req : request)
      (data : option ebayData) :
  Ebay.tierRule c u req data = Ebay.noDraft
  \/ exists x rr,
      Ebay.tierRule c u req data = ruleDraft (lit "rule") (x :: rr)
      /\ 80 <= confidence c /\ c_risk c = low
      /\ truthy (modify_instructions req) = false
      /\ data = None
      /\ templateOf EbayHandler (c_intent c) u = Some (x :: rr).
Proof.
  unfold Ebay.tierRule, templateOf.
  destruct (N.leb_spec 80 (confidence c)) as [Hc | Hc]; [| now left].
  destruct (c_risk c) eqn:Hr; try now left.
  destruct (truthy (modify_instructions req)) eqn:Hm; [now left |].
  destruct data as [e |]; [now left |].
  cbn [andb negb risk_eqb Ebay.isNull].
  destruct (Ebay.getRuleReply _ _ _) as [[| x rr] |]; try now left.
  right. exists x, rr. repeat split; auto.
Qed.

Section Invariants.
Variable h : handler.
Variable w : world.
Variable u : user.
Variable c : classification.
Variable G : Prop.

Local Abbreviation fromTier := (Handlers.fromTier h w u c).
Local Abbreviation inv := (Handlers.inv h w u c G).
Local Abbreviation invLarge := (Handlers.invLarge h w u c G).
Local Abbreviation goodResponse := (Handlers.goodResponse h w u c G).

Lemma inv_ofGeneration_mini (g : generation) :
  openai w = Resolved g -> c_risk c <> high -> inv (ofGeneration g mini).
Proof.
  intros Hg Hr. split; [| split]; cbn.
  - intros r E. inversion E. right. left. split; [reflexivity |].
    exists g. auto.
  - discriminate.
  - intros Hh _. exact (Hr Hh).
Qed.

Lemma inv_ofGeneration_large (g : generation) :
  anthropic w = Resolved g -> inv (ofGeneration g large).
Proof.
  intros Hg. split; [| split]; cbn.
  - intros r E. inversion E. right. right. split; [reflexivity |].
    exists g. auto.
  - discriminate.
  - intros _ [E | E]; discriminate E.
Qed.

Lemma post_tierMini (d : draft) :
  inv d -> post (tierMini w c d) inv.
Proof.
  intros Hd. unfold tierMini.
  destruct (negb (truthy (reply d))); cbn [andb];
    [| apply post_ret; exact Hd].
  destruct (c_risk c) eqn:Hr; cbn [risk_eqb negb];
    try (apply post_ret; exact Hd).
  - apply post_tryCatch.
    + eapply post_bind.
      * apply post_await with (Q := fun g => openai w = Resolved g). auto.
      * intros g Hg. apply post_ret. apply inv_ofGeneration_mini; congruence.
    + eapply post_bind; [apply post_emit with (Q := fun _ => True); exact I |].
      intros _ _. apply post_ret. exact Hd.
  - apply post_tryCatch.
    + eapply post_bind.
      * apply post_await with (Q := fun g => openai w = Resolved g). auto.
      * intros g Hg. apply post_ret. apply inv_ofGeneration_mini; congruence.
    + eapply post_bind; [apply post_emit with (Q := fun _ => True); exact I |].
      intros _ _. apply post_ret. exact Hd.
Qed.

Lemma post_tierLarge (msg : jsstring) (d : draft) :
  inv d -> post (tierLarge msg w d) invLarge.
Proof.
  intros Hd. unfold tierLarge.
  destruct (negb (truthy (reply d))); [| apply post_ret; exact Hd].
  apply post_tryCatch.
  - eapply post_bind.
    + apply post_await with (Q := fun g => anthropic w = Resolved g). auto.
    + intros g Hg. apply post_ret. cbn. apply inv_ofGeneration_large.
      exact Hg.
  - eapply post_bind; [apply post_emit with (Q := fun _ => True); exact I |].
    intros _ _. apply post_ret. cbn. eauto.
Qed.

(** The accounting block resolves only for a defined reply. *)
Lemma post_trackUsage (d : draft) :
  post (trackUsage w d) (fun _ => exists r, reply d = Some r).
Proof.
  unfold trackUsage.
  eapply post_bind with (P := fun _ => True).
  { apply post_await. auto. }
  intros existing _.
  eapply post_bind with (P := fun _ => True).
  { destruct existing; apply post_await; auto. }
  intros _ _.
  destruct (reply d) as [r |].
  - eapply post_bind with (P := fun _ => True).
    { apply post_await. auto. }
    intros _ _. apply post_await. intros _ _. eauto.
  - eapply post_bind with (P := fun _ => False).
    { apply post_throw. }
    intros _ [].
Qed.

Lemma post_tail (used : option bool) (t3 : draft + response) :
  invLarge t3 ->
  post (match t3 with
        | inr resp => ret resp
        | inl d' =>
            trackUsage w d' ;;;
            ret (Success (interp (reply d')) (c_intent c) (c_risk c)
                         (route d') used)
        end) (goodResponse used).
Proof.
  destruct t3 as [d | resp]; cbn [invLarge].
  - intros (Hfrom & Hrule & Hhigh).
    eapply post_bind; [apply post_trackUsage |].
    intros _ [r Hr]. apply post_ret.
    intros r' i rk rt used' E. inversion E; subst. clear E.
    rewrite Hr in *. cbn [interp].
    specialize (Hfrom r eq_refl).
    repeat split; auto.
    intros Hh. specialize (Hhigh Hh).
    destruct Hfrom as [[E _] | [[E _] | [E _]]]; auto;
      exfalso; apply Hhigh; auto.
  - intros (s & e & ->). apply post_ret.
    intros r i rk rt used' E. discriminate E.
Qed.

End Invariants.

Lemma inv_noDraft h w u c G (d : draft) :
  reply d = None -> route d = None -> inv h w u c G d.
Proof.
  intros Hr Ht. split; [| split].
  - rewrite Hr. discriminate.
  - rewrite Ht. discriminate.
  - rewrite Ht. intros _ [E | E]; discriminate E.
Qed.

Lemma inv_ruleDraft h w u c (G : Prop) name text :
  templateOf h (c_intent c) u = Some text -> G -> c_risk c = low ->
  inv h w u c G (ruleDraft name text).
Proof.
  intros Ht HG Hl. split; [| split]; cbn.
  - intros r E. inversion E. subst. left. auto.
  - auto.
  - intros Hh. congruence.
Qed.

Lemma post_failure {A} (m : M A) s e h w u req :
  post (m ;;; ret (Failure s e)) (successFacts h w u req).
Proof.
  eapply post_bind with (P := fun _ => True).
  - intros t a t' _. exact I.
  - intros _ _. apply post_ret. intros r i rk rt used E. discriminate E.
Qed.

Lemma post_generate (h : handler) (w : world) (u : user) (req : request) :
  post (generateOf h w u req) (successFacts h w u req).
Proof.
  destruct h; cbn [generateOf].
  - unfold Inline.generate.
    apply post_tryCatch; [| apply post_failure].
    destruct (validMessage (customer_message req)) as [msg |] eqn:Hv.
    2: { destruct (customer_message req); try apply post_throw;
         apply post_ret; intros r i rk rt used E; discriminate E. }
    set (c := classifyIntent_inline msg).
    set (G := ruleCondition InlineHandler c req None).
    eapply post_bind with (P := fun _ => True).
    { apply post_await. auto. }
    intros _ _.
    eapply post_bind.
    { apply (@post_tierMini InlineHandler w u c G).
      destruct (inline_tierRule_cases c u req)
        as [-> | (x & rr & -> & Hc & Hl & Hm & Ht)].
      - apply inv_noDraft; reflexivity.
      - apply inv_ruleDraft; auto. repeat split; auto. }
    intros d Hd.
    eapply post_bind.
    { apply (@post_tierLarge InlineHandler w u c G). exact Hd. }
    intros t3 Ht3.
    eapply post_weaken.
    { apply (@post_tail InlineHandler w u c G None t3 Ht3). }
    intros resp Hresp r i rk rt used E.
    destruct (Hresp _ _ _ _ _ E) as (-> & ? & ? & ? & HG & ?).
    exists msg. repeat split; auto; apply HG; auto.
  - unfold Ebay.generate.
    apply post_tryCatch; [| apply post_failure].
    destruct (validMessage (customer_message req)) as [msg |] eqn:Hv.
    2: { destruct (customer_message req); try apply post_throw;
         apply post_ret; intros r i rk rt used E; discriminate E. }
    set (c := classifyIntent_ebay msg).
    eapply post_bind with (P := fun _ => True).
    { apply post_await. auto. }
    intros _ _.
    eapply post_bind with (P := fun _ => True).
    { intros t a t' _. exact I. }
    intros data _.
    set (used := Some (negb (Ebay.isNull data))).
    set (G := ruleCondition EbayHandler c req used).
    eapply post_bind.
    { apply (@post_tierMini EbayHandler w u c G).
      destruct (ebay_tierRule_cases c u req data)
        as [-> | (x & rr & -> & Hc & Hl & Hm & Hdata & Ht)].
      - apply inv_noDraft; reflexivity.
      - apply inv_ruleDraft; auto. subst G used data.
        repeat split; auto. }
    intros d Hd.
    eapply post_bind.
    { apply (@post_tierLarge EbayHandler w u c G). exact Hd. }
    intros t3 Ht3.
    eapply post_weaken.
    { apply (@post_tail EbayHandler w u c G used t3 Ht3). }
    intros resp Hresp r i rk rt used' E.
    destruct (Hresp _ _ _ _ _ E) as (-> & ? & ? & ? & HG & ?).
    exists msg. repeat split; auto; apply HG; auto.
Qed.

Lemma success_facts (h : handler) (w : world) (u : user) (req : request)
      r i rk rt used :
  responseOf h w u req = Resolved (Success r i rk rt used) ->
  exists msg,
    validMessage (customer_message req) = Some msg
    /\ i = c_intent (classifyOf h msg)
    /\ rk = c_risk (classifyOf h msg)
    /\ fromTier h w u (classifyOf h msg) rt r
    /\ (rt = Some rule -> ruleCondition h (classifyOf h msg) req used)
    /\ (c_risk (classifyOf h msg) = high -> rt = Some large).
Proof.
  intros E. unfold responseOf in E.
  exact (post_run (post_generate h w u req) E _ _ _ _ _ eq_refl).
Qed.

(** *** Backend calls issued by a request *)

Ltac adds_fit := eapply adds_weaken.

Ltac fit_arith :=
  cbn [isAnthropic isOpenAI Nat.add];
  repeat match goal with
         | |- context [if ?b then _ else _] => destruct b
         end;
  lia.

Lemma adds_bind0 {A B} (m : M A) (k : A -> M B) :
  adds m 0 0 -> (forall x, adds (k x) 0 0) -> adds (bind m k) 0 0.
Proof. intros Hm Hk. apply (@adds_bind _ _ m k 0 0 0 0); assumption. Qed.

Lemma adds_await0 {A} (e : event) (o : outcome A) :
  isAnthropic e = false -> isOpenAI e = false -> adds (await e o) 0 0.
Proof.
  intros Ha Ho. pose proof (adds_await e o) as H.
  rewrite Ha, Ho in H. exact H.
Qed.

Lemma adds_trackUsage (w : world) (d : draft) : adds (trackUsage w d) 0 0.
Proof.
  unfold trackUsage.
  apply adds_bind0; [apply adds_await0; reflexivity | intros existing].
  apply adds_bind0.
  { destruct existing; apply adds_await0; reflexivity. }
  intros _. apply adds_bind0.
  { destruct (reply d); [apply adds_await0; reflexivity | apply adds_throw]. }
  intros _. apply adds_await0; reflexivity.
Qed.

Lemma adds_logged {A} (e : event) (a : A) :
  isAnthropic e = false -> isOpenAI e = false ->
  adds (emit e ;;; ret a) 0 0.
Proof.
  intros Ha Ho. adds_fit.
  - eapply adds_bind; [apply adds_emit | intros _; apply adds_ret].
  - rewrite Ha. fit_arith.
  - rewrite Ho. fit_arith.
Qed.

Lemma adds_tierMini (w : world) (c : classification) (d : draft) :
  adds (tierMini w c d) 0 (if risk_eqb (c_risk c) high then 0 else 1).
Proof.
  unfold tierMini.
  destruct (negb (truthy (reply d))); cbn [andb].
  - destruct (risk_eqb (c_risk c) high); cbn [negb].
    + apply adds_ret.
    + adds_fit.
      * eapply adds_tryCatch.
        -- eapply adds_bind; [apply adds_await | intros g; apply adds_ret].
        -- apply adds_logged; reflexivity.
      * fit_arith.
      * fit_arith.
  - adds_fit; [apply adds_ret | fit_arith | fit_arith].
Qed.

Lemma adds_tierLarge (msg : jsstring) (w : world) (d : draft) :
  adds (tierLarge msg w d) 1 0.
Proof.
  unfold tierLarge.
  destruct (negb (truthy (reply d))).
  - adds_fit.
    + eapply adds_tryCatch.
      * eapply adds_bind; [apply adds_await | intros g; apply adds_ret].
      * apply adds_logged; reflexivity.
    + fit_arith.
    + fit_arith.
  - adds_fit; [apply adds_ret | fit_arith | fit_arith].
Qed.

Lemma adds_tail (w : world) (c : classification) (used : option bool)
      (t3 : draft + response) :
  adds (match t3 with
        | inr resp => ret resp
        | inl d' =>
            trackUsage w d' ;;;
            ret (Success (interp (reply d')) (c_intent c) (c_risk c)
                         (route d') used)
        end) 0 0.
Proof.
  destruct t3 as [d | resp]; [| apply adds_ret].
  adds_fit.
  - eapply adds_bind; [apply adds_trackUsage | intros _; apply adds_ret].
  - fit_arith.
  - fit_arith.
Qed.

Lemma adds_lookup (w : world) (req : request) :
  adds (Ebay.lookupEbayData w req) 0 0.
Proof.
  unfold Ebay.lookupEbayData.
  destruct (truthy (order_id req) || truthy (buyer_name req));
    [| apply adds_ret].
  adds_fit.
  - eapply adds_tryCatch; [apply adds_await |].
    apply adds_logged; reflexivity.
  - fit_arith.
  - fit_arith.
Qed.

(** A request issues at most one call to each backend, and none to the
    low-cost one when the risk is high. *)
Lemma adds_generate (h : handler) (w : world) (u : user) (req : request) :
  adds (generateOf h w u req) 1
       (match validMessage (customer_message req) with
        | Some msg => if risk_eqb (c_risk (classifyOf h msg)) high then 0 else 1
        | None => 0
        end).
Proof.
  destruct h; cbn [generateOf classifyOf].
  - unfold Inline.generate.
    destruct (validMessage (customer_message req)) as [msg |].
    + generalize (classifyIntent_inline msg). intros c.
      adds_fit.
      * eapply adds_tryCatch; [| apply adds_logged; reflexivity].
        eapply adds_bind; [apply adds_await | intros _].
        eapply adds_bind; [apply adds_tierMini | intros d].
        eapply adds_bind; [apply adds_tierLarge | intros t3].
        apply adds_tail.
      * fit_arith.
      * fit_arith.
    + adds_fit.
      * eapply adds_tryCatch; [| apply adds_logged; reflexivity].
        destruct (customer_message req); try apply adds_throw; apply adds_ret.
      * fit_arith.
      * fit_arith.
  - unfold Ebay.generate.
    destruct (validMessage (customer_message req)) as [msg |].
    + generalize (classifyIntent_ebay msg). intros c.
      adds_fit.
      * eapply adds_tryCatch; [| apply adds_logged; reflexivity].
        eapply adds_bind; [apply adds_await | intros _].
        eapply adds_bind; [apply adds_lookup | intros data].
        eapply adds_bind; [apply adds_tierMini | intros d].
        eapply adds_bind; [apply adds_tierLarge | intros t3].
        apply adds_tail.
      * fit_arith.
      * fit_arith.
    + adds_fit.
      * eapply adds_tryCatch; [| apply adds_logged; reflexivity].
        destruct (customer_message req); try apply adds_throw; apply adds_ret.
      * fit_arith.
      * fit_arith.
Qed.

Lemma adds_writerAgent (w : world) (riskLevel : risk) :
  adds (writerAgent w riskLevel) 1 (if risk_eqb riskLevel high then 0 else 1).
Proof.
  unfold writerAgent. destruct (risk_eqb riskLevel high).
  - apply adds_await.
  - adds_fit.
    + eapply adds_tryCatch; apply adds_await.
    + fit_arith.
    + fit_arith.
Qed.

(** *** When the accounting calls resolve *)

Section AccountingResolves.
Variable w : world.
Variable existing : option usageRow.
Hypothesis tone_ok : toneSamples w = Resolved tt.
Hypothesis select_ok : usageSelect w = Resolved existing.
Hypothesis write_ok : usageWrite w = Resolved tt.
Hypothesis log_ok : replyLogInsert w = Resolved tt.
Hypothesis active_ok : lastActiveUpdate w = Resolved tt.

Lemma resolves_trackUsage (d : draft) (r : jsstring) :
  reply d = Some r -> resolves (trackUsage w d) (fun _ => True).
Proof.
  intros Hr. unfold trackUsage.
  rewrite select_ok, write_ok, log_ok, active_ok, Hr.
  eapply resolves_bind; [apply resolves_await with (Q := fun _ => True); exact I |].
  intros ex _.
  eapply resolves_bind with (P := fun _ => True).
  { destruct ex; apply resolves_await; exact I. }
  intros _ _.
  eapply resolves_bind; [apply resolves_await with (Q := fun _ => True); exact I |].
  intros _ _. apply resolves_await. exact I.
Qed.

Lemma resolves_tierMini (c : classification) (d : draft) :
  resolves (tierMini w c d) (fun _ => True).
Proof.
  unfold tierMini.
  destruct (negb (truthy (reply d)) && negb (risk_eqb (c_risk c) high));
    [| apply resolves_ret; exact I].
  apply resolves_catch.
  - intros t a t' _. exact I.
  - eapply resolves_bind; [apply resolves_emit with (Q := fun _ => True); exact I |].
    intros _ _. apply resolves_ret. exact I.
Qed.

Lemma resolves_tierLarge (msg : jsstring) (d : draft) (g : generation) :
  anthropic w = Resolved g -> resolves (tierLarge msg w d) drafted.
Proof.
  intros Hg. unfold tierLarge. rewrite Hg.
  destruct (reply d) as [[| x r] |] eqn:Hr; cbn [truthy negb].
  - apply resolves_try. eapply resolves_bind.
    + apply resolves_await with (Q := fun a => a = g). reflexivity.
    + intros a ->. apply resolves_ret. exists (ofGeneration g large), (g_reply g).
      split; reflexivity.
  - apply resolves_ret. exists d, (x :: r). auto.
  - apply resolves_try. eapply resolves_bind.
    + apply resolves_await with (Q := fun a => a = g). reflexivity.
    + intros a ->. apply resolves_ret. exists (ofGeneration g large), (g_reply g).
      split; reflexivity.
Qed.

Lemma resolves_tail (c : classification) (used : option bool)
      (t3 : draft + response) :
  drafted t3 ->
  resolves (match t3 with
            | inr resp => ret resp
            | inl d' =>
                trackUsage w d' ;;;
                ret (Success (interp (reply d')) (c_intent c) (c_risk c)
                             (route d') used)
            end) isSuccess.
Proof.
  intros (d & r & -> & Hr).
  eapply resolves_bind; [exact (resolves_trackUsage d Hr) |].
  intros _ _. apply resolves_ret. unfold isSuccess. eauto 10.
Qed.

(** When the high-cost backend answers and the four accounting calls
    resolve (with or without an error value), a valid request gets a
    success response. *)
Lemma reply_delivered_when_accounting_resolves (h : handler) (u : user)
      (req : request) (msg : jsstring) (g : generation) :
  validMessage (customer_message req) = Some msg ->
  anthropic w = Resolved g ->
  exists resp, responseOf h w u req = Resolved resp /\ isSuccess resp.
Proof.
  intros Hv Hg. unfold responseOf. apply resolves_run.
  destruct h; cbn [generateOf].
  - unfold Inline.generate. rewrite Hv, tone_ok. apply resolves_try.
    eapply resolves_bind; [apply resolves_await with (Q := fun _ => True); exact I |].
    intros _ _.
    eapply resolves_bind; [apply resolves_tierMini |]. intros d _.
    eapply resolves_bind; [exact (resolves_tierLarge _ d Hg) |]. intros t3 Ht3.
    apply resolves_tail. exact Ht3.
  - unfold Ebay.generate. rewrite Hv, tone_ok. apply resolves_try.
    eapply resolves_bind; [apply resolves_await with (Q := fun _ => True); exact I |].
    intros _ _.
    eapply resolves_bind with (P := fun _ => True).
    { unfold Ebay.lookupEbayData.
      destruct (truthy (order_id req) || truthy (buyer_name req));
        [| apply resolves_ret; exact I].
      apply resolves_catch.
      - intros t a t' _. exact I.
      - eapply resolves_bind;
          [apply resolves_emit with (Q := fun _ => True); exact I |].
        intros _ _. apply resolves_ret. exact I. }
    intros data _.
    eapply resolves_bind; [apply resolves_tierMini |]. intros d _.
    eapply resolves_bind; [exact (resolves_tierLarge _ d Hg) |]. intros t3 Ht3.
    apply resolves_tail. exact Ht3.
Qed.

End AccountingResolves.

(** X28.  The reply of a success response is exactly the text drafted by
    the tier named in [route]: the rule template, the reply of the
    low-cost backend or the reply of the high-cost backend. *)
Theorem reply_is_the_draft_of_its_tier :
  forall h w u req r i rk rt used,
    responseOf h w u req = Resolved (Success r i rk rt used) ->
    exists msg,
      validMessage (customer_message req) = Some msg
      /\ ((rt = Some rule
           /\ templateOf h (c_intent (classifyOf h msg)) u = Some r)
          \/ (rt = Some mini
              /\ exists g, openai w = Resolved g /\ r = g_reply g)
          \/ (rt = Some large
              /\ exists g, anthropic w = Resolved g /\ r = g_reply g)).
Proof.
  intros h w u req r i rk rt used E.
  destruct (success_facts h w u req E) as (msg & Hv & _ & _ & Hf & _).
  exists msg. split; [exact Hv | exact Hf].
Qed.

(** C2 (amended).  A response comes from the rule tier only when the
    confidence is at least 80, the risk is low and no modify
    instructions were sent, and, in the handler that looks up eBay order
    data, only when no order data was obtained for the request. *)
Theorem rule_tier_preconditions :
  forall h w u req r i rk used,
    responseOf h w u req = Resolved (Success r i rk (Some rule) used) ->
    exists msg,
      validMessage (customer_message req) = Some msg
      /\ 80 <= confidence (classifyOf h msg)
      /\ c_risk (classifyOf h msg) = low
      /\ truthy (modify_instructions req) = false
      /\ (h = EbayHandler -> used = Some false).
Proof.
  intros h w u req r i rk used E.
  destruct (success_facts h w u req E) as (msg & Hv & _ & _ & _ & Hrule & _).
  destruct (Hrule eq_refl) as (Hc & Hl & Hm & Hu).
  exists msg. repeat split; auto.
  intros ->. exact Hu.
Qed.

(** C3.  When the risk is high no call to the low-cost backend is
    issued: the trace of the request has no [CallOpenAI], at most one
    [CallAnthropic], a success response has route [large], and the
    writer agent called with that risk level does not call the low-cost
    backend either. *)
Theorem high_risk_never_calls_low_cost_backend :
  forall h w u req msg,
    validMessage (customer_message req) = Some msg ->
    c_risk (classifyOf h msg) = high ->
    ~ In CallOpenAI (traceOf h w u req)
    /\ (count isAnthropic (traceOf h w u req) <= 1)%nat
    /\ (forall r i rk rt used,
           responseOf h w u req = Resolved (Success r i rk rt used) ->
           rt = Some large)
    /\ ~ In CallOpenAI (snd (run (writerAgent w (c_risk (classifyOf h msg))))).
Proof.
  intros h w u req msg Hv Hr.
  assert (Ha : (count isAnthropic (traceOf h w u req) <= 1)%nat).
  { destruct (adds_generate h w u req []) as [Ha _]. exact Ha. }
  assert (Ho : (count isOpenAI (traceOf h w u req) <= 0)%nat).
  { destruct (adds_generate h w u req []) as [_ Ho].
    rewrite Hv, Hr in Ho. exact Ho. }
  repeat split.
  - apply count_zero_not_in. lia.
  - exact Ha.
  - intros r i rk rt used E.
    destruct (success_facts h w u req E) as (msg' & Hv' & _ & _ & _ & _ & Hh).
    rewrite Hv in Hv'. inversion Hv'. subst msg'. exact (Hh Hr).
  - rewrite Hr.
    assert (Ho' : (count isOpenAI (snd (run (writerAgent w high))) <= 0)%nat).
    { destruct (adds_writerAgent w high []) as [_ Ho']. exact Ho'. }
    apply count_zero_not_in. lia.
Qed.

End RouteFacts.

(* ================================================================== *)
(** ** Properties of the data-fetch and reasoning agents *)
(* ================================================================== *)

Module ReasoningFacts.
Import Js Regex Classifier Agents.
Local Open Scope N_scope.

Lemma orderFactLines_sound (o : orderFacts) (l : jsstring) :
  In l (orderFactLines o) ->
  l = orderIdLine o
  \/ (truthy (o_status o) = true /\ l = statusLine o)
  \/ (exists i rest, o_items o = Some (i :: rest) /\ l = itemsLine (i :: rest)).
Proof.
  unfold orderFactLines. intros H.
  apply in_app_or in H. destruct H as [H | H].
  - destruct H as [<- | []]. now left.
  - apply in_app_or in H. destruct H as [H | H].
    + destruct (truthy (o_status o)) eqn:Hs; [| inversion H].
      destruct H as [<- | []]. right. left. auto.
    + destruct (o_items o) as [[| i rest] |]; try (now inversion H).
      destruct H as [<- | []]. right. right. eauto.
Qed.

Lemma trackingFactLines_sound (tl : list trackingEntry) (l : jsstring) :
  In l (trackingFactLines tl) ->
  exists t rest,
    tl = t :: rest
    /\ (truthy (t_carrier t) || truthy (t_trackingNumber t)) = true
    /\ l = trackingLine t.
Proof.
  unfold trackingFactLines. destruct tl as [| t rest]; [intros [] |].
  destruct (truthy (t_carrier t) || truthy (t_trackingNumber t)) eqn:Ht;
    [| intros []].
  intros [<- | []]. eauto.
Qed.

Lemma orderFactLines_complete (o : orderFacts) :
  In (orderIdLine o) (orderFactLines o)
  /\ (truthy (o_status o) = true -> In (statusLine o) (orderFactLines o))
  /\ (forall i rest, o_items o = Some (i :: rest) ->
                     In (itemsLine (i :: rest)) (orderFactLines o)).
Proof.
  unfold orderFactLines. split; [| split].
  - apply in_or_app. left. apply in_eq.
  - intros Hs. rewrite Hs. apply in_or_app. right.
    apply in_or_app. left. apply in_eq.
  - intros i rest Hi. rewrite Hi. apply in_or_app. right.
    apply in_or_app. right. apply in_eq.
Qed.

(** X29.  The fact lines of a bundle are exactly these: the order-id line
    of a fetched order, whatever its id; its status line when the status
    is not empty; its items line when the item list is not empty; and
    the line of the first tracking entry when that entry has a carrier
    or a tracking number. *)
Theorem fact_lines_come_from_fetched_fields :
  forall classifier dataFetch riskConstraints profitGuidance l,
    In l (facts (reasoningAgent classifier dataFetch riskConstraints
                                profitGuidance))
    <->
    ((exists o, orderOf dataFetch = Some o /\ l = orderIdLine o)
     \/ (exists o, orderOf dataFetch = Some o
                   /\ truthy (o_status o) = true /\ l = statusLine o)
     \/ (exists o i rest, orderOf dataFetch = Some o
                          /\ o_items o = Some (i :: rest)
                          /\ l = itemsLine (i :: rest))
     \/ (exists t rest, trackingOf dataFetch = t :: rest
                        /\ (truthy (t_carrier t)
                            || truthy (t_trackingNumber t)) = true
                        /\ l = trackingLine t)).
Proof.
  intros classifier dataFetch rc pg l.
  unfold reasoningAgent. cbn [facts]. split.
  - intros H. apply in_app_or in H. destruct H as [H | H].
    + destruct (orderOf dataFetch) as [o |]; [| inversion H].
      destruct (orderFactLines_sound H)
        as [-> | [[Hs ->] | (i & rest & Hi & ->)]].
      * left. eauto.
      * right. left. eauto.
      * right. right. left. exists o, i, rest. auto.
    + right. right. right. apply trackingFactLines_sound. exact H.
  - intros [(o & Ho & ->) | [(o & Ho & Hs & ->)
                            | [(o & i & rest & Ho & Hi & ->)
                              | (t & rest & Ht & Hc & ->)]]];
      apply in_or_app.
    + left. rewrite Ho. apply orderFactLines_complete.
    + left. rewrite Ho. apply orderFactLines_complete. exact Hs.
    + left. rewrite Ho. apply orderFactLines_complete. exact Hi.
    + right. rewrite Ht. unfold trackingFactLines. rewrite Hc.
      apply in_eq.
Qed.

Lemma dataFetch_not_ok getToken fetch nd orderId d :
  dataFetchAgent getToken fetch nd orderId = Resolved d ->
  d_ok d = false ->
  f_order (d_fetched d) = None /\ f_tracking (d_fetched d) = None
  /\ ((d_missing d = [key_order_id] /\ n_order nd = true /\ truthy orderId = false)
      \/ (d_missing d = [key_ebay_oauth] /\ truthy orderId = true)
      \/ (d_missing d = [] /\ truthy orderId = true
          /\ f_error (d_fetched d) = Some FetchFailed)).
Proof.
  unfold dataFetchAgent.
  destruct (n_order nd); cbn [negb].
  2: { intros E. inversion E. subst. discriminate. }
  destruct orderId as [[| c r] |].
  - intros E. inversion E. subst. cbn. intros _. auto 10.
  - destruct getToken as [[[| tc tr] |] |].
    + intros E. inversion E. subst. cbn. auto 10.
    + destruct (fetch (tc :: tr) (c :: r)) as [[order tl |] |].
      * intros E. inversion E. subst. discriminate.
      * intros E. inversion E. subst. cbn. auto 10.
      * discriminate.
    + intros E. inversion E. subst. cbn. auto 10.
    + discriminate.
  - intros E. inversion E. subst. cbn. intros _. auto 10.
Qed.

(** C4 (amended).  When the data-fetch agent, called with the needs and
    the order id of the classifier agent, returns [ok: false], the
    reasoning bundle has no facts; it contains the order-number question
    when the order id is missing and the connect-account question when
    the account is not linked, and no question when the upstream fetch
    failed. *)
Theorem not_ok_fetch_proceeds_without_facts :
  forall getToken fetch latest thread riskConstraints profitGuidance d,
    let c := classifierAgent latest thread in
    dataFetchAgent getToken fetch (cl_needs c) (cl_orderId c) = Resolved d ->
    d_ok d = false ->
    let r := reasoningAgent (Some c) (Some d) riskConstraints profitGuidance in
    facts r = []
    /\ ((d_missing d = [key_order_id] /\ questions r = [askOrderNumber])
        \/ (d_missing d = [key_ebay_oauth] /\ questions r = [askConnectEbay])
        \/ (d_missing d = [] /\ f_error (d_fetched d) = Some FetchFailed
            /\ questions r = [])).
Proof.
  intros getToken fetch latest thread rc pg d c Hd Hok r.
  destruct (@dataFetch_not_ok getToken fetch (cl_needs c) (cl_orderId c) d Hd Hok)
    as (Ho & Ht & Hcase).
  assert (Hm : cl_missing c
               = if n_order (cl_needs c) && negb (truthy (cl_orderId c))
                 then [key_order_id] else []).
  { reflexivity. }
  subst r. unfold reasoningAgent, orderOf, trackingOf.
  cbn [facts questions]. rewrite Ho, Ht. cbn [trackingFactLines app].
  split; [reflexivity |].
  rewrite Hm.
  destruct Hcase as [(Hmiss & Hn & Hid) | [(Hmiss & Hid) | (Hmiss & Hid & He)]];
    rewrite Hmiss, Hid.
  - rewrite Hn. left. split; reflexivity.
  - rewrite andb_false_r. right. left. split; reflexivity.
  - rewrite andb_false_r. right. right. repeat split; auto.
Qed.

End ReasoningFacts.

(* ================================================================== *)
(** ** Matching and the surrounding text *)
(* ================================================================== *)

Module RegexFacts.
Import Js Regex.
Local Open Scope N_scope.

Lemma trimChar_not_word (c : N) : isTrimChar c = true -> isWordChar c = false.
Proof.
  unfold isTrimChar, isWhiteSpace, isLineTerminator, isWordChar,
    isUpperAscii, isLowerAscii, isDigit, between.
  intros H.
  repeat rewrite orb_true_iff in H. repeat rewrite andb_true_iff in H.
  repeat rewrite N.eqb_eq in H. repeat rewrite N.leb_le in H.
  repeat rewrite orb_false_iff. repeat rewrite andb_false_iff.
  repeat rewrite N.eqb_neq. repeat rewrite N.leb_gt.
  repeat split; lia.
Qed.

(** *** Text left unchanged when nothing matches *)

Lemma replaceFrom_no_match icase r rep (s : jsstring) :
  forall prev,
    testFrom icase r prev s = false ->
    replaceFrom icase r rep prev s 0 = s.
Proof.
  induction s as [| c s IH]; intros prev H; cbn [testFrom replaceFrom] in *.
  - destruct (matchAt icase r prev []); [discriminate H | reflexivity].
  - destruct (matchAt icase r prev (c :: s)); [discriminate H |].
    rewrite (IH _ H). reflexivity.
Qed.

Lemma replaceAll_no_match icase r rep (s : jsstring) :
  test icase r s = false -> replaceAll icase r rep s = s.
Proof. apply replaceFrom_no_match. Qed.

(** *** The character before the match matters only as word / non-word *)

Lemma dotStar_prev (k k' : cont) :
  agree k k' ->
  forall s p p', isWordOpt p = isWordOpt p' -> dotStar k p s = dotStar k' p' s.
Proof.
  intros Hk. induction s as [| c s IH]; intros p p' Hp; cbn [dotStar].
  - apply Hk. exact Hp.
  - rewrite (IH (Some c) (Some c) eq_refl), (Hk p p' (c :: s) Hp).
    reflexivity.
Qed.

Lemma matchR_prev icase (r : regex) :
  forall p p' s k k',
    isWordOpt p = isWordOpt p' -> agree k k' ->
    matchR icase r p s k = matchR icase r p' s k'.
Proof.
  induction r; intros p p' s k k' Hp Hk; cbn [matchR].
  - apply Hk. exact Hp.
  - destruct s as [| x s]; [reflexivity |].
    destruct (charEq icase c x); [apply Hk |]; reflexivity.
  - destruct s as [| x s]; [reflexivity |].
    destruct (isLineTerminator x); [| apply Hk]; reflexivity.
  - destruct s as [| x s]; [reflexivity |].
    destruct (isDigit x); [apply Hk |]; reflexivity.
  - unfold atBoundary. rewrite Hp.
    destruct (xorb _ _); [apply Hk; exact Hp | reflexivity].
  - apply IHr1; [exact Hp |].
    intros q q' s1 Hq. apply IHr2; assumption.
  - rewrite (IHr1 p p' s k k' Hp Hk), (IHr2 p p' s k k' Hp Hk). reflexivity.
  - rewrite (IHr p p' s k k' Hp Hk), (Hk p p' s Hp). reflexivity.
  - apply dotStar_prev; assumption.
Qed.

Lemma testFrom_prev icase r (s : jsstring) (p p' : option N) :
  isWordOpt p = isWordOpt p' ->
  testFrom icase r p s = testFrom icase r p' s.
Proof.
  intros Hp. destruct s as [| c s]; cbn [testFrom]; unfold matchAt;
    rewrite (@matchR_prev icase r p p' _ (accept) (accept) Hp);
    try reflexivity; intros q q' s1 _; reflexivity.
Qed.

Lemma testFrom_skip icase r (c : N) (s : jsstring) (p : option N) :
  testFrom icase r p (c :: s) = false -> testFrom icase r (Some c) s = false.
Proof.
  cbn [testFrom]. destruct (matchAt icase r p (c :: s)); [discriminate | auto].
Qed.

Lemma testFrom_trimStart icase r (s : jsstring) :
  forall p,
    isWordOpt p = false ->
    testFrom icase r p s = false ->
    testFrom icase r p (trimStart s) = false.
Proof.
  induction s as [| c s IH]; intros p Hp H; cbn [trimStart]; [exact H |].
  destruct (isTrimChar c) eqn:Hc; [| exact H].
  apply IH; [exact Hp |].
  rewrite (@testFrom_prev icase r s p (Some c)).
  - exact (testFrom_skip _ _ _ _ _ H).
  - rewrite Hp. cbn. symmetry. apply trimChar_not_word. exact Hc.
Qed.

(** *** A match survives when non-word text is appended *)

Section Append.
Variable icase : bool.
Variable ws : jsstring.
Hypothesis ws_not_word : Forall (fun c => isWordChar c = false) ws.

Local Abbreviation extends := (Regex.extends ws).

Lemma atBoundary_app (p : option N) (s : jsstring) :
  atBoundary p (s ++ ws) = atBoundary p s.
Proof.
  destruct s as [| c s]; [| reflexivity].
  unfold atBoundary. cbn [app hd_error].
  destruct ws_not_word as [| w l Hw _]; cbn; [reflexivity |].
  rewrite Hw. reflexivity.
Qed.

Lemma dotStar_fallback (k : cont) (p : option N) (s : jsstring) x :
  k p s = Some x -> exists y, dotStar k p s = Some y.
Proof.
  intros H. destruct s as [| c s]; cbn [dotStar]; [eauto |].
  destruct (isLineTerminator c); [eauto |].
  destruct (dotStar k (Some c) s); eauto.
Qed.

Lemma dotStar_app (k k' : cont) :
  extends k k' ->
  forall s p x,
    dotStar k p s = Some x -> exists y, dotStar k' p (s ++ ws) = Some y.
Proof.
  intros Hk. induction s as [| c s IH]; intros p x H.
  - cbn [dotStar] in H. destruct (Hk _ _ _ H) as [y Hy].
    exact (dotStar_fallback _ _ _ Hy).
  - cbn [dotStar app] in *.
    destruct (isLineTerminator c); [exact (Hk _ _ _ H) |].
    destruct (dotStar k (Some c) s) as [z |] eqn:Hz.
    + destruct (IH _ _ Hz) as [y ->]. eauto.
    + destruct (dotStar k' (Some c) (s ++ ws)); [eauto |].
      exact (Hk _ _ _ H).
Qed.

Lemma matchR_app (r : regex) :
  forall p s k k' x,
    extends k k' ->
    matchR icase r p s k = Some x ->
    exists y, matchR icase r p (s ++ ws) k' = Some y.
Proof.
  induction r; intros p s k k' x Hk H; cbn [matchR] in *.
  - exact (Hk _ _ _ H).
  - destruct s as [| a s]; [discriminate H |]. cbn [app].
    destruct (charEq icase c a); [exact (Hk _ _ _ H) | discriminate H].
  - destruct s as [| a s]; [discriminate H |]. cbn [app].
    destruct (isLineTerminator a); [discriminate H | exact (Hk _ _ _ H)].
  - destruct s as [| a s]; [discriminate H |]. cbn [app].
    destruct (isDigit a); [exact (Hk _ _ _ H) | discriminate H].
  - rewrite atBoundary_app.
    destruct (atBoundary p s); [exact (Hk _ _ _ H) | discriminate H].
  - eapply IHr1; [| exact H].
    intros q s1 z Hz. eapply IHr2; [exact Hk | exact Hz].
  - destruct (matchR icase r1 p s k) as [z |] eqn:Hz.
    + destruct (IHr1 _ _ _ _ _ Hk Hz) as [y ->]. eauto.
    + destruct (matchR icase r1 p (s ++ ws) k'); [eauto |].
      exact (IHr2 _ _ _ _ _ Hk H).
  - destruct (matchR icase r p s k) as [z |] eqn:Hz.
    + destruct (IHr _ _ _ _ _ Hk Hz) as [y ->]. eauto.
    + destruct (matchR icase r p (s ++ ws) k'); [eauto |].
      exact (Hk _ _ _ H).
  - exact (dotStar_app Hk _ _ H).
Qed.

Lemma testFrom_app (r : regex) (s : jsstring) :
  forall p,
    testFrom icase r p s = true -> testFrom icase r p (s ++ ws) = true.
Proof.
  assert (Hacc : extends accept accept).
  { intros p s1 x _. unfold accept. eauto. }
  induction s as [| c s IH]; intros p H.
  - cbn [testFrom] in H. unfold matchAt in H.
    destruct (matchR icase r p [] accept) as [z |] eqn:Hz;
      [| discriminate H].
    destruct (matchR_app _ _ _ Hacc Hz) as [y Hy].
    destruct ([] ++ ws) as [| w l] eqn:E; cbn [testFrom]; unfold matchAt;
      rewrite Hy; reflexivity.
  - cbn [testFrom app] in *. unfold matchAt in *.
    destruct (matchR icase r p (c :: s) accept) as [z |] eqn:Hz.
    + destruct (matchR_app _ _ _ Hacc Hz) as [y Hy].
      cbn [app] in Hy. rewrite Hy. reflexivity.
    + destruct (matchR icase r p (c :: s ++ ws) accept); [reflexivity |].
      apply IH. exact H.
Qed.

End Append.

(** *** Trimming *)

Lemma trimStart_split (s : jsstring) :
  exists ws, s = ws ++ trimStart s /\ Forall (fun c => isTrimChar c = true) ws.
Proof.
  induction s as [| c s (ws & E & F)]; [exists []; split; auto |].
  cbn [trimStart]. destruct (isTrimChar c) eqn:Hc.
  - exists (c :: ws). split; [cbn; f_equal; exact E | constructor; auto].
  - exists []. split; auto.
Qed.

Lemma trimEnd_split (s : jsstring) :
  exists ws, s = trimEnd s ++ ws /\ Forall (fun c => isTrimChar c = true) ws.
Proof.
  destruct (trimStart_split (rev s)) as (ws & E & F).
  exists (rev ws). split.
  - unfold trimEnd. rewrite <- rev_app_distr, <- E, rev_involutive.
    reflexivity.
  - apply Forall_rev. exact F.
Qed.

Lemma test_trim icase r (s : jsstring) :
  test icase r s = false -> test icase r (trim s) = false.
Proof.
  unfold test, trim. intros H.
  apply testFrom_trimStart in H; [| reflexivity].
  destruct (trimEnd_split (trimStart s)) as (ws & E & F).
  destruct (testFrom icase r None (trimEnd (trimStart s))) eqn:T;
    [| reflexivity].
  rewrite E in H. rewrite testFrom_app in H; [discriminate H | | exact T].
  eapply Forall_impl; [| exact F].
  intros c Hc. apply trimChar_not_word. exact Hc.
Qed.

Lemma trimStart_clean (s : jsstring) : startsClean (trimStart s).
Proof.
  induction s as [| c s IH]; cbn; [exact I |].
  destruct (isTrimChar c) eqn:Hc; [exact IH | exact Hc].
Qed.

Lemma trimStart_fixed (s : jsstring) : startsClean s -> trimStart s = s.
Proof. destruct s as [| c s]; cbn; [reflexivity | intros ->; reflexivity]. Qed.

Lemma trim_idempotent (s : jsstring) : trim (trim s) = trim s.
Proof.
  unfold trim.
  set (y := trimStart s).
  assert (Hy : startsClean y) by apply trimStart_clean.
  assert (Hz : startsClean (trimEnd y)).
  { destruct (trimEnd_split y) as (ws & E & _).
    destruct (trimEnd y) as [| c z]; [exact I |].
    rewrite E in Hy. exact Hy. }
  rewrite (@trimStart_fixed _ Hz).
  unfold trimEnd at 1. unfold trimEnd at 1. rewrite rev_involutive.
  rewrite (@trimStart_fixed _ (trimStart_clean (rev y))). reflexivity.
Qed.

End RegexFacts.

(* ================================================================== *)
(** ** Properties of the safety-check agent *)
(* ================================================================== *)

Module SafetyFacts.
Import Js Regex Agents RegexFacts.
Local Open Scope string_scope.
Local Open Scope N_scope.

Lemma triggerFree_trim (x : jsstring) : triggerFree x -> triggerFree (trim x).
Proof.
  intros (H1 & H2 & H3). repeat split; apply test_trim; assumption.
Qed.

Lemma orElse_some (x : jsstring) : orElse (Some x) [] = x.
Proof. destruct x; reflexivity. Qed.

Lemma safety_on_clean_text (x : jsstring) :
  triggerFree x -> safetyCheckAgent (Some x) = trim x.
Proof.
  intros H. destruct (triggerFree_trim H) as (H1 & H2 & H3).
  unfold safetyCheckAgent. rewrite orElse_some.
  rewrite (replaceAll_no_match _ _ _ _ H1).
  rewrite (replaceAll_no_match _ _ _ _ H2).
  rewrite (replaceAll_no_match _ _ _ _ H3).
  reflexivity.
Qed.

(** The part of the safety filter's contract that holds: on text free of
    trigger patterns the filter only trims, its output is again free of
    trigger patterns, and filtering twice is filtering once. *)
Lemma safety_idempotent_on_clean_text (x : jsstring) :
  triggerFree x ->
  safetyCheckAgent (Some x) = trim x
  /\ triggerFree (safetyCheckAgent (Some x))
  /\ safetyCheckAgent (Some (safetyCheckAgent (Some x)))
     = safetyCheckAgent (Some x).
Proof.
  intros H. pose proof (triggerFree_trim H) as Ht.
  rewrite (safety_on_clean_text H).
  repeat split; try apply Ht.
  rewrite (safety_on_clean_text Ht). apply trim_idempotent.
Qed.

(** C7.  The filter at the draft "call mwhatsapp": replacing "whatsapp"
    by "eBay messages" splices the off-platform phrase "call me" into
    the output, on which the off-platform pattern matches, and a second
    pass changes the text again. *)
Theorem safety_filter_can_splice_a_trigger_phrase :
  safetyCheckAgent (Some (lit "call mwhatsapp")) = lit "call meBay messages"
  /\ test true offPlatformPattern (lit "call meBay messages") = true
  /\ safetyCheckAgent (Some (lit "call meBay messages"))
     = lit "eBay messagesBay messages"
  /\ safetyCheckAgent (Some (safetyCheckAgent (Some (lit "call mwhatsapp"))))
     <> safetyCheckAgent (Some (lit "call mwhatsapp")).
Proof.
  repeat split; try (vm_compute; reflexivity).
  vm_compute. discriminate.
Qed.

End SafetyFacts.

(* ================================================================== *)
(** ** The properties at concrete requests *)
(* ================================================================== *)

Module Scenarios.
Import Js Regex Classifier Agents Effects Routes Handlers Samples.
Import ClassifierFacts EffectFacts RouteFacts ReasoningFacts SafetyFacts.
Local Open Scope string_scope.
Local Open Scope N_scope.

Lemma classify_follows_fixed_algorithm_witness :
  let score := Spec.matchScore (Js.toLowerCase lawyerFraudMessage) in
  0 < score (snd legalEntry)
  /\ (forall e', In e' entriesBefore -> score (snd e') < score (snd legalEntry))
  /\ (forall e', In e' entriesAfter -> score (snd e') <= score (snd legalEntry))
  /\ score (snd (nth 0 entriesAfter (general, []))) = score (snd legalEntry)
  /\ classifyIntent_inline lawyerFraudMessage
     = {| c_intent := legal_threat; confidence := 50; c_risk := high |}.
Proof.
  intros score.
  assert (Hpos : 0 < score (snd legalEntry)) by (vm_compute; reflexivity).
  assert (Hb : forall e', In e' entriesBefore ->
                          score (snd e') < score (snd legalEntry)).
  { intros e' H. cbv [entriesBefore firstn patterns_inline] in H.
    cbn [In] in H.
    repeat (destruct H as [H | H]; [subst e'; vm_compute; reflexivity |]).
    destruct H. }
  assert (Ha : forall e', In e' entriesAfter ->
                          score (snd e') <= score (snd legalEntry)).
  { intros e' H. cbv [entriesAfter skipn patterns_inline] in H.
    cbn [In] in H.
    repeat (destruct H as [H | H]; [subst e'; vm_compute; discriminate |]).
    destruct H. }
  split; [exact Hpos |]. split; [exact Hb |]. split; [exact Ha |].
  split; [vm_compute; reflexivity |].
  exact (proj1 (proj2 (proj2 ClassifierFacts.classify_follows_fixed_algorithm))
             Js.toLowerCase entriesBefore legalEntry entriesAfter
             lawyerFraudMessage Hpos Hb Ha).
Defined.

(** C1.  Neither generate handler passes the reply through the
    safety-check agent, whichever tier drafted it.  The low-cost backend
    drafts "We will definitely help." and both handlers return that
    text, which the agent rewrites; the high-cost backend drafts the
    same text for a legal threat and it is returned as it is; and for a
    seller who signs as "PayPal Pete" the rule template is returned with
    that signature, which the agent rewrites too. *)
Theorem reply_is_returned_unfiltered :
  (responseOf InlineHandler calmWorld seller plainRequest
   = Resolved (Success definitelyText general low (Some mini) None)
   /\ responseOf EbayHandler calmWorld seller plainRequest
      = Resolved (Success definitelyText general low (Some mini) (Some false))
   /\ openai calmWorld = Resolved miniReply
   /\ g_reply miniReply = definitelyText)
  /\ (responseOf InlineHandler ExtraSamples.promiseWorld seller lawyerRequest
      = Resolved (Success definitelyText legal_threat high (Some large) None)
      /\ responseOf EbayHandler ExtraSamples.promiseWorld seller lawyerRequest
         = Resolved (Success definitelyText legal_threat high (Some large)
                             (Some false)))
  /\ (responseOf InlineHandler calmWorld ExtraSamples.paypalPete thanksRequest
      = Resolved (Success ExtraSamples.peteReply positive_feedback low
                          (Some rule) None)
      /\ responseOf EbayHandler calmWorld ExtraSamples.paypalPete thanksRequest
         = Resolved (Success ExtraSamples.peteReplyEbay positive_feedback low
                             (Some rule) (Some false)))
  /\ safetyCheckAgent (Some definitelyText)
     = lit "We will will do our best to help."
  /\ definitelyText <> safetyCheckAgent (Some definitelyText)
  /\ ExtraSamples.peteReply <> safetyCheckAgent (Some ExtraSamples.peteReply)
  /\ ExtraSamples.peteReplyEbay
     <> safetyCheckAgent (Some ExtraSamples.peteReplyEbay).
Proof.
  repeat split; try (vm_compute; reflexivity); vm_compute; discriminate.
Qed.

Lemma reply_is_the_draft_of_its_tier_witness :
  responseOf InlineHandler calmWorld seller plainRequest
  = Resolved (Success definitelyText general low (Some mini) None)
  /\ exists msg,
      validMessage (customer_message plainRequest) = Some msg
      /\ ((Some mini = Some rule
           /\ templateOf InlineHandler (c_intent (classifyOf InlineHandler msg))
                         seller = Some definitelyText)
          \/ (Some mini = Some mini
              /\ exists g, openai calmWorld = Resolved g
                           /\ definitelyText = g_reply g)
          \/ (Some mini = Some large
              /\ exists g, anthropic calmWorld = Resolved g
                           /\ definitelyText = g_reply g)).
Proof.
  split; [vm_compute; reflexivity |].
  apply (@reply_is_the_draft_of_its_tier InlineHandler calmWorld seller
           plainRequest definitelyText general low (Some mini) None).
  vm_compute; reflexivity.
Defined.

(** C2, claim as stated fails.  A tracking message is answered from the
    rule template by both handlers, although the classifier agent marks
    order facts as needed for the tracking intent. *)
Lemma rule_tier_taken_when_order_facts_needed :
  responseOf InlineHandler calmWorld seller trackingRequest
  = Resolved (Success trackingReplyInline tracking low (Some rule) None)
  /\ responseOf EbayHandler calmWorld seller trackingRequest
     = Resolved (Success trackingReplyEbay tracking low (Some rule) (Some false))
  /\ cl_intent (classifierAgent (textOf (customer_message trackingRequest)) None)
     = tracking
  /\ n_order (cl_needs (classifierAgent
                          (textOf (customer_message trackingRequest)) None))
     = true.
Proof. repeat split; vm_compute; reflexivity. Qed.

Lemma rule_tier_preconditions_witness :
  responseOf EbayHandler calmWorld seller thanksRequest
  = Resolved (Success thanksReplyEbay positive_feedback low (Some rule) (Some false))
  /\ exists msg,
      validMessage (customer_message thanksRequest) = Some msg
      /\ 80 <= confidence (classifyOf EbayHandler msg)
      /\ c_risk (classifyOf EbayHandler msg) = low
      /\ truthy (modify_instructions thanksRequest) = false
      /\ (EbayHandler = EbayHandler -> Some false = Some false).
Proof.
  split; [vm_compute; reflexivity |].
  apply (@rule_tier_preconditions EbayHandler calmWorld seller thanksRequest
           thanksReplyEbay positive_feedback low (Some false)).
  vm_compute; reflexivity.
Defined.

Lemma high_risk_never_calls_low_cost_backend_witness :
  validMessage (customer_message lawyerRequest)
  = Some (lit "I will contact my lawyer")
  /\ c_risk (classifyOf InlineHandler (lit "I will contact my lawyer")) = high
  /\ ~ In CallOpenAI (traceOf InlineHandler calmWorld seller lawyerRequest)
  /\ (count isAnthropic (traceOf InlineHandler calmWorld seller lawyerRequest)
      <= 1)%nat
  /\ (forall r i rk rt used,
         responseOf InlineHandler calmWorld seller lawyerRequest
         = Resolved (Success r i rk rt used) ->
         rt = Some large)
  /\ ~ In CallOpenAI
       (snd (run (writerAgent calmWorld
                    (c_risk (classifyOf InlineHandler
                                        (lit "I will contact my lawyer")))))).
Proof.
  split; [vm_compute; reflexivity |].
  split; [vm_compute; reflexivity |].
  apply (@high_risk_never_calls_low_cost_backend InlineHandler calmWorld seller
           lawyerRequest (lit "I will contact my lawyer"));
    vm_compute; reflexivity.
Defined.

(** C4, claim as stated fails.  The order id is known and the account is
    linked, but the upstream fetch fails: the data-fetch agent returns
    [ok: false] and the reasoning bundle has no question at all. *)
Lemma upstream_failure_yields_no_question :
  let c := classifierAgent (Some orderMessage) None in
  dataFetchAgent linkedToken upstreamDown (cl_needs c) (cl_orderId c)
  = Resolved upstreamFailure
  /\ d_ok upstreamFailure = false
  /\ questions (reasoningAgent (Some c) (Some upstreamFailure) None None) = [].
Proof. repeat split; vm_compute; reflexivity. Qed.

Lemma not_ok_fetch_proceeds_without_facts_witness :
  let c := classifierAgent (Some noIdMessage) None in
  dataFetchAgent linkedToken upstreamDown (cl_needs c) (cl_orderId c)
  = Resolved orderIdMissing
  /\ d_ok orderIdMissing = false
  /\ let r := reasoningAgent (Some c) (Some orderIdMissing) None None in
     facts r = []
     /\ ((d_missing orderIdMissing = [key_order_id]
          /\ questions r = [askOrderNumber])
         \/ (d_missing orderIdMissing = [key_ebay_oauth]
             /\ questions r = [askConnectEbay])
         \/ (d_missing orderIdMissing = []
             /\ f_error (d_fetched orderIdMissing) = Some FetchFailed
             /\ questions r = [])).
Proof.
  split; [vm_compute; reflexivity |].
  split; [vm_compute; reflexivity |].
  apply (@not_ok_fetch_proceeds_without_facts linkedToken upstreamDown
           (Some noIdMessage) None None None orderIdMissing);
    vm_compute; reflexivity.
Defined.

(** The accounting calls are awaited inside the [try] of the handler:
    were one of them to reject after the low-cost backend drafted the
    reply (the select on [usage], or the insert into [reply_log]), both
    handlers would answer with status 500 and no reply.  The client of
    db/supabase.js resolves with an error instead, see [Supabase]. *)
Lemma rejected_accounting_call_reaches_the_catch :
  responseOf InlineHandler usageDownWorld seller plainRequest
  = Resolved (Failure 500 (lit "Failed to generate reply. Please try again."))
  /\ traceOf InlineHandler usageDownWorld seller plainRequest
     = [SelectToneSamples; CallOpenAI; SelectUsage; ConsoleError]
  /\ responseOf EbayHandler usageDownWorld seller plainRequest
     = Resolved (Failure 500 (lit "Failed to generate reply."))
  /\ responseOf InlineHandler logDownWorld seller plainRequest
     = Resolved (Failure 500 (lit "Failed to generate reply. Please try again."))
  /\ responseOf EbayHandler logDownWorld seller plainRequest
     = Resolved (Failure 500 (lit "Failed to generate reply."))
  /\ responseOf InlineHandler calmWorld seller plainRequest
     = Resolved (Success definitelyText general low (Some mini) None).
Proof. repeat split; vm_compute; reflexivity. Qed.

(** C9.  The order-id line is pushed without a test of the id, unlike
    the status, items and tracking lines.  The order call of the
    upstream API answers 200 with a body that has no [orderId]: the
    data-fetch agent copies the absent id into the fetched order, and
    the only fact line of the bundle is "Order ID: undefined"; the
    absent status and the empty item list give no line.  With an empty
    [orderId] the line is the bare label "Order ID: ". *)
Theorem order_id_line_emitted_for_absent_id :
  EbayClient.fetchOrderAndTracking ExtraSamples.orderCallWithoutId
                                   ExtraSamples.trackingDown
  = Resolved (FetchOk orderWithoutId (Some []))
  /\ dataFetchAgent linkedToken
       (fun _ _ =>
          EbayClient.fetchOrderAndTracking ExtraSamples.orderCallWithoutId
                                           ExtraSamples.trackingDown)
       needsOrder (Some (lit "12-34567-89012"))
     = Resolved fetchedWithoutId
  /\ orderOf (Some fetchedWithoutId) = Some orderFactsWithoutId
  /\ o_orderId orderFactsWithoutId = None
  /\ facts (reasoningAgent None (Some fetchedWithoutId) None None)
     = [lit "Order ID: undefined"]
  /\ dataFetchAgent linkedToken
       (fun _ _ =>
          EbayClient.fetchOrderAndTracking ExtraSamples.orderCallEmptyId
                                           ExtraSamples.trackingDown)
       needsOrder (Some (lit "12-34567-89012"))
     = Resolved ExtraSamples.fetchedEmptyId
  /\ facts (reasoningAgent None (Some ExtraSamples.fetchedEmptyId) None None)
     = [lit "Order ID: "].
Proof. repeat split; vm_compute; reflexivity. Qed.

Lemma fact_lines_come_from_fetched_fields_witness :
  In (lit "Order status: FULFILLED")
     (facts (reasoningAgent None (Some shippedFetch) None None))
  /\ ((exists o, orderOf (Some shippedFetch) = Some o
                 /\ lit "Order status: FULFILLED" = orderIdLine o)
      \/ (exists o, orderOf (Some shippedFetch) = Some o
                    /\ truthy (o_status o) = true
                    /\ lit "Order status: FULFILLED" = statusLine o)
      \/ (exists o i rest, orderOf (Some shippedFetch) = Some o
                           /\ o_items o = Some (i :: rest)
                           /\ lit "Order status: FULFILLED" = itemsLine (i :: rest))
      \/ (exists t rest, trackingOf (Some shippedFetch) = t :: rest
                         /\ (truthy (t_carrier t)
                             || truthy (t_trackingNumber t)) = true
                         /\ lit "Order status: FULFILLED" = trackingLine t)).
Proof.
  split; [vm_compute; auto |].
  apply (proj1 (@fact_lines_come_from_fetched_fields None (Some shippedFetch)
                  None None (lit "Order status: FULFILLED"))).
  vm_compute; auto.
Defined.

End Scenarios.

(* ================================================================== *)
(** ** Properties of the license middleware *)
(* ================================================================== *)

Module LicenseFacts.
Import Js License.
Local Open Scope N_scope.

(** X1.  The two copies of [requireLicense] decide alike: for every key,
    user table and time they both call [next()] with the same user, or
    both answer with the same status and error code (only the message
    texts differ). *)
Theorem license_middlewares_agree :
  forall key lookup now,
    match requireLicense_ebay key lookup now,
          requireLicense_inline key lookup now with
    | Next u1, Next u2 => u1 = u2
    | Deny s1 e1 _, Deny s2 e2 _ => s1 = s2 /\ e1 = e2
    | _, _ => False
    end.
Proof.
  intros key lookup now.
  unfold requireLicense_ebay, requireLicense_inline.
  destruct key as [[| c k] |]; try (split; reflexivity).
  destruct (lookup (c :: k)) as [user |]; [| split; reflexivity].
  destruct (isText (plan user) "owner"); [reflexivity |].
  destruct (isText (plan user) "trial"); cbn [andb negb].
  - destruct (isAfter now (trial_end user)); [split; reflexivity |].
    destruct (isText (plan user) "expired"); [split; reflexivity | reflexivity].
  - destruct (isText (plan user) "expired"); [split; reflexivity |].
    destruct (isText (subscription_status user) "canceled"); cbn [andb];
      [| reflexivity].
    destruct (dateTruthy (subscription_end user) && isAfter now (subscription_end user));
      [split; reflexivity | reflexivity].
Qed.

Lemma isAfter_mono (now later : N) (d : dateField) :
  now <= later -> isAfter now d = true -> isAfter later d = true.
Proof.
  unfold isAfter. destruct (timeOf d) as [t |]; [| discriminate].
  rewrite !N.ltb_lt. lia.
Qed.

(** X2.  Access never comes back with time: a key that the middleware
    refuses at some time is refused at every later time (the user table
    being the same). *)
Theorem license_refusal_is_permanent :
  forall key lookup now later,
    now <= later ->
    passes (requireLicense_inline key lookup now) = false ->
    passes (requireLicense_inline key lookup later) = false.
Proof.
  intros key lookup now later Hle.
  unfold requireLicense_inline.
  destruct key as [[| c k] |]; try (intros _; reflexivity).
  destruct (lookup (c :: k)) as [user |]; [| intros _; reflexivity].
  destruct (isText (plan user) "owner"); [discriminate |].
  destruct (isText (plan user) "trial"); cbn [andb negb].
  - destruct (isAfter now (trial_end user)) eqn:Ha.
    + rewrite (isAfter_mono _ Hle Ha). reflexivity.
    + destruct (isText (plan user) "expired"); [| discriminate].
      intros _. destruct (isAfter later (trial_end user)); reflexivity.
  - destruct (isText (plan user) "expired"); [reflexivity |].
    destruct (isText (subscription_status user) "canceled"); cbn [andb];
      [| discriminate].
    destruct (dateTruthy (subscription_end user)); cbn [andb]; [| discriminate].
    destruct (isAfter now (subscription_end user)) eqn:Ha; [| discriminate].
    rewrite (isAfter_mono _ Hle Ha). reflexivity.
Qed.

Lemma isText_true (x : option jsstring) (text : string) :
  isText x text = true -> x = Some (lit text).
Proof.
  destruct x as [v |]; [| discriminate]. unfold isText, strEq.
  destruct (list_eq_dec N.eq_dec v (lit text)); [| discriminate].
  intros _. subst v. reflexivity.
Qed.

(** X3.  Who gets through: a missing key or a key without a user row is
    answered 401 and nothing else is; the owner plan always passes; the
    plan 'expired' never passes; a trial user passes exactly while the
    time is not after [trial_end], whatever the subscription columns say;
    and a subscription without an end date keeps its access even when
    canceled. *)
Theorem license_access_rules :
  forall key lookup now,
    let d := requireLicense_inline key lookup now in
    (fst_status d = Some 401
     <-> (truthy key = false \/ exists k, key = Some k /\ lookup k = None))
    /\ (forall k u, key = Some k -> truthy key = true -> lookup k = Some u ->
          (isText (plan u) "owner" = true -> d = Next u)
          /\ (isText (plan u) "expired" = true -> passes d = false)
          /\ (isText (plan u) "trial" = true ->
              passes d = negb (isAfter now (trial_end u)))
          /\ (isText (plan u) "trial" = false ->
              isText (plan u) "expired" = false ->
              dateTruthy (subscription_end u) = false -> d = Next u)).
Proof.
  intros key lookup now d. subst d. unfold requireLicense_inline. split.
  - destruct key as [[| c k] |]; cbn [truthy fst_status verdict].
    + split; [auto | reflexivity].
    + destruct (lookup (c :: k)) as [user |] eqn:Hl.
      * split.
        -- destruct (isText (plan user) "owner"); [discriminate |].
           destruct (isText (plan user) "trial" && isAfter now (trial_end user));
             [discriminate |].
           destruct (isText (plan user) "expired"); [discriminate |].
           destruct (negb (isText (plan user) "trial")
                     && isText (subscription_status user) "canceled");
             [| discriminate].
           destruct (dateTruthy (subscription_end user)
                     && isAfter now (subscription_end user)); discriminate.
        -- intros [H | (k' & E & H)]; [discriminate H |].
           inversion E. subst k'. congruence.
      * split; [| reflexivity]. intros _. right. eauto.
    + split; [auto | reflexivity].
  - intros k u -> Ht Hl. destruct k as [| c k]; [discriminate Ht |].
    rewrite Hl. repeat split.
    + intros ->. reflexivity.
    + intros He. rewrite (isText_true _ _ He). reflexivity.
    + intros Hp. rewrite (isText_true _ _ Hp). cbn [andb negb].
      change (isText (Some (lit "trial")) "owner") with false.
      change (isText (Some (lit "trial")) "trial") with true.
      change (isText (Some (lit "trial")) "expired") with false.
      cbn [andb negb].
      destruct (isAfter now (trial_end u)); reflexivity.
    + intros -> -> ->. cbn [andb negb].
      destruct (isText (plan u) "owner"); [reflexivity |].
      destruct (isText (subscription_status u) "canceled"); reflexivity.
Qed.

End LicenseFacts.

(* ================================================================== *)
(** ** Properties of the constraint agents and of the assembled bundle *)
(* ================================================================== *)

Module ConstraintFacts.
Import Js Regex Classifier Agents ConstraintAgents ClassifierFacts ReasoningFacts.
Local Open Scope N_scope.

(** X4.  On what the classifier returns, the risk agent emits the three
    baseline constraints alone, or followed by the two de-escalation
    constraints, or by those and the no-accusation constraint: the
    no-accusation constraint never comes without the de-escalation ones,
    because the classifier rates a fraud claim as high risk. *)
Theorem risk_constraints_of_a_classified_message :
  forall lower table message,
    let c := classifyIntent lower table message in
    let rs := ra_constraints (riskAgent (c_intent c) (c_risk c)) in
    (c_risk c <> high /\ rs = baseline)
    \/ (c_risk c = high /\ c_intent c <> fraud_claim
        /\ rs = baseline ++ deescalation)
    \/ (c_risk c = high /\ c_intent c = fraud_claim
        /\ rs = baseline ++ deescalation ++ [noAccusation]).
Proof.
  intros lower table message c rs. subst rs.
  assert (Hr : c_risk c = Spec.riskOf (c_intent c)) by apply risk_is_riskOf.
  unfold riskAgent. cbn [ra_constraints]. rewrite Hr.
  destruct (c_intent c); cbn;
    first [ left; split; [discriminate | reflexivity]
          | right; left; split;
            [reflexivity | split; [discriminate | reflexivity]]
          | right; right; split; [reflexivity | split; reflexivity] ].
Qed.

(** X5.  Without fetched facts the profit-protection agent never asserts
    a shipment: when the data-fetch agent returns [ok: false], the guidance
    is the one for no data at all, namely "checking shipment status" for
    tracking, the return-flow guidance for refund and return, "confirm
    cancellation steps" for cancellation and nothing for the other
    intents. *)
Theorem guidance_without_facts :
  forall getToken fetch nd orderId d i,
    dataFetchAgent getToken fetch nd orderId = Resolved d ->
    d_ok d = false ->
    profitProtectionAgent i (Some (d_fetched d)) = profitProtectionAgent i None
    /\ profitProtectionAgent i None
       = match i with
         | tracking => [checkingShipment]
         | refund | return_ => refundGuidance
         | cancellation => [confirmCancellation]
         | _ => []
         end.
Proof.
  intros getToken fetch nd orderId d i Hd Hok.
  destruct (@dataFetch_not_ok getToken fetch nd orderId d Hd Hok)
    as (Ho & Ht & _).
  split.
  - unfold profitProtectionAgent, hasTracking, orderStatus.
    rewrite Ho, Ht. reflexivity.
  - destruct i; reflexivity.
Qed.

Lemma profit_length (i : intent) (f : option fetched) :
  (length (profitProtectionAgent i f) <= 2)%nat.
Proof.
  unfold profitProtectionAgent.
  destruct i; cbn [intent_eqb intent_eq_dec orb app length];
    try (destruct (hasTracking f); cbn; lia);
    try (destruct (truthy (Some (orderStatus f))
                   && test true shippedPattern (orderStatus f)); cbn; lia);
    cbn; lia.
Qed.

Lemma facts_length classifier dataFetch rc pg :
  (length (facts (reasoningAgent classifier dataFetch rc pg)) <= 4)%nat.
Proof.
  unfold reasoningAgent. cbn [facts]. rewrite length_app.
  assert (H1 : (length (match orderOf dataFetch with
                        | Some o => orderFactLines o
                        | None => []
                        end) <= 3)%nat).
  { destruct (orderOf dataFetch) as [o |]; [| cbn; lia].
    unfold orderFactLines. rewrite !length_app.
    destruct (truthy (o_status o)); destruct (o_items o) as [[| x l] |];
      cbn; lia. }
  assert (H2 : (length (trackingFactLines (trackingOf dataFetch)) <= 1)%nat).
  { unfold trackingFactLines. destruct (trackingOf dataFetch) as [| t l];
      [cbn; lia |].
    destruct (truthy (t_carrier t) || truthy (t_trackingNumber t)); cbn; lia. }
  lia.
Qed.

(** X6.  The bundle handed to the writer is bounded: at most four fact
    lines and two questions; with the outputs of the two constraint agents
    its constraint list starts with the three baseline constraints, keeps
    the risk agent's constraints before the guidance, and has between
    three and seven entries, nothing being dropped or de-duplicated. *)
Theorem bundle_is_bounded :
  forall classifier dataFetch i r fetchedData,
    let rs := ra_constraints (riskAgent i r) in
    let pg := profitProtectionAgent i fetchedData in
    let b := reasoningAgent classifier dataFetch (Some rs) (Some pg) in
    (length (facts b) <= 4)%nat
    /\ (length (questions b) <= 2)%nat
    /\ constraints b = rs ++ pg
    /\ firstn 3 (constraints b) = baseline
    /\ (3 <= length (constraints b) <= 7)%nat.
Proof.
  intros classifier dataFetch i r fetchedData rs pg b.
  split; [apply facts_length |].
  split.
  { subst b. unfold reasoningAgent. cbn [questions]. rewrite length_app.
    destruct classifier as [cl |], dataFetch as [d |];
      repeat match goal with
             | |- context [if ?x then _ else _] => destruct x
             end; cbn; lia. }
  split; [reflexivity |].
  split; [reflexivity |].
  subst b. unfold reasoningAgent. cbn [constraints]. rewrite length_app.
  pose proof (profit_length i fetchedData) as Hp. fold pg in Hp.
  assert (Hpg : intent_eqb i fraud_claim = true -> length pg = O).
  { intros H. destruct i; try discriminate H. reflexivity. }
  subst rs. unfold riskAgent. cbn [ra_constraints]. rewrite !length_app.
  destruct (risk_eqb r high); destruct (intent_eqb i fraud_claim);
    try (rewrite (Hpg eq_refl)); cbn; lia.
Qed.

End ConstraintFacts.

(* ================================================================== *)
(** ** Properties of the order fetch *)
(* ================================================================== *)

Module FetchFacts.
Import Js Agents EbayClient.

(** X7.  A failing tracking call never fails the order fetch: when the
    order call answers with an ok status, the data-fetch agent returns
    [ok: true] with the order facts whatever the tracking call does, and
    the tracking list is empty when that call rejected or answered with a
    non-ok status. *)
Theorem tracking_failure_keeps_the_order :
  forall token orderId nd order trackRes,
    truthy (Some token) = true ->
    truthy orderId = true ->
    n_order nd = true ->
    exists d facts,
      dataFetchAgent (Resolved (Some token))
        (fun _ _ =>
           fetchOrderAndTracking
             (Resolved {| http_ok := true; http_json := order |}) trackRes)
        nd orderId
      = Resolved d
      /\ d_ok d = true /\ d_missing d = []
      /\ f_order (d_fetched d) = Some facts
      /\ o_orderId facts = eo_orderId order
      /\ o_status facts = eo_orderFulfillmentStatus order
      /\ ((trackRes = Rejected
           \/ exists f, trackRes = Resolved f /\ http_ok f = false) ->
          f_tracking (d_fetched d) = Some []).
Proof.
  intros token orderId nd order trackRes Ht Hid Hn.
  destruct token as [| tc tr]; [discriminate Ht |].
  destruct orderId as [[| c r] |]; try discriminate Hid.
  unfold dataFetchAgent, fetchOrderAndTracking. rewrite Hn.
  cbn [negb http_ok http_json].
  eexists. eexists. split; [reflexivity |].
  cbn. repeat split.
  intros [-> | (f & -> & Hf)]; [reflexivity |]. rewrite Hf. reflexivity.
Qed.

End FetchFacts.

(* ================================================================== *)
(** ** Properties of the classifier agent *)
(* ================================================================== *)

Module ClassifierAgentFacts.
Import Js Regex Classifier Agents OrderIds ClassifierFacts SafetyFacts.
Local Open Scope N_scope.

Ltac eat H :=
  match type of H with
  | match ?s with [] => None | _ :: _ => _ end = Some _ =>
      let c := fresh "c" in
      destruct s as [| c s]; [discriminate H |]
  | (if ?b then _ else None) = Some _ =>
      let E := fresh "E" in
      destruct b eqn:E; [| discriminate H]
  end.

Lemma orderId_matchAt (p : option N) (s rest : jsstring) :
  matchAt false orderIdPattern p s = Some rest ->
  exists m, s = m ++ rest /\ shapedLikeOrderId m = true.
Proof.
  unfold matchAt, orderIdPattern.
  cbn [cat times str lit map list_ascii_of_string fold_right N_of_ascii].
  cbn [matchR]. intros H.
  repeat eat H.
  unfold accept in H. inversion H. subst rest.
  match goal with
  | |- exists m, ?a1 :: ?a2 :: ?a3 :: ?a4 :: ?a5 :: ?a6 :: ?a7 :: ?a8 :: ?a9
                 :: ?a10 :: ?a11 :: ?a12 :: ?a13 :: ?a14 :: _ = _ /\ _ =>
      exists [a1; a2; a3; a4; a5; a6; a7; a8; a9; a10; a11; a12; a13; a14]
  end.
  split; [reflexivity |].
  unfold charEq in *. cbn [shapedLikeOrderId forallb].
  repeat match goal with
         | E : isDigit _ = true |- _ => rewrite E; clear E
         end.
  cbn [andb].
  repeat match goal with
         | E : (_ =? _) = true |- _ => apply N.eqb_eq in E; rewrite <- E; clear E
         end.
  reflexivity.
Qed.

Lemma shaped_length (m : jsstring) :
  shapedLikeOrderId m = true -> length m = 14%nat.
Proof.
  unfold shapedLikeOrderId.
  do 15 (destruct m as [| ? m]; try discriminate). reflexivity.
Qed.

Lemma execFrom_orderId (s : jsstring) :
  forall p m,
    execFrom false orderIdPattern p s = Some m ->
    shapedLikeOrderId m = true /\ exists before after, s = before ++ m ++ after.
Proof.
  induction s as [| c s IH]; intros p m H; cbn [execFrom] in H.
  - destruct (matchAt false orderIdPattern p []) as [rest |] eqn:Hm;
      [| discriminate H].
    destruct (orderId_matchAt _ _ Hm) as (m' & E & Hs).
    destruct m'; [discriminate Hs | discriminate E].
  - destruct (matchAt false orderIdPattern p (c :: s)) as [rest |] eqn:Hm.
    + destruct (orderId_matchAt _ _ Hm) as (m' & E & Hs).
      rewrite E in H.
      rewrite length_app, Nat.add_sub, firstn_app, Nat.sub_diag, firstn_all in H.
      cbn [firstn] in H. rewrite app_nil_r in H. inversion H. subst m'.
      split; [exact Hs |]. exists [], rest. rewrite E. reflexivity.
    + destruct (IH _ _ H) as (Hs & before & after & E).
      split; [exact Hs |]. exists (c :: before), after. rewrite E. reflexivity.
Qed.

Lemma extracted_shape (text : option jsstring) (m : jsstring) :
  extractOrderId text = Some m ->
  shapedLikeOrderId m = true
  /\ exists before after, orElse text [] = before ++ m ++ after.
Proof.
  intros H. unfold extractOrderId, exec in H.
  exact (execFrom_orderId _ _ H).
Qed.

(** X8.  Whatever [extractOrderId] returns has the shape of an order id
    (two digits, hyphen, five digits, hyphen, five digits: fourteen code
    units) and is a piece of the text it was given. *)
Theorem extracted_order_id_is_well_formed :
  forall text m,
    extractOrderId text = Some m ->
    shapedLikeOrderId m = true
    /\ length m = 14%nat
    /\ exists before after, orElse text [] = before ++ m ++ after.
Proof.
  intros text m H. destruct (extracted_shape _ H) as (Hs & Hex).
  split; [exact Hs |]. split; [apply shaped_length; exact Hs | exact Hex].
Qed.

Lemma agent_orderId (latest : option jsstring)
      (thread : option (list threadMessage)) :
  cl_orderId (classifierAgent latest thread)
  = match extractOrderId latest with
    | Some m => Some m
    | None => extractOrderId (Some (joinTexts thread))
    end.
Proof.
  unfold classifierAgent. cbn [cl_orderId].
  assert (E : extractOrderId (Some (orElse latest [])) = extractOrderId latest).
  { unfold extractOrderId. rewrite orElse_some. reflexivity. }
  rewrite E.
  destruct (extractOrderId latest) as [m |] eqn:Hm; [| reflexivity].
  pose proof (shaped_length _ (proj1 (extracted_shape _ Hm))) as Hl.
  destruct m; [discriminate Hl | reflexivity].
Qed.

Lemma agent_orderId_shaped (latest : option jsstring)
      (thread : option (list threadMessage)) (m : jsstring) :
  cl_orderId (classifierAgent latest thread) = Some m ->
  shapedLikeOrderId m = true.
Proof.
  rewrite agent_orderId. intros H.
  destruct (extractOrderId latest) as [m' |] eqn:E.
  - inversion H. subst m'. exact (proj1 (extracted_shape _ E)).
  - exact (proj1 (extracted_shape _ H)).
Qed.

(** X9.  The order id of the latest buyer message wins over the thread:
    the agent reports the id found in the latest message when there is
    one, and otherwise the first id found in the thread texts joined by
    newlines; the id it reports is always well formed. *)
Theorem latest_message_order_id_wins :
  forall latest thread,
    let c := classifierAgent latest thread in
    (forall m, extractOrderId latest = Some m -> cl_orderId c = Some m)
    /\ (extractOrderId latest = None ->
        cl_orderId c = extractOrderId (Some (joinTexts thread)))
    /\ (forall m, cl_orderId c = Some m -> shapedLikeOrderId m = true).
Proof.
  intros latest thread c. subst c.
  split; [| split].
  - rewrite agent_orderId. intros m ->. reflexivity.
  - rewrite agent_orderId. intros ->. reflexivity.
  - intros m H. exact (agent_orderId_shaped _ _ H).
Qed.

Lemma winner_in (l : list (intent * N)) :
  In (fst (Spec.winner l)) (general :: map fst l).
Proof.
  unfold Spec.winner.
  destruct (Spec.maxScore l =? 0); [left; reflexivity |].
  destruct (find (fun e => snd e =? Spec.maxScore l) l) as [e |] eqn:F;
    [| left; reflexivity].
  right. apply in_map. apply (find_some _ _ F).
Qed.

Lemma intent_in_table lower table message :
  In (c_intent (classifyIntent lower table message))
     (general :: map fst table).
Proof.
  rewrite classifyIntent_spec. unfold Spec.classify. cbn [c_intent].
  pose proof (winner_in (Spec.scores table (lower message))) as H.
  unfold Spec.scores in H. rewrite map_map in H. cbn [fst] in H. exact H.
Qed.

(** X10.  What the classifier agent asks for: its intent is the default
    or one of the eight intents of its own table; it needs the order
    exactly for the tracking intent and the medium-risk intents, and the
    tracking data exactly for the tracking intent; a high-risk message
    never needs the order; and ['order_id'] is reported missing exactly
    when the order is needed and no id was found. *)
Theorem classifier_agent_needs :
  forall latest thread,
    let c := classifierAgent latest thread in
    In (cl_intent c)
       [general; tracking; return_; refund; damaged_item; cancellation;
        legal_threat; fraud_claim; off_platform]
    /\ cl_risk c = Spec.riskOf (cl_intent c)
    /\ (n_order (cl_needs c) = true
        <-> cl_intent c = tracking \/ cl_risk c = medium)
    /\ (n_tracking (cl_needs c) = true <-> cl_intent c = tracking)
    /\ (cl_risk c = high -> n_order (cl_needs c) = false /\ cl_missing c = [])
    /\ (cl_missing c = [key_order_id]
        <-> n_order (cl_needs c) = true /\ cl_orderId c = None)
    /\ (cl_missing c = [key_order_id] \/ cl_missing c = []).
Proof.
  intros latest thread c.
  assert (Hin : In (cl_intent c)
                   [general; tracking; return_; refund; damaged_item;
                    cancellation; legal_threat; fraud_claim; off_platform]).
  { exact (intent_in_table Js.toLowerCase patterns_agent
                           (orElse (Some (orElse latest [])) [])). }
  assert (Hr : cl_risk c = Spec.riskOf (cl_intent c)).
  { exact (risk_is_riskOf Js.toLowerCase patterns_agent
                          (orElse (Some (orElse latest [])) [])). }
  assert (Hn : n_order (cl_needs c)
               = includes [tracking; refund; return_; damaged_item; cancellation]
                          (cl_intent c)) by reflexivity.
  assert (Ht : n_tracking (cl_needs c)
               = n_order (cl_needs c) && includes [tracking] (cl_intent c))
    by reflexivity.
  assert (Hm : cl_missing c
               = if n_order (cl_needs c) && negb (truthy (cl_orderId c))
                 then [key_order_id] else []) by reflexivity.
  assert (Hid : truthy (cl_orderId c) = false <-> cl_orderId c = None).
  { destruct (cl_orderId c) as [m |] eqn:E; [| split; reflexivity].
    pose proof (agent_orderId_shaped latest thread E) as Hs.
    destruct m; [discriminate Hs |]. cbn. split; discriminate. }
  clearbody c.
  split; [exact Hin |]. split; [exact Hr |].
  rewrite <- Hid, Hm, Ht, Hn, Hr. clear Hin Hr Hn Ht Hm Hid.
  destruct (cl_intent c); destruct (truthy (cl_orderId c)); cbn;
    repeat split; intros;
    repeat match goal with
           | H : _ \/ _ |- _ => destruct H
           | H : _ /\ _ |- _ => destruct H
           end;
    try discriminate; auto.
Qed.

End ClassifierAgentFacts.

(* ================================================================== *)
(** ** The order of the external calls of a request *)
(* ================================================================== *)

Module OrderFacts.
Import Js Classifier Agents Effects Routes Handlers TraceLogic.

Lemma stages_app (t1 t2 : list event) :
  stages (t1 ++ t2) = stages t1 ++ stages t2.
Proof.
  induction t1 as [| e t1 IH]; [reflexivity |].
  cbn [app stages]. destruct (stage e); rewrite IH; reflexivity.
Qed.

Lemma sorted_snoc (l : list nat) (s : nat) :
  StronglySorted lt l -> Forall (fun x => x < s) l ->
  StronglySorted lt (l ++ [s]).
Proof.
  induction 1 as [| a l Hs IH Ha]; intros Hf; cbn [app].
  - constructor; constructor.
  - inversion Hf; subst. constructor; [apply IH; assumption |].
    apply Forall_app. split; [exact Ha | constructor; [assumption | constructor]].
Qed.

Lemma below_mono (lo hi : nat) (t : list event) :
  lo <= hi -> below lo t -> below hi t.
Proof.
  intros Hle [Hs Hf]. split; [exact Hs |].
  eapply Forall_impl; [| exact Hf]. cbn. intros; lia.
Qed.

Lemma below_snoc (lo s : nat) (t : list event) (e : event) :
  stage e = Some s -> lo <= s -> below lo t -> below (S s) (t ++ [e]).
Proof.
  intros He Hle [Hs Hf]. unfold below. rewrite stages_app. cbn [stages].
  rewrite He. split.
  - apply sorted_snoc; [exact Hs |].
    eapply Forall_impl; [| exact Hf]. cbn. intros; lia.
  - apply Forall_app. split.
    + eapply Forall_impl; [| exact Hf]. cbn. intros; lia.
    + constructor; [lia | constructor].
Qed.

Lemma below_silent (lo : nat) (t : list event) (e : event) :
  stage e = None -> below lo t -> below lo (t ++ [e]).
Proof.
  intros He H. unfold below in *. rewrite stages_app. cbn [stages].
  rewrite He, app_nil_r. exact H.
Qed.

Lemma advances_ret {A} (a : A) (lo : nat) : advances (ret a) lo lo.
Proof. intros t H. exact H. Qed.

Lemma advances_throw {A} (lo : nat) : advances (@throw A) lo lo.
Proof. intros t H. exact H. Qed.

Lemma advances_await {A} (e : event) (o : outcome A) (lo s : nat) :
  stage e = Some s -> lo <= s -> advances (await e o) lo (S s).
Proof. intros He Hle t H. exact (below_snoc _ He Hle H). Qed.

Lemma advances_log (lo : nat) : advances (emit ConsoleError) lo lo.
Proof. intros t H. apply below_silent; [reflexivity | exact H]. Qed.

Lemma advances_bind {A B} (m : M A) (k : A -> M B) (lo mid hi : nat) :
  mid <= hi -> advances m lo mid -> (forall a, advances (k a) mid hi) ->
  advances (bind m k) lo hi.
Proof.
  intros Hle Hm Hk t H. unfold bind. specialize (Hm t H).
  destruct (m t) as [[a |] t1]; cbn [snd] in *.
  - apply Hk. exact Hm.
  - exact (below_mono Hle Hm).
Qed.

Lemma advances_tryCatch {A} (m h : M A) (lo mid hi : nat) :
  mid <= hi -> advances m lo mid -> advances h mid hi ->
  advances (tryCatch m h) lo hi.
Proof.
  intros Hle Hm Hh t H. unfold tryCatch. specialize (Hm t H).
  destruct (m t) as [[a |] t1]; cbn [snd] in *.
  - exact (below_mono Hle Hm).
  - apply Hh. exact Hm.
Qed.

Lemma advances_weaken {A} (m : M A) (lo hi lo' hi' : nat) :
  lo' <= lo -> hi <= hi' -> advances m lo hi -> advances m lo' hi'.
Proof.
  intros Hl Hh Hm t H. apply (below_mono Hh). apply Hm.
  exact (below_mono Hl H).
Qed.

Lemma advances_logged {A} (a : A) (lo : nat) :
  advances (bind (emit ConsoleError) (fun _ => ret a)) lo lo.
Proof.
  apply advances_bind with (mid := lo); [lia | apply advances_log |].
  intros _. apply advances_ret.
Qed.

Lemma advances_tierMini (w : world) (c : classification) (d : draft) :
  advances (tierMini w c d) 2 3.
Proof.
  unfold tierMini.
  destruct (negb (truthy (reply d)) && negb (risk_eqb (c_risk c) high)).
  - apply advances_tryCatch with (mid := 3); [lia | | apply advances_logged].
    apply advances_bind with (mid := 3); [lia | |].
    + apply advances_await with (s := 2); [reflexivity | lia].
    + intros g. apply advances_ret.
  - apply advances_weaken with (lo := 2) (hi := 2); [lia | lia |].
    apply advances_ret.
Qed.

Lemma advances_tierLarge (msg : jsstring) (w : world) (d : draft) :
  advances (tierLarge msg w d) 3 4.
Proof.
  unfold tierLarge. destruct (negb (truthy (reply d))).
  - apply advances_tryCatch with (mid := 4); [lia | | apply advances_logged].
    apply advances_bind with (mid := 4); [lia | |].
    + apply advances_await with (s := 3); [reflexivity | lia].
    + intros g. apply advances_ret.
  - apply advances_weaken with (lo := 3) (hi := 3); [lia | lia |].
    apply advances_ret.
Qed.

Lemma advances_trackUsage (w : world) (d : draft) :
  advances (trackUsage w d) 4 8.
Proof.
  unfold trackUsage.
  apply advances_bind with (mid := 5); [lia | |].
  { apply advances_await with (s := 4); [reflexivity | lia]. }
  intros existing.
  apply advances_bind with (mid := 6); [lia | |].
  { destruct existing; apply advances_await with (s := 5);
      try reflexivity; lia. }
  intros _.
  apply advances_bind with (mid := 7); [lia | |].
  { destruct (reply d).
    - apply advances_await with (s := 6); [reflexivity | lia].
    - apply advances_weaken with (lo := 6) (hi := 6); [lia | lia |].
      apply advances_throw. }
  intros _. apply advances_await with (s := 7); [reflexivity | lia].
Qed.

Lemma advances_tail (w : world) (c : classification) (used : option bool)
      (t3 : draft + response) :
  advances (match t3 with
            | inr resp => ret resp
            | inl d' =>
                bind (trackUsage w d')
                     (fun _ => ret (Success (interp (reply d')) (c_intent c)
                                            (c_risk c) (route d') used))
            end) 4 8.
Proof.
  destruct t3 as [d | resp].
  - apply advances_bind with (mid := 8); [lia | apply advances_trackUsage |].
    intros _. apply advances_ret.
  - apply advances_weaken with (lo := 4) (hi := 4); [lia | lia |].
    apply advances_ret.
Qed.

Lemma advances_lookup (w : world) (req : request) :
  advances (Ebay.lookupEbayData w req) 1 2.
Proof.
  unfold Ebay.lookupEbayData.
  destruct (truthy (order_id req) || truthy (buyer_name req)).
  - apply advances_tryCatch with (mid := 2); [lia | | apply advances_logged].
    apply advances_await with (s := 1); [reflexivity | lia].
  - apply advances_weaken with (lo := 1) (hi := 1); [lia | lia |].
    apply advances_ret.
Qed.

Lemma advances_generate (h : handler) (w : world) (u : user) (req : request) :
  advances (generateOf h w u req) 0 8.
Proof.
  destruct h; cbn [generateOf].
  - unfold Inline.generate.
    apply advances_tryCatch with (mid := 8); [lia | | apply advances_logged].
    destruct (validMessage (customer_message req)) as [msg |].
    + generalize (classifyIntent_inline msg). intros c.
      apply advances_bind with (mid := 1); [lia | |].
      { apply advances_await with (s := 0); [reflexivity | lia]. }
      intros _.
      apply advances_bind with (mid := 3); [lia | |].
      { apply advances_weaken with (lo := 2) (hi := 3); [lia | lia |].
        apply advances_tierMini. }
      intros d.
      apply advances_bind with (mid := 4); [lia | apply advances_tierLarge |].
      intros t3. apply advances_tail.
    + apply advances_weaken with (lo := 0) (hi := 0); [lia | lia |].
      destruct (customer_message req); try apply advances_throw;
        apply advances_ret.
  - unfold Ebay.generate.
    apply advances_tryCatch with (mid := 8); [lia | | apply advances_logged].
    destruct (validMessage (customer_message req)) as [msg |].
    + generalize (classifyIntent_ebay msg). intros c.
      apply advances_bind with (mid := 1); [lia | |].
      { apply advances_await with (s := 0); [reflexivity | lia]. }
      intros _.
      apply advances_bind with (mid := 2); [lia | apply advances_lookup |].
      intros data.
      apply advances_bind with (mid := 3); [lia | apply advances_tierMini |].
      intros d.
      apply advances_bind with (mid := 4); [lia | apply advances_tierLarge |].
      intros t3. apply advances_tail.
    + apply advances_weaken with (lo := 0) (hi := 0); [lia | lia |].
      destruct (customer_message req); try apply advances_throw;
        apply advances_ret.
Qed.

Lemma sorted_after (l1 l2 : list nat) (s x : nat) :
  StronglySorted lt (l1 ++ s :: l2) -> In x l2 -> s < x.
Proof.
  induction l1 as [| a l1 IH]; cbn [app]; intros H Hin.
  - inversion H; subst.
    match goal with
    | Hf : Forall _ l2 |- _ => rewrite Forall_forall in Hf; exact (Hf _ Hin)
    end.
  - inversion H; subst. apply IH; assumption.
Qed.

Lemma in_stages (e : event) (s : nat) (t : list event) :
  In e t -> stage e = Some s -> In s (stages t).
Proof.
  induction t as [| a t IH]; [intros [] |].
  intros [-> | Hin] He; cbn [stages].
  - rewrite He. left. reflexivity.
  - destruct (stage a); [right |]; apply IH; assumption.
Qed.

(** X11.  In every execution of a generate handler, failing ones
    included, the external calls come in the order of the pipeline and
    each at most once: tone samples, order lookup, low-cost backend,
    high-cost backend, usage select, usage write, reply log, last-active
    update.  In particular the two backends are never called at the same
    stage twice, and no low-cost call follows a high-cost call. *)
Theorem calls_follow_the_pipeline_order :
  forall h w u req,
    StronglySorted lt (stages (traceOf h w u req))
    /\ Forall (fun s => s < 8) (stages (traceOf h w u req))
    /\ (forall before after,
           traceOf h w u req = before ++ CallAnthropic :: after ->
           ~ In CallOpenAI after /\ ~ In CallAnthropic after)
    /\ (forall before after e,
           traceOf h w u req = before ++ e :: after ->
           isAccounting e = true ->
           ~ In CallOpenAI after /\ ~ In CallAnthropic after).
Proof.
  intros h w u req.
  assert (H : below 8 (traceOf h w u req)).
  { apply advances_generate. split; constructor. }
  destruct H as [Hs Hf].
  split; [exact Hs |]. split; [exact Hf |]. split.
  - intros before after E. rewrite E, stages_app in Hs. cbn [stages stage] in Hs.
    split; intros Hin.
    + pose proof (@sorted_after _ _ _ _ Hs (@in_stages _ _ _ Hin eq_refl)). lia.
    + pose proof (@sorted_after _ _ _ _ Hs (@in_stages _ _ _ Hin eq_refl)). lia.
  - intros before after e E He. rewrite E, stages_app in Hs.
    cbn [stages] in Hs.
    destruct e; try discriminate He; cbn [stage] in Hs; split; intros Hin;
      pose proof (@sorted_after _ _ _ _ Hs (@in_stages _ _ _ Hin eq_refl)); lia.
Qed.

End OrderFacts.

(* ================================================================== *)
(** ** What a response says about the events of its request *)
(* ================================================================== *)

Module TraceFacts.
Import Js Classifier Agents Effects Routes Handlers TraceLogic.
Import EffectFacts RouteFacts.
Local Open Scope N_scope.
Local Open Scope effect_scope.

Lemma appends_ret {A} (a : A) : appends (ret a).
Proof. intros t. exists []. cbn. rewrite app_nil_r. reflexivity. Qed.

Lemma appends_throw {A} : appends (@throw A).
Proof. intros t. exists []. cbn. rewrite app_nil_r. reflexivity. Qed.

Lemma appends_await {A} (e : event) (o : outcome A) : appends (await e o).
Proof. intros t. exists [e]. reflexivity. Qed.

Lemma appends_emit (e : event) : appends (emit e).
Proof. intros t. exists [e]. reflexivity. Qed.

Lemma appends_bind {A B} (m : M A) (k : A -> M B) :
  appends m -> (forall a, appends (k a)) -> appends (bind m k).
Proof.
  intros Hm Hk t. unfold bind. destruct (Hm t) as [e1 E1].
  destruct (m t) as [[a |] t1]; cbn [snd] in *.
  - subst t1. destruct (Hk a (t ++ e1)) as [e2 E2].
    exists (e1 ++ e2). rewrite E2, app_assoc. reflexivity.
  - exists e1. exact E1.
Qed.

Lemma appends_tryCatch {A} (m h : M A) :
  appends m -> appends h -> appends (tryCatch m h).
Proof.
  intros Hm Hh t. unfold tryCatch. destruct (Hm t) as [e1 E1].
  destruct (m t) as [[a |] t1]; cbn [snd] in *.
  - exists e1. exact E1.
  - subst t1. destruct (Hh (t ++ e1)) as [e2 E2].
    exists (e1 ++ e2). rewrite E2, app_assoc. reflexivity.
Qed.

Ltac appends_step :=
  first [ apply appends_ret | apply appends_throw | apply appends_await
        | apply appends_emit
        | apply appends_bind; [| intro]
        | apply appends_tryCatch ].

Lemma appends_tierMini (w : world) (c : classification) (d : draft) :
  appends (tierMini w c d).
Proof.
  unfold tierMini.
  destruct (negb (truthy (reply d)) && negb (risk_eqb (c_risk c) high));
    repeat appends_step.
Qed.

Lemma appends_tierLarge (msg : jsstring) (w : world) (d : draft) :
  appends (tierLarge msg w d).
Proof. unfold tierLarge. destruct (negb (truthy (reply d))); repeat appends_step. Qed.

Lemma appends_trackUsage (w : world) (d : draft) : appends (trackUsage w d).
Proof.
  unfold trackUsage. apply appends_bind; [apply appends_await | intros ex].
  apply appends_bind; [destruct ex; apply appends_await | intros _].
  apply appends_bind; [destruct (reply d); repeat appends_step | intros _].
  apply appends_await.
Qed.

Lemma appends_tail (w : world) (c : classification) (used : option bool)
      (t3 : draft + response) :
  appends (match t3 with
           | inr resp => ret resp
           | inl d' =>
               trackUsage w d' ;;;
               ret (Success (interp (reply d')) (c_intent c) (c_risk c)
                            (route d') used)
           end).
Proof.
  destruct t3; [| apply appends_ret].
  apply appends_bind; [apply appends_trackUsage | intros _; apply appends_ret].
Qed.

Lemma appends_lookup (w : world) (req : request) :
  appends (Ebay.lookupEbayData w req).
Proof.
  unfold Ebay.lookupEbayData.
  destruct (truthy (order_id req) || truthy (buyer_name req));
    repeat appends_step.
Qed.

(** *** Rules for [postT] *)

Lemma postT_ret {A} (a : A) (Q : A -> list event -> Prop) :
  Q a [] -> postT (ret a) Q.
Proof.
  intros H t a' t' E. inversion E; subst. exists [].
  rewrite app_nil_r. split; [reflexivity | exact H].
Qed.

Lemma postT_await {A} (e : event) (o : outcome A) (Q : A -> list event -> Prop) :
  (forall a, o = Resolved a -> Q a [e]) -> postT (await e o) Q.
Proof.
  intros H t a t' E. unfold await in E. inversion E; subst.
  exists [e]. split; [reflexivity | apply H; reflexivity].
Qed.

Lemma postT_bind {A B} (m : M A) (k : A -> M B)
      (P : A -> list event -> Prop) (Q : B -> list event -> Prop) :
  postT m P ->
  (forall a e1, P a e1 -> postT (k a) (fun b e2 => Q b (e1 ++ e2))) ->
  postT (bind m k) Q.
Proof.
  intros Hm Hk t b t' E. unfold bind in E.
  destruct (m t) as [[a |] t1] eqn:Em; [| inversion E].
  destruct (Hm _ _ _ Em) as (e1 & -> & HP).
  destruct (Hk a e1 HP _ _ _ E) as (e2 & -> & HQ).
  exists (e1 ++ e2). rewrite app_assoc. split; [reflexivity | exact HQ].
Qed.

Lemma postT_weaken {A} (m : M A) (P Q : A -> list event -> Prop) :
  postT m P -> (forall a e, P a e -> Q a e) -> postT m Q.
Proof.
  intros Hm HPQ t a t' E. destruct (Hm _ _ _ E) as (e & -> & HP).
  exists e. split; [reflexivity | apply HPQ; exact HP].
Qed.

Lemma postT_run {A} (m : M A) (Q : A -> list event -> Prop) (a : A) :
  postT m Q -> fst (run m) = Resolved a -> Q a (snd (run m)).
Proof.
  unfold run. intros Hm E. destruct (m []) as [o t'] eqn:Em.
  cbn [fst snd] in *. subst o.
  destruct (Hm _ _ _ Em) as (e & -> & HQ). exact HQ.
Qed.

(** *** The three tiers and the accounting, with their events *)

Lemma postT_tierMini (w : world) (c : classification) (d : draft) :
  postT (tierMini w c d)
        (fun d' ext =>
           (d' = d /\ ext = []
            /\ (truthy (reply d) = true \/ c_risk c = high))
           \/ (truthy (reply d) = false /\ c_risk c <> high
               /\ exists g, openai w = Resolved g
                            /\ d' = ofGeneration g mini /\ ext = [CallOpenAI])
           \/ (truthy (reply d) = false /\ c_risk c <> high
               /\ openai w = Rejected /\ d' = d
               /\ ext = [CallOpenAI; ConsoleError])).
Proof.
  intros t d' t' E. unfold tierMini in E.
  destruct (truthy (reply d)) eqn:Hr; cbn [negb andb] in E.
  { inversion E; subst. exists []. rewrite app_nil_r.
    split; [reflexivity | left; auto]. }
  destruct (c_risk c) eqn:Hk; cbn [risk_eqb negb] in E;
    try (inversion E; subst; exists []; rewrite app_nil_r;
         split; [reflexivity | left; now auto]);
    unfold tryCatch, bind, await, emit, ret in E;
    destruct (openai w) as [g |] eqn:Ho; inversion E; subst.
  all: first
    [ exists [CallOpenAI]; split; [reflexivity |];
      right; left; repeat split; try discriminate; exists g; now auto
    | exists [CallOpenAI; ConsoleError]; split;
      [rewrite <- app_assoc; reflexivity |];
      right; right; repeat split; try discriminate; now auto ].
Qed.

Lemma postT_tierLarge (un : jsstring) (w : world) (d : draft) :
  postT (tierLarge un w d)
        (fun x ext =>
           (truthy (reply d) = true /\ x = inl d /\ ext = [])
           \/ (truthy (reply d) = false
               /\ exists g, anthropic w = Resolved g
                            /\ x = inl (ofGeneration g large)
                            /\ ext = [CallAnthropic])
           \/ (truthy (reply d) = false /\ anthropic w = Rejected
               /\ x = inr (Failure 500 un)
               /\ ext = [CallAnthropic; ConsoleError])).
Proof.
  intros t x t' E. unfold tierLarge in E.
  destruct (truthy (reply d)) eqn:Hr; cbn [negb] in E.
  { inversion E; subst. exists []. rewrite app_nil_r.
    split; [reflexivity | left; auto]. }
  unfold tryCatch, bind, await, emit, ret in E.
  destruct (anthropic w) as [g |] eqn:Ho; inversion E; subst.
  - exists [CallAnthropic]. split; [reflexivity |].
    right; left. split; [reflexivity |]. exists g. auto.
  - exists [CallAnthropic; ConsoleError]. split;
      [rewrite <- app_assoc; reflexivity |].
    right; right. auto.
Qed.

Lemma postT_trackUsage (w : world) (d : draft) :
  postT (trackUsage w d)
        (fun _ ext =>
           exists r ue, reply d = Some r /\ usageEventOf w d = Some ue
                        /\ ext = accountingEvents ue r
                        /\ accountingResolved w).
Proof.
  intros t x t' E. unfold trackUsage, bind, await, throw in E.
  unfold usageEventOf, accountingEvents, accountingResolved.
  destruct (usageSelect w) as [[ex |] |]; [| | inversion E].
  - destruct (usageWrite w) as [[] |]; [| inversion E].
    destruct (reply d) as [r |]; [| inversion E].
    destruct (replyLogInsert w) as [[] |]; [| inversion E].
    destruct (lastActiveUpdate w) as [[] |]; inversion E; subst.
    exists [SelectUsage; UpdateUsage (updatedRow ex d);
            InsertReplyLog (firstn 2000 r); UpdateLastActive].
    split; [repeat rewrite <- app_assoc; reflexivity |].
    exists r, (UpdateUsage (updatedRow ex d)). repeat split.
  - destruct (usageWrite w) as [[] |]; [| inversion E].
    destruct (reply d) as [r |]; [| inversion E].
    destruct (replyLogInsert w) as [[] |]; [| inversion E].
    destruct (lastActiveUpdate w) as [[] |]; inversion E; subst.
    exists [SelectUsage; InsertUsage (insertedRow d);
            InsertReplyLog (firstn 2000 r); UpdateLastActive].
    split; [repeat rewrite <- app_assoc; reflexivity |].
    exists r, (InsertUsage (insertedRow d)). repeat split.
Qed.

Lemma postT_tail (w : world) (c : classification) (used : option bool)
      (t3 : draft + response) :
  postT (match t3 with
         | inr resp => ret resp
         | inl d' =>
             trackUsage w d' ;;;
             ret (Success (interp (reply d')) (c_intent c) (c_risk c)
                          (route d') used)
         end)
        (fun resp ext =>
           match t3 with
           | inr r0 => resp = r0 /\ ext = []
           | inl d =>
               exists r ue,
                 reply d = Some r /\ usageEventOf w d = Some ue
                 /\ ext = accountingEvents ue r
                 /\ resp = Success r (c_intent c) (c_risk c) (route d) used
                 /\ accountingResolved w
           end).
Proof.
  destruct t3 as [d | r0].
  - eapply postT_bind; [apply postT_trackUsage |].
    intros _ e1 (r & ue & Hr & Hu & -> & Hacc). apply postT_ret.
    exists r, ue. rewrite app_nil_r, Hr. auto 6.
  - apply postT_ret. auto.
Qed.

Lemma postT_lookup (w : world) (req : request) :
  postT (Ebay.lookupEbayData w req) (fun _ ext => lookupEvents EbayHandler ext).
Proof.
  intros t x t' E. unfold Ebay.lookupEbayData in E. cbn [lookupEvents].
  destruct (truthy (order_id req) || truthy (buyer_name req)).
  - unfold tryCatch, bind, await, emit, ret in E.
    destruct (ebayLookup w); inversion E; subst.
    + exists [LookupEbayData]. auto.
    + exists [LookupEbayData; ConsoleError]. rewrite <- app_assoc. auto.
  - inversion E; subst. exists []. rewrite app_nil_r. auto.
Qed.

(** *** Rules for [rejects] *)

Lemma rejects_ret {A} (a : A) (R : Prop) : rejects (ret a) R.
Proof. intros t t' E. inversion E. Qed.

Lemma rejects_await {A} (e : event) (o : outcome A) (R : Prop) :
  (o = Rejected -> R) -> rejects (await e o) R.
Proof. intros H t t' E. inversion E. auto. Qed.

Lemma rejects_bind {A B} (m : M A) (k : A -> M B)
      (P : A -> list event -> Prop) (R : Prop) :
  rejects m R -> postT m P -> (forall a e, P a e -> rejects (k a) R) ->
  rejects (bind m k) R.
Proof.
  intros Hm HP Hk t t' E. unfold bind in E.
  destruct (m t) as [[a |] t1] eqn:Em.
  - destruct (HP _ _ _ Em) as (e1 & _ & Ha). exact (Hk a e1 Ha _ _ E).
  - exact (Hm _ _ Em).
Qed.

Lemma rejects_tryCatch {A} (m h : M A) (R : Prop) :
  rejects h R -> rejects (tryCatch m h) R.
Proof.
  intros Hh t t' E. unfold tryCatch in E.
  destruct (m t) as [[a |] t1]; [inversion E | exact (Hh _ _ E)].
Qed.

Lemma rejects_logged {A} (a : A) (R : Prop) :
  rejects (emit ConsoleError ;;; ret a) R.
Proof. intros t t' E. inversion E. Qed.

Lemma postT_any {A} (m : M A) : appends m -> postT m (fun _ _ => True).
Proof.
  intros Ha t a t' E. destruct (Ha t) as [ext Hx]. rewrite E in Hx.
  exists ext. split; [exact Hx | exact I].
Qed.

Lemma rejects_tierMini (w : world) (c : classification) (d : draft) (R : Prop) :
  rejects (tierMini w c d) R.
Proof.
  unfold tierMini.
  destruct (negb (truthy (reply d)) && negb (risk_eqb (c_risk c) high)).
  - apply rejects_tryCatch, rejects_logged.
  - apply rejects_ret.
Qed.

Lemma rejects_tierLarge (un : jsstring) (w : world) (d : draft) (R : Prop) :
  rejects (tierLarge un w d) R.
Proof.
  unfold tierLarge. destruct (negb (truthy (reply d))).
  - apply rejects_tryCatch, rejects_logged.
  - apply rejects_ret.
Qed.

Lemma rejects_lookup (w : world) (req : request) (R : Prop) :
  rejects (Ebay.lookupEbayData w req) R.
Proof.
  unfold Ebay.lookupEbayData.
  destruct (truthy (order_id req) || truthy (buyer_name req)).
  - apply rejects_tryCatch, rejects_logged.
  - apply rejects_ret.
Qed.

Lemma rejects_trackUsage (w : world) (d : draft) (r : jsstring) :
  reply d = Some r -> rejects (trackUsage w d) (databaseRejected w).
Proof.
  intros Hr t t' E. unfold trackUsage, bind, await in E. rewrite Hr in E.
  unfold databaseRejected.
  destruct (usageSelect w) as [ex |]; [| auto].
  destruct (usageWrite w); [| auto 6].
  destruct (replyLogInsert w); [| auto 6].
  destruct (lastActiveUpdate w); [| auto 6].
  destruct ex; inversion E.
Qed.

Lemma postT_tiers (h : handler) (w : world) (u : user) (c : classification)
      (used : option bool) (d0 : draft) :
  (reply d0 = None
   \/ exists x rr, d0 = ruleDraft (ruleModel h) (x :: rr)
                   /\ templateOf h (c_intent c) u = Some (x :: rr)) ->
  postT (d <- tierMini w c d0 ;;
         t3 <- tierLarge (unavailableOf h) w d ;;
         match t3 with
         | inr resp => ret resp
         | inl d' =>
             trackUsage w d' ;;;
             ret (Success (interp (reply d')) (c_intent c) (c_risk c)
                          (route d') used)
         end)
        (fun resp ext =>
           (forall r i rk rt used',
               resp = Success r i rk rt used' ->
               exists calls d ue,
                 ext = calls ++ accountingEvents ue r
                 /\ draftedBy h w u c rt r d calls
                 /\ usageEventOf w d = Some ue
                 /\ accountingResolved w)
           /\ (isSuccess resp \/ resp = Failure 500 (unavailableOf h))
           /\ (resp = Failure 500 (unavailableOf h) ->
               exists calls,
                 ext = calls ++ [CallAnthropic; ConsoleError]
                 /\ anthropic w = Rejected
                 /\ lowCostAttempt w c calls)).
Proof.
  intros Hd0.
  eapply postT_bind; [apply postT_tierMini |]. intros d e1 H1.
  eapply postT_bind; [apply postT_tierLarge |]. intros t3 e2 H2.
  eapply postT_weaken; [apply postT_tail |]. intros resp e3 H3.
  destruct H2 as [(Ht & -> & ->) | [(Ht & g' & Hg' & -> & ->)
                                   | (Ht & Hrej & -> & ->)]].
  - (* the draft is kept *)
    destruct H3 as (r & ue & Hr & Hu & -> & -> & Hacc).
    split; [| split; [left; unfold isSuccess; eauto 8
                     | intros E; discriminate E]].
    intros r' i rk rt used' E. inversion E; subst r' i rk rt used'. clear E.
    exists e1, d, ue. rewrite app_nil_l. split; [reflexivity |].
    split; [| split; [exact Hu | exact Hacc]].
    destruct H1 as [(-> & -> & _) | [(_ & Hrisk & g & Hg & -> & ->)
                                    | (Hf & _ & _ & -> & _)]].
    + destruct Hd0 as [Hn | (x & rr & -> & Htpl)].
      * rewrite Hn in Hr. discriminate Hr.
      * cbn in Hr. inversion Hr; subst r. left. auto.
    + cbn in Hr. inversion Hr; subst r. right; left.
      split; [reflexivity |]. split; [reflexivity |]. split; [exact Hrisk |].
      exists g. repeat split; [exact Hg |].
      intros D. cbn in Ht. rewrite D in Ht. discriminate Ht.
    + rewrite Hf in Ht. discriminate Ht.
  - (* the high-cost backend drafted *)
    destruct H3 as (r & ue & Hr & Hu & -> & -> & Hacc).
    split; [| split; [left; unfold isSuccess; eauto 8
                     | intros E; discriminate E]].
    intros r' i rk rt used' E. inversion E; subst r' i rk rt used'. clear E.
    cbn in Hr. inversion Hr; subst r.
    exists (e1 ++ [CallAnthropic]), (ofGeneration g' large), ue.
    split; [rewrite <- app_assoc; reflexivity |].
    split; [| split; [exact Hu | exact Hacc]].
    right; right. split; [reflexivity |]. split; [| exists g'; auto].
    destruct H1 as [(-> & -> & Hor) | [(_ & Hrisk & g & Hg & -> & ->)
                                      | (_ & Hrisk & Hrej & _ & ->)]].
    + left. split; [reflexivity |].
      destruct Hor as [Hor | Hor]; [congruence | exact Hor].
    + right; left. split; [reflexivity |]. split; [exact Hrisk |].
      exists g. split; [exact Hg |]. cbn in Ht.
      destruct (g_reply g); [reflexivity | discriminate Ht].
    + right; right. auto.
  - (* the high-cost backend failed *)
    destruct H3 as [-> ->].
    split; [intros r i rk rt used' E; discriminate E |].
    split; [right; reflexivity |].
    intros _. exists e1. rewrite app_nil_r. split; [reflexivity |].
    split; [exact Hrej |]. unfold lowCostAttempt.
    destruct H1 as [(-> & -> & Hor) | [(_ & Hrisk & g & Hg & -> & ->)
                                      | (_ & Hrisk & Hrej1 & _ & ->)]].
    + left. split; [reflexivity |].
      destruct Hor as [Hor | Hor]; [congruence | exact Hor].
    + right; left. split; [reflexivity |]. split; [exact Hrisk |].
      exists g. split; [exact Hg |]. cbn in Ht.
      destruct (g_reply g); [reflexivity | discriminate Ht].
    + right; right. auto.
Qed.

Lemma rejects_tiers (h : handler) (w : world) (c : classification)
      (used : option bool) (d0 : draft) :
  rejects (d <- tierMini w c d0 ;;
           t3 <- tierLarge (unavailableOf h) w d ;;
           match t3 with
           | inr resp => ret resp
           | inl d' =>
               trackUsage w d' ;;;
               ret (Success (interp (reply d')) (c_intent c) (c_risk c)
                            (route d') used)
           end)
          (databaseRejected w).
Proof.
  eapply rejects_bind;
    [apply rejects_tierMini | apply postT_any, appends_tierMini |].
  intros d _ _.
  eapply rejects_bind; [apply rejects_tierLarge | apply postT_tierLarge |].
  intros t3 e2 H2.
  destruct H2 as [(Ht & -> & _) | [(_ & g & _ & -> & _) | (_ & _ & -> & _)]].
  - destruct (reply d) as [r |] eqn:Hr; [| discriminate Ht].
    eapply rejects_bind;
      [exact (rejects_trackUsage w d Hr) | apply postT_any, appends_trackUsage |].
    intros _ _ _. apply rejects_ret.
  - eapply rejects_bind;
      [exact (rejects_trackUsage w (ofGeneration g large) eq_refl)
      | apply postT_any, appends_trackUsage |].
    intros _ _ _. apply rejects_ret.
  - apply rejects_ret.
Qed.

Lemma rejects_weaken {A} (m : M A) (R R' : Prop) :
  rejects m R -> (R -> R') -> rejects m R'.
Proof. intros Hm HR t t' E. exact (HR (Hm _ _ E)). Qed.

Lemma postT_failed (h : handler) (w : world) (u : user) (req : request)
      (e1 : list event) :
  bodyThrows w req ->
  postT (emit ConsoleError ;;; ret (Failure 500 (failedOf h)))
        (fun a e2 => responseTrace h w u req a (e1 ++ e2)).
Proof.
  intros HR. eapply postT_bind with (P := fun _ _ => True).
  { intros t a t' E. inversion E; subst. eauto. }
  intros _ e2 _. apply postT_ret.
  split; [intros r i rk rt used E; discriminate E |].
  split; [intros e E; discriminate E |].
  split; [intros E; destruct h; vm_compute in E; discriminate E |].
  right; right; right. split; [reflexivity | exact HR].
Qed.

Lemma postT_tryCatchR {A} (m h : M A) (R : Prop) (Q : A -> list event -> Prop) :
  postT m Q -> appends m -> rejects m R ->
  (R -> forall e1, postT h (fun a e2 => Q a (e1 ++ e2))) ->
  postT (tryCatch m h) Q.
Proof.
  intros Hm Ha HR Hh t a t' E. unfold tryCatch in E.
  destruct (Ha t) as [e1 E1].
  destruct (m t) as [[a0 |] t1] eqn:Em; cbn [snd] in E1.
  - inversion E; subst. exact (Hm _ _ _ Em).
  - subst t1. destruct (Hh (HR _ _ Em) e1 _ _ _ E) as (e2 & -> & HQ).
    exists (e1 ++ e2). rewrite app_assoc. split; [reflexivity | exact HQ].
Qed.

Lemma postT_invalid (h : handler) (w : world) (u : user) (req : request) :
  validMessage (customer_message req) = None ->
  postT (match customer_message req with
         | Other => throw
         | _ => ret (Failure 400 messageRequired)
         end)
        (responseTrace h w u req).
Proof.
  intros Hv.
  assert (H : customer_message req <> Other ->
              postT (ret (Failure 400 messageRequired))
                    (responseTrace h w u req)).
  { intros Hm. apply postT_ret.
    split; [intros r i rk rt used E; discriminate E |].
    split; [intros e _; split; [reflexivity | split; [exact Hv | exact Hm]] |].
    split; [intros E; destruct h; vm_compute in E; discriminate E |].
    right; left. reflexivity. }
  destruct (customer_message req) as [| s |].
  - apply H. discriminate.
  - apply H. discriminate.
  - intros t a t' E. inversion E.
Qed.

Lemma appends_invalid (v : bodyValue) (resp : response) :
  appends (match v with Other => throw | _ => ret resp end).
Proof. destruct v; try apply appends_throw; apply appends_ret. Qed.

Lemma rejects_invalid (w : world) (req : request) (resp : response) :
  rejects (match customer_message req with Other => throw | _ => ret resp end)
          (bodyThrows w req).
Proof.
  unfold bodyThrows. destruct (customer_message req); try apply rejects_ret.
  intros t t' _. left. reflexivity.
Qed.

Lemma postT_generate (h : handler) (w : world) (u : user) (req : request) :
  postT (generateOf h w u req) (responseTrace h w u req).
Proof.
  destruct h; cbn [generateOf].
  - unfold Inline.generate.
    apply postT_tryCatchR with (R := bodyThrows w req);
      [| | | intros HR e1; exact (postT_failed InlineHandler u e1 HR)].
    + destruct (validMessage (customer_message req)) as [msg |] eqn:Hv;
        [| exact (postT_invalid InlineHandler w u req Hv)].
      set (c := classifyIntent_inline msg).
      eapply postT_bind.
      { apply postT_await with (Q := fun _ ext => ext = [SelectToneSamples]).
        reflexivity. }
      intros _ e1 ->.
      eapply postT_weaken.
      { apply (@postT_tiers InlineHandler w u c None).
        destruct (inline_tierRule_cases c u req)
          as [-> | (x & rr & -> & _ & _ & _ & Ht)]; [left; reflexivity |].
        right. exists x, rr. auto. }
      intros resp ext (Hs & Hkind & Hun). cbn beta.
      split; [| split; [| split]].
      * intros r i rk rt used E.
        destruct (Hs _ _ _ _ _ E) as (calls & d & ue & -> & Hd & Hu & Hacc).
        exists msg. split; [exact Hv |].
        change (classifyOf InlineHandler msg) with c.
        exists [], calls, d, ue. cbn [app lookupEvents]. auto.
      * intros e E. subst resp.
        destruct Hkind as [(r & i & rk & rt & used & D) | D]; discriminate D.
      * intros E. destruct (Hun E) as (calls & -> & Ha & Hc).
        exists msg. split; [exact Hv |].
        change (classifyOf InlineHandler msg) with c.
        exists [], calls. cbn [app lookupEvents]. auto.
      * destruct Hkind as [Hk | Hk]; [left; exact Hk | right; right; left; exact Hk].
    + destruct (validMessage (customer_message req));
        [| apply appends_invalid].
      repeat appends_step.
      * apply appends_tierMini.
      * apply appends_tierLarge.
      * apply appends_tail.
    + destruct (validMessage (customer_message req));
        [| apply rejects_invalid].
      apply rejects_weaken with (R := databaseRejected w);
        [| intros HR; right; exact HR].
      eapply rejects_bind with (P := fun _ _ => True).
      * apply rejects_await. unfold databaseRejected. auto.
      * apply postT_any, appends_await.
      * intros _ _ _. apply (@rejects_tiers InlineHandler).
  - unfold Ebay.generate.
    apply postT_tryCatchR with (R := bodyThrows w req);
      [| | | intros HR e1; exact (postT_failed EbayHandler u e1 HR)].
    + destruct (validMessage (customer_message req)) as [msg |] eqn:Hv;
        [| exact (postT_invalid EbayHandler w u req Hv)].
      set (c := classifyIntent_ebay msg).
      eapply postT_bind.
      { apply postT_await with (Q := fun _ ext => ext = [SelectToneSamples]).
        reflexivity. }
      intros _ e1 ->.
      eapply postT_bind; [apply postT_lookup |]. intros data lookup Hl.
      eapply postT_weaken.
      { apply (@postT_tiers EbayHandler w u c (Some (negb (Ebay.isNull data)))).
        destruct (ebay_tierRule_cases c u req data)
          as [-> | (x & rr & -> & _ & _ & _ & _ & Ht)]; [left; reflexivity |].
        right. exists x, rr. auto. }
      intros resp ext (Hs & Hkind & Hun). cbn beta.
      split; [| split; [| split]].
      * intros r i rk rt used E.
        destruct (Hs _ _ _ _ _ E) as (calls & d & ue & -> & Hd & Hu & Hacc).
        exists msg. split; [exact Hv |].
        change (classifyOf EbayHandler msg) with c.
        exists lookup, calls, d, ue. cbn [app]. auto.
      * intros e E. subst resp.
        destruct Hkind as [(r & i & rk & rt & used & D) | D]; discriminate D.
      * intros E. destruct (Hun E) as (calls & -> & Ha & Hc).
        exists msg. split; [exact Hv |].
        change (classifyOf EbayHandler msg) with c.
        exists lookup, calls. cbn [app]. auto.
      * destruct Hkind as [Hk | Hk]; [left; exact Hk | right; right; left; exact Hk].
    + destruct (validMessage (customer_message req));
        [| apply appends_invalid].
      repeat appends_step.
      * apply appends_lookup.
      * apply appends_tierMini.
      * apply appends_tierLarge.
      * apply appends_tail.
    + destruct (validMessage (customer_message req));
        [| apply rejects_invalid].
      apply rejects_weaken with (R := databaseRejected w);
        [| intros HR; right; exact HR].
      eapply rejects_bind with (P := fun _ _ => True).
      * apply rejects_await. unfold databaseRejected. auto.
      * apply postT_any, appends_await.
      * intros _ _ _.
        eapply rejects_bind;
          [apply rejects_lookup | apply postT_any, appends_lookup |].
        intros data _ _. apply (@rejects_tiers EbayHandler).
Qed.

Lemma generate_resolves (h : handler) (w : world) (u : user) (req : request) :
  exists resp, responseOf h w u req = Resolved resp.
Proof.
  unfold responseOf, run.
  destruct (generateOf h w u req []) as [[resp |] t'] eqn:E.
  - exists resp. reflexivity.
  - exfalso. revert E. generalize (@nil event) t'.
    change (rejects (generateOf h w u req) False).
    destruct h; apply rejects_tryCatch, rejects_logged.
Qed.

(** *** What follows for a request *)

Lemma response_trace (h : handler) (w : world) (u : user) (req : request)
      (resp : response) :
  responseOf h w u req = Resolved resp ->
  responseTrace h w u req resp (traceOf h w u req).
Proof.
  intros E. exact (postT_run (postT_generate h w u req) E).
Qed.

Lemma lookup_no_accounting (h : handler) (l : list event) :
  lookupEvents h l ->
  Forall (fun e => isAccounting e = false) l /\ filter isBackend l = [].
Proof.
  destruct h; cbn [lookupEvents].
  - intros ->. split; [constructor | reflexivity].
  - intros [-> | [-> | ->]]; split; repeat constructor.
Qed.

Lemma usageEventOf_written (w : world) (d : draft) (ue : event) :
  usageEventOf w d = Some ue ->
  ue = usageWriteOf w (updatedRow (existingRow w) d)
  /\ usageSelect w <> Rejected /\ isBackend ue = false.
Proof.
  unfold usageEventOf, usageWriteOf, existingRow.
  destruct (usageSelect w) as [[ex |] |]; intros E; inversion E; subst.
  - repeat split. discriminate.
  - repeat split. discriminate.
Qed.

(** X12.  A reply is sent only after the accounting: in the trace of a
    success response the last four events are the usage select, the
    usage write, the insert into the reply log of the first 2000 code
    units of the returned reply, and the last-active update, nothing
    before them touches the accounting tables, and each of the four
    calls resolved. *)
Theorem reply_is_sent_after_the_accounting :
  forall h w u req r i rk rt used,
    responseOf h w u req = Resolved (Success r i rk rt used) ->
    (exists pre row,
        traceOf h w u req
        = pre ++ [SelectUsage; usageWriteOf w row;
                  InsertReplyLog (firstn 2000 r); UpdateLastActive]
        /\ Forall (fun e => isAccounting e = false) pre)
    /\ usageSelect w <> Rejected
    /\ usageWrite w = Resolved tt
    /\ replyLogInsert w = Resolved tt
    /\ lastActiveUpdate w = Resolved tt.
Proof.
  intros h w u req r i rk rt used E.
  destruct (response_trace _ _ _ _ E) as (Hs & _ & _ & _).
  destruct (Hs _ _ _ _ _ eq_refl)
    as (msg & _ & lookup & calls & d & ue & Ht & Hl & Hd & Hu & Hw & Hlog & Ha).
  destruct (usageEventOf_written _ _ Hu) as (-> & Hsel & _).
  split; [| auto].
  exists (SelectToneSamples :: lookup ++ calls), (updatedRow (existingRow w) d).
  split.
  - rewrite Ht. cbn [app]. rewrite <- app_assoc. reflexivity.
  - constructor; [reflexivity |]. apply Forall_app. split.
    + exact (proj1 (lookup_no_accounting _ _ Hl)).
    + destruct Hd as [(_ & -> & _) | [(_ & -> & _) | (_ & Hc & _)]];
        [| | destruct Hc as [(-> & _) | [(-> & _) | (-> & _)]]];
        repeat constructor.
Qed.

(** X13.  The usage write of a success response counts the reply once:
    the written row is today's row (zeros when there is none) with
    [replies_count] one higher, exactly one of the three route counters
    one higher, namely the one of the response's route, and the tokens
    of the backend that drafted the reply added (nothing for the rule
    tier; a failed or empty low-cost attempt is not counted).  A row
    whose counters add up to [replies_count] stays so. *)
Theorem usage_write_counts_the_reply_once :
  forall h w u req r i rk rt used,
    responseOf h w u req = Resolved (Success r i rk rt used) ->
    exists row,
      In (usageWriteOf w row) (traceOf h w u req)
      /\ replies_count row = replies_count (existingRow w) + 1
      /\ rule_count row = rule_count (existingRow w) + bump rt rule
      /\ mini_count row = mini_count (existingRow w) + bump rt mini
      /\ large_count row = large_count (existingRow w) + bump rt large
      /\ bump rt rule + bump rt mini + bump rt large = 1
      /\ tokens_used row = tokens_used (existingRow w) + tokensSpent w rt
      /\ (balanced (existingRow w) -> balanced row).
Proof.
  intros h w u req r i rk rt used E.
  destruct (response_trace _ _ _ _ E) as (Hs & _ & _ & _).
  destruct (Hs _ _ _ _ _ eq_refl)
    as (msg & _ & lookup & calls & d & ue & Ht & Hl & Hd & Hu & _).
  destruct (usageEventOf_written _ _ Hu) as (-> & _ & _).
  exists (updatedRow (existingRow w) d). split.
  { rewrite Ht. right. apply in_or_app. right. apply in_or_app. right.
    right. left. reflexivity. }
  generalize (existingRow w). intros ex. unfold balanced.
  destruct Hd as [(-> & _ & _ & ->) | [(-> & _ & _ & g & Hg & -> & _)
                                      | (-> & _ & g & Hg & -> & _)]];
    unfold tokensSpent; try rewrite Hg; cbn; repeat split; lia.
Qed.

(** X14.  The backend calls behind a success response are those of its
    route: none for [rule]; one call to the low-cost backend for [mini];
    for [large] one call to the high-cost backend, alone when the risk
    is high and otherwise preceded by the one call to the low-cost
    backend that rejected or returned an empty reply.  A success
    response always names one of the three routes. *)
Theorem backend_calls_of_a_route :
  forall h w u req r i rk rt used,
    responseOf h w u req = Resolved (Success r i rk rt used) ->
    match rt with
    | Some rule => filter isBackend (traceOf h w u req) = []
    | Some mini =>
        filter isBackend (traceOf h w u req) = [CallOpenAI] /\ rk <> high
    | Some large =>
        (rk = high /\ filter isBackend (traceOf h w u req) = [CallAnthropic])
        \/ (rk <> high
            /\ filter isBackend (traceOf h w u req) = [CallOpenAI; CallAnthropic]
            /\ (openai w = Rejected
                \/ exists g, openai w = Resolved g /\ g_reply g = []))
    | None => False
    end.
Proof.
  intros h w u req r i rk rt used E.
  destruct (success_facts h w u req E) as (msg0 & Hv0 & _ & Hk & _).
  destruct (response_trace _ _ _ _ E) as (Hs & _ & _ & _).
  destruct (Hs _ _ _ _ _ eq_refl)
    as (msg & Hv & lookup & calls & d & ue & Ht & Hl & Hd & Hu & _).
  rewrite Hv0 in Hv. inversion Hv; subst msg0.
  unfold draftedBy in Hd. rewrite <- Hk in Hd.
  destruct (usageEventOf_written _ _ Hu) as (_ & _ & Hb).
  assert (Hf : filter isBackend (traceOf h w u req) = filter isBackend calls).
  { rewrite Ht. cbn [filter isBackend isOpenAI isAnthropic orb].
    rewrite !filter_app, (proj2 (lookup_no_accounting _ _ Hl)).
    cbn [app accountingEvents filter]. rewrite Hb.
    cbn [isBackend isOpenAI isAnthropic orb]. apply app_nil_r. }
  rewrite Hf.
  destruct Hd as [(-> & -> & _) | [(-> & -> & Hr & _) | (-> & Hc & _)]];
    [reflexivity | split; [reflexivity | exact Hr] |].
  destruct Hc as [(-> & Hr) | [(-> & Hr & Hg) | (-> & Hr & Hg)]].
  - left. split; [exact Hr | reflexivity].
  - right. split; [exact Hr |]. split; [reflexivity | right; exact Hg].
  - right. split; [exact Hr |]. split; [reflexivity | left; exact Hg].
Qed.

(** X15.  The answer "AI service unavailable" is given only when the
    high-cost backend was called and rejected, after the low-cost
    backend was skipped for a high risk, rejected, or returned an empty
    reply; that call and its log line are the last events of the
    request, no usage is counted and nothing is written to the reply
    log. *)
Theorem unavailable_means_the_last_backend_failed :
  forall h w u req,
    responseOf h w u req = Resolved (Failure 500 (unavailableOf h)) ->
    anthropic w = Rejected
    /\ (exists msg,
           validMessage (customer_message req) = Some msg
           /\ (c_risk (classifyOf h msg) = high
               \/ openai w = Rejected
               \/ exists g, openai w = Resolved g /\ g_reply g = []))
    /\ (exists pre, traceOf h w u req = pre ++ [CallAnthropic; ConsoleError])
    /\ Forall (fun e => isAccounting e = false) (traceOf h w u req).
Proof.
  intros h w u req E.
  destruct (response_trace _ _ _ _ E) as (_ & _ & Hun & _).
  destruct (Hun eq_refl) as (msg & Hv & lookup & calls & Ht & Hl & Ha & Hc).
  split; [exact Ha |]. split; [| split].
  - exists msg. split; [exact Hv |].
    destruct Hc as [(_ & Hr) | [(_ & _ & Hg) | (_ & _ & Hg)]]; auto.
  - exists (SelectToneSamples :: lookup ++ calls). rewrite Ht.
    cbn [app]. rewrite <- app_assoc. reflexivity.
  - rewrite Ht. constructor; [reflexivity |]. apply Forall_app. split.
    + exact (proj1 (lookup_no_accounting _ _ Hl)).
    + destruct Hc as [(-> & _) | [(-> & _) | (-> & _)]]; repeat constructor.
Qed.

Lemma validMessage_none (m : bodyValue) :
  validMessage m = None
  <-> (forall s, m = Text s -> (length (trim s) < 3)%nat).
Proof.
  unfold validMessage. destruct m as [| [| c r] |].
  - split; [| reflexivity]. intros _ s E. discriminate E.
  - split; [| reflexivity]. intros _ s E. inversion E; subst. cbn. lia.
  - destruct (N.ltb_spec (N.of_nat (length (trim (c :: r)))) 3) as [Hl | Hl].
    + split; [| reflexivity]. intros _ s E. inversion E; subst. lia.
    + split; [intros E; discriminate E |].
      intros H. specialize (H _ eq_refl). lia.
  - split; [| reflexivity]. intros _ s E. discriminate E.
Qed.

Lemma refused_response (h : handler) (w : world) (u : user) (req : request) :
  validMessage (customer_message req) = None ->
  customer_message req <> Other ->
  responseOf h w u req = Resolved (Failure 400 messageRequired).
Proof.
  intros Hv Hm. unfold responseOf, run.
  destruct h; cbn [generateOf]; unfold Inline.generate, Ebay.generate;
    rewrite Hv; destruct (customer_message req);
    try reflexivity; destruct (Hm eq_refl).
Qed.

Lemma ill_typed_response (h : handler) (w : world) (u : user) (req : request) :
  customer_message req = Other ->
  responseOf h w u req = Resolved (Failure 500 (failedOf h))
  /\ traceOf h w u req = [ConsoleError].
Proof.
  intros Hm. unfold responseOf, traceOf, run.
  destruct h; cbn [generateOf]; unfold Inline.generate, Ebay.generate;
    rewrite Hm; split; reflexivity.
Qed.

(** X16.  A request is answered 400 "Customer message is required"
    exactly when its message is missing (or another falsy value) or is
    a string with fewer than three code units once trimmed, the empty
    string included; such a request issues no external call at all, and
    no other request gets a 400: a truthy message that is not a string
    does not. *)
Theorem short_message_is_refused_without_any_call :
  forall h w u req,
    ((customer_message req <> Other
      /\ forall s, customer_message req = Text s ->
                   (length (trim s) < 3)%nat)
     <-> responseOf h w u req = Resolved (Failure 400 messageRequired))
    /\ (forall e, responseOf h w u req = Resolved (Failure 400 e) ->
                  e = messageRequired /\ traceOf h w u req = []).
Proof.
  intros h w u req.
  split; [split |].
  - intros [Hm H]. apply refused_response; [| exact Hm].
    apply validMessage_none. exact H.
  - intros E.
    destruct (response_trace _ _ _ _ E) as (_ & H400 & _ & _).
    destruct (H400 _ eq_refl) as (_ & Hv & Hm).
    split; [exact Hm | apply validMessage_none; exact Hv].
  - intros e E.
    destruct (response_trace _ _ _ _ E) as (_ & H400 & _ & _).
    destruct (H400 _ eq_refl) as (Ht & Hv & Hm). split; [| exact Ht].
    rewrite (refused_response h w u req Hv Hm) in E. inversion E. reflexivity.
Qed.

Lemma template_intents (h : handler) (i : intent) (u : user) (r : jsstring) :
  templateOf h i u = Some r -> In i (off_platform :: ruleIntents h).
Proof.
  destruct h, i; cbn [templateOf Inline.getRuleBasedReply Ebay.getRuleReply];
    intros E; try discriminate E; cbn; auto 8.
Qed.

(** X17.  A reply of the rule tier is always for a low-risk intent that
    has a template: tracking, positive feedback or a shipping inquiry,
    and in the inline handler also an item question.  The off-platform
    template of either handler is never used, since that intent is high
    risk; and the confidence is 80 or 95. *)
Theorem rule_replies_are_for_templated_low_risk_intents :
  forall h w u req r i rk used,
    responseOf h w u req = Resolved (Success r i rk (Some rule) used) ->
    In i (ruleIntents h) /\ i <> off_platform /\ rk = low
    /\ templateOf h i u = Some r
    /\ exists msg, validMessage (customer_message req) = Some msg
                   /\ (confidence (classifyOf h msg) = 80
                       \/ confidence (classifyOf h msg) = 95).
Proof.
  intros h w u req r i rk used E.
  destruct (success_facts h w u req E)
    as (msg & Hv & Hi & Hk & Hf & Hrule & _).
  destruct (Hrule eq_refl) as (Hc & Hl & _).
  assert (Hrisk : Spec.riskOf i = low).
  { rewrite Hi, <- Hl. symmetry. destruct h; apply ClassifierFacts.risk_is_riskOf. }
  assert (Ht : templateOf h i u = Some r).
  { destruct Hf as [(_ & Ht) | [(D & _) | (D & _)]]; try discriminate D.
    rewrite Hi. exact Ht. }
  assert (Hoff : i <> off_platform).
  { intros ->. discriminate Hrisk. }
  split; [| split; [exact Hoff | split; [congruence | split; [exact Ht |]]]].
  - destruct (template_intents _ _ _ Ht) as [<- | Hin]; [| exact Hin].
    destruct (Hoff eq_refl).
  - exists msg. split; [exact Hv |].
    revert Hc. destruct h; cbn [classifyOf];
      unfold classifyIntent_inline, classifyIntent_ebay, classifyIntent;
      match goal with
      | |- context [bestOf ?t ?m] => destruct (bestOf t m) as [i' b]
      end; cbn [confidence]; intros Hc;
      (assert (b = 2 \/ 3 <= b) as [-> | Hb] by lia;
       [left; reflexivity | right; lia]).
Qed.

(** X18.  Every generate request is answered, with one of four answers:
    a reply, 400 "Customer message is required", 500 "AI service
    unavailable", or the generic 500 of the outer [catch].  The generic
    500 is given only when the message is a truthy value that is not a
    string, on which [trim] throws, or when one of the awaited database
    calls (tone samples, usage select, usage write, reply log,
    last-active update) rejected; a failing backend alone never produces
    it.  A truthy message that is not a string always gets the generic
    500, and no external call is issued for it. *)
Theorem every_request_is_answered :
  forall h w u req,
    (exists resp,
        responseOf h w u req = Resolved resp
        /\ (isSuccess resp
            \/ resp = Failure 400 messageRequired
            \/ resp = Failure 500 (unavailableOf h)
            \/ (resp = Failure 500 (failedOf h)
                /\ (customer_message req = Other
                    \/ toneSamples w = Rejected \/ usageSelect w = Rejected
                    \/ usageWrite w = Rejected \/ replyLogInsert w = Rejected
                    \/ lastActiveUpdate w = Rejected))))
    /\ (customer_message req = Other ->
        responseOf h w u req = Resolved (Failure 500 (failedOf h))
        /\ traceOf h w u req = [ConsoleError]).
Proof.
  intros h w u req. split; [| apply ill_typed_response].
  destruct (generate_resolves h w u req) as [resp E].
  exists resp. split; [exact E |].
  destruct (response_trace _ _ _ _ E) as (_ & _ & _ & Hk). exact Hk.
Qed.

(** X19.  The writer agent and the generate handlers follow the same
    backend policy.  When the low-cost backend never returns an empty
    reply, a success response that does not come from the rule tier
    carries the reply the writer agent returns for the same risk, and
    the handler issued the same backend calls in the same order. *)
Theorem writer_agent_agrees_with_the_handlers :
  forall h w u req r i rk rt used,
    responseOf h w u req = Resolved (Success r i rk rt used) ->
    rt <> Some rule ->
    (forall g, openai w = Resolved g -> g_reply g <> []) ->
    exists g,
      fst (run (writerAgent w rk)) = Resolved g /\ g_reply g = r
      /\ snd (run (writerAgent w rk)) = filter isBackend (traceOf h w u req).
Proof.
  intros h w u req r i rk rt used E Hrt Hne.
  destruct (success_facts h w u req E) as (msg0 & Hv0 & _ & Hk & _).
  destruct (response_trace _ _ _ _ E) as (Hs & _ & _ & _).
  destruct (Hs _ _ _ _ _ eq_refl)
    as (msg & Hv & lookup & calls & d & ue & Ht & Hl & Hd & Hu & _).
  rewrite Hv0 in Hv. inversion Hv; subst msg0.
  unfold draftedBy in Hd. rewrite <- Hk in Hd.
  destruct (usageEventOf_written _ _ Hu) as (_ & _ & Hb).
  assert (Hf : filter isBackend (traceOf h w u req) = filter isBackend calls).
  { rewrite Ht. cbn [filter isBackend isOpenAI isAnthropic orb].
    rewrite !filter_app, (proj2 (lookup_no_accounting _ _ Hl)).
    cbn [app accountingEvents filter]. rewrite Hb.
    cbn [isBackend isOpenAI isAnthropic orb]. apply app_nil_r. }
  rewrite Hf. unfold run, writerAgent.
  destruct Hd as [(-> & _) | [(_ & -> & Hr & g & Hg & _ & -> & _)
                             | (_ & Hc & g & Hg & _ & ->)]].
  - destruct (Hrt eq_refl).
  - exists g. destruct rk; try (destruct (Hr eq_refl));
      cbn [risk_eqb]; unfold tryCatch, await; rewrite Hg; repeat split.
  - destruct Hc as [(-> & ->) | [(-> & Hr & g1 & Hg1 & He) | (-> & Hr & Hrej)]].
    + exists g. cbn [risk_eqb]. unfold await. rewrite Hg. repeat split.
    + destruct (Hne _ Hg1 He).
    + exists g. destruct rk; try (destruct (Hr eq_refl));
        cbn [risk_eqb]; unfold tryCatch, await; rewrite Hrej, Hg; repeat split.
Qed.

(** X23.  A valid request gets its reply whenever the database calls
    resolve and a backend that the routing reaches answers: the
    high-cost backend, or, for a risk that is not high, the low-cost
    backend with a reply that is not empty. *)
Theorem valid_request_succeeds_when_a_backend_answers :
  forall h w u req msg,
    validMessage (customer_message req) = Some msg ->
    toneSamples w = Resolved tt ->
    usageSelect w <> Rejected ->
    usageWrite w = Resolved tt ->
    replyLogInsert w = Resolved tt ->
    lastActiveUpdate w = Resolved tt ->
    (anthropic w <> Rejected
     \/ (c_risk (classifyOf h msg) <> high
         /\ exists g, openai w = Resolved g /\ g_reply g <> [])) ->
    exists r i rk rt used,
      responseOf h w u req = Resolved (Success r i rk rt used).
Proof.
  intros h w u req msg Hv Htone Hsel Hwrite Hlog Hact Hback.
  destruct (generate_resolves h w u req) as [resp E].
  destruct (response_trace _ _ _ _ E) as (_ & H400 & Hun & Hk).
  destruct Hk as [(r & i & rk & rt & used & ->) | [-> | [-> | (-> & HR)]]].
  - exists r, i, rk, rt, used. exact E.
  - destruct (H400 _ eq_refl) as (_ & Hn & _). rewrite Hv in Hn.
    discriminate Hn.
  - destruct (Hun eq_refl) as (msg' & Hv' & lookup & calls & _ & _ & Ha & Hc).
    rewrite Hv in Hv'. inversion Hv'; subst msg'.
    destruct Hback as [Hb | (Hrisk & g & Hg & Hne)]; [destruct (Hb Ha) |].
    destruct Hc as [(_ & Hr) | [(_ & _ & g1 & Hg1 & He) | (_ & _ & Hrej)]].
    + destruct (Hrisk Hr).
    + rewrite Hg in Hg1. inversion Hg1; subst g1. destruct (Hne He).
    + rewrite Hg in Hrej. discriminate Hrej.
  - destruct HR as [D | [D | [D | [D | [D | D]]]]]; try congruence.
    rewrite D in Hv. discriminate Hv.
Qed.

End TraceFacts.

(* ================================================================== *)
(** ** Accounting queries that resolve with an error *)
(* ================================================================== *)

Module AccountingFacts.
Import Js Classifier Agents Effects Routes Handlers TraceLogic Supabase.
Import EffectFacts RouteFacts TraceFacts.
Local Open Scope N_scope.
Local Open Scope effect_scope.

Lemma sameValue_ret {A} (a : A) : sameValue (ret a) (ret a).
Proof. intros t t'. reflexivity. Qed.

Lemma sameValue_throw {A} : sameValue (@throw A) (@throw A).
Proof. intros t t'. reflexivity. Qed.

Lemma sameValue_await {A} (e e' : event) (o : outcome A) :
  sameValue (await e o) (await e' o).
Proof. intros t t'. reflexivity. Qed.

Lemma sameValue_emit (e e' : event) : sameValue (emit e) (emit e').
Proof. intros t t'. reflexivity. Qed.

Lemma sameValue_bind {A B} (m m' : M A) (k k' : A -> M B) :
  sameValue m m' -> (forall a, sameValue (k a) (k' a)) ->
  sameValue (bind m k) (bind m' k').
Proof.
  intros Hm Hk t t'. unfold bind. specialize (Hm t t').
  destruct (m t) as [[a |] t1], (m' t') as [[a' |] t1'];
    cbn [fst] in Hm; try discriminate Hm.
  - inversion Hm; subst. apply Hk.
  - reflexivity.
Qed.

Lemma sameValue_tryCatch {A} (m m' h h' : M A) :
  sameValue m m' -> sameValue h h' ->
  sameValue (tryCatch m h) (tryCatch m' h').
Proof.
  intros Hm Hh t t'. unfold tryCatch. specialize (Hm t t').
  destruct (m t) as [[a |] t1], (m' t') as [[a' |] t1'];
    cbn [fst] in Hm; try discriminate Hm.
  - exact Hm.
  - apply Hh.
Qed.

Section Served.
Variable db : database.
Variable b : backends.

(** The accounting resolves whatever the queries resolve with; it throws
    only on an undefined reply. *)
Lemma trackUsage_value (d : draft) (t : list event) :
  fst (trackUsage (worldOf db b) d t)
  = match reply d with
    | Some _ => Resolved tt
    | None => Rejected
    end.
Proof.
  unfold trackUsage, bind, await. cbn [worldOf usageSelect usageWrite
    replyLogInsert lastActiveUpdate].
  destruct (data (usageQuery db)); destruct (reply d); reflexivity.
Qed.

Lemma resolves_lookup (req : request) :
  resolves (Ebay.lookupEbayData (worldOf db b) req)
           (fun x => x = lookedUp b req).
Proof.
  unfold Ebay.lookupEbayData, lookedUp. cbn [worldOf ebayLookup].
  destruct (truthy (order_id req) || truthy (buyer_name req));
    [| apply resolves_ret; reflexivity].
  destruct (lookup b) as [x |].
  - apply resolves_try. apply resolves_await. reflexivity.
  - intros t. unfold tryCatch, await, bind, emit, ret. eauto.
Qed.

Lemma resolves_tierMini_kept (c : classification) (d : draft) :
  truthy (reply d) = true ->
  resolves (tierMini (worldOf db b) c d) (fun d' => d' = d).
Proof.
  intros Hr. unfold tierMini. rewrite Hr. cbn [negb andb].
  apply resolves_ret. reflexivity.
Qed.

Lemma resolves_tierMini_drafts (c : classification) (d : draft)
      (g : generation) :
  truthy (reply d) = false -> c_risk c <> high ->
  lowCost b = Resolved g ->
  resolves (tierMini (worldOf db b) c d) (fun d' => d' = ofGeneration g mini).
Proof.
  intros Hr Hk Hg. unfold tierMini. rewrite Hr. cbn [negb andb worldOf openai].
  rewrite Hg.
  destruct (c_risk c); try (destruct (Hk eq_refl)); cbn [risk_eqb negb];
    apply resolves_try;
    (eapply resolves_bind;
     [apply resolves_await with (Q := fun a => a = g); reflexivity |]);
    intros a ->; apply resolves_ret; reflexivity.
Qed.

Lemma resolves_tierLarge_kept (un : jsstring) (d : draft) :
  truthy (reply d) = true ->
  resolves (tierLarge un (worldOf db b) d) drafted.
Proof.
  intros Hr. unfold tierLarge. rewrite Hr. cbn [negb].
  apply resolves_ret.
  destruct (reply d) as [r |] eqn:E; [| discriminate Hr].
  exists d, r. auto.
Qed.

Lemma truthy_nonempty (r : jsstring) : r <> [] -> truthy (Some r) = true.
Proof. destruct r; [intros H; destruct (H eq_refl) | reflexivity]. Qed.

(** The three tiers and the accounting, once a reply is drafted. *)
Lemma resolves_tiers (c : classification) (d0 : draft) (un : jsstring)
      (used : option bool) :
  truthy (reply d0) = true
  \/ (c_risk c <> high /\ exists g, lowCost b = Resolved g /\ g_reply g <> [])
  \/ highCost b <> Rejected ->
  resolves (d <- tierMini (worldOf db b) c d0 ;;
            t3 <- tierLarge un (worldOf db b) d ;;
            match t3 with
            | inr resp => ret resp
            | inl d' =>
                trackUsage (worldOf db b) d' ;;;
                ret (Success (interp (reply d')) (c_intent c) (c_risk c)
                             (route d') used)
            end) isSuccess.
Proof.
  intros H.
  assert (Htail : forall t3 : draft + response,
             drafted t3 ->
             resolves (match t3 with
                       | inr resp => ret resp
                       | inl d' =>
                           trackUsage (worldOf db b) d' ;;;
                           ret (Success (interp (reply d')) (c_intent c)
                                        (c_risk c) (route d') used)
                       end) isSuccess).
  { intros t3. apply (@resolves_tail (worldOf db b) (data (usageQuery db)));
      reflexivity. }
  destruct (truthy (reply d0)) eqn:Hr0.
  - eapply resolves_bind; [apply (resolves_tierMini_kept c d0 Hr0) |].
    intros d ->.
    eapply resolves_bind; [apply (resolves_tierLarge_kept un d0 Hr0) |].
    exact Htail.
  - destruct H as [H | [(Hk & g & Hg & Hne) | H]]; [discriminate H | |].
    + eapply resolves_bind; [apply (resolves_tierMini_drafts c d0 Hr0 Hk Hg) |].
      intros d ->.
      eapply resolves_bind; [| exact Htail].
      apply resolves_tierLarge_kept. cbn [ofGeneration reply].
      apply truthy_nonempty. exact Hne.
    + destruct (highCost b) as [g |] eqn:Hg; [| destruct (H eq_refl)].
      eapply resolves_bind; [apply resolves_tierMini |]. intros d _.
      eapply resolves_bind; [| exact Htail].
      apply (@resolves_tierLarge (worldOf db b) un d g). exact Hg.
Qed.

Lemma drafted_reply_is_returned (h : handler) (u : user) (req : request)
      (msg : jsstring) :
  validMessage (customer_message req) = Some msg ->
  replyDrafted h b u req msg ->
  exists resp, responseOf h (worldOf db b) u req = Resolved resp
               /\ isSuccess resp.
Proof.
  intros Hv Hd. unfold responseOf. apply resolves_run.
  destruct h; cbn [generateOf].
  - unfold Inline.generate. rewrite Hv. apply resolves_try.
    eapply resolves_bind;
      [apply resolves_await with (Q := fun _ => True); exact I |].
    intros _ _. apply resolves_tiers. exact Hd.
  - unfold Ebay.generate. rewrite Hv. apply resolves_try.
    eapply resolves_bind;
      [apply resolves_await with (Q := fun _ => True); exact I |].
    intros _ _.
    eapply resolves_bind; [apply resolves_lookup |].
    intros x ->. apply resolves_tiers. exact Hd.
Qed.

End Served.

Section Independent.
Variables db db' : database.
Variable b : backends.

Lemma sameValue_trackUsage (d : draft) :
  sameValue (trackUsage (worldOf db b) d) (trackUsage (worldOf db' b) d).
Proof. intros t t'. rewrite !trackUsage_value. reflexivity. Qed.

Lemma sameValue_tierMini (c : classification) (d : draft) :
  sameValue (tierMini (worldOf db b) c d) (tierMini (worldOf db' b) c d).
Proof.
  unfold tierMini. cbn [worldOf openai].
  destruct (negb (truthy (reply d)) && negb (risk_eqb (c_risk c) high));
    [| apply sameValue_ret].
  apply sameValue_tryCatch.
  - apply sameValue_bind; [apply sameValue_await |].
    intros g. apply sameValue_ret.
  - apply sameValue_bind; [apply sameValue_emit |].
    intros _. apply sameValue_ret.
Qed.

Lemma sameValue_tierLarge (un : jsstring) (d : draft) :
  sameValue (tierLarge un (worldOf db b) d) (tierLarge un (worldOf db' b) d).
Proof.
  unfold tierLarge. cbn [worldOf anthropic].
  destruct (negb (truthy (reply d))); [| apply sameValue_ret].
  apply sameValue_tryCatch.
  - apply sameValue_bind; [apply sameValue_await |].
    intros g. apply sameValue_ret.
  - apply sameValue_bind; [apply sameValue_emit |].
    intros _. apply sameValue_ret.
Qed.

Lemma sameValue_lookup (req : request) :
  sameValue (Ebay.lookupEbayData (worldOf db b) req)
            (Ebay.lookupEbayData (worldOf db' b) req).
Proof.
  unfold Ebay.lookupEbayData. cbn [worldOf ebayLookup].
  destruct (truthy (order_id req) || truthy (buyer_name req));
    [| apply sameValue_ret].
  apply sameValue_tryCatch; [apply sameValue_await |].
  apply sameValue_bind; [apply sameValue_emit |].
  intros _. apply sameValue_ret.
Qed.

Lemma sameValue_tiers (c : classification) (d0 : draft) (un : jsstring)
      (used : option bool) :
  sameValue (d <- tierMini (worldOf db b) c d0 ;;
             t3 <- tierLarge un (worldOf db b) d ;;
             match t3 with
             | inr resp => ret resp
             | inl d' =>
                 trackUsage (worldOf db b) d' ;;;
                 ret (Success (interp (reply d')) (c_intent c) (c_risk c)
                              (route d') used)
             end)
            (d <- tierMini (worldOf db' b) c d0 ;;
             t3 <- tierLarge un (worldOf db' b) d ;;
             match t3 with
             | inr resp => ret resp
             | inl d' =>
                 trackUsage (worldOf db' b) d' ;;;
                 ret (Success (interp (reply d')) (c_intent c) (c_risk c)
                              (route d') used)
             end).
Proof.
  apply sameValue_bind; [apply sameValue_tierMini |]. intros d.
  apply sameValue_bind; [apply sameValue_tierLarge |]. intros [d' | resp].
  - apply sameValue_bind; [apply sameValue_trackUsage |].
    intros _. apply sameValue_ret.
  - apply sameValue_ret.
Qed.

Lemma sameValue_generate (h : handler) (u : user) (req : request) :
  sameValue (generateOf h (worldOf db b) u req)
            (generateOf h (worldOf db' b) u req).
Proof.
  destruct h; cbn [generateOf].
  - unfold Inline.generate. apply sameValue_tryCatch.
    + destruct (validMessage (customer_message req)) as [msg |].
      * apply sameValue_bind; [apply sameValue_await |].
        intros _. apply sameValue_tiers.
      * destruct (customer_message req);
          try apply sameValue_throw; apply sameValue_ret.
    + apply sameValue_bind; [apply sameValue_emit |].
      intros _. apply sameValue_ret.
  - unfold Ebay.generate. apply sameValue_tryCatch.
    + destruct (validMessage (customer_message req)) as [msg |].
      * apply sameValue_bind; [apply sameValue_await |].
        intros _.
        apply sameValue_bind; [apply sameValue_lookup |].
        intros x. apply sameValue_tiers.
      * destruct (customer_message req);
          try apply sameValue_throw; apply sameValue_ret.
    + apply sameValue_bind; [apply sameValue_emit |].
      intros _. apply sameValue_ret.
Qed.

End Independent.

Lemma not_rejected_when_served (db : database) (b : backends) :
  ~ databaseRejected (worldOf db b).
Proof.
  unfold databaseRejected. cbn [worldOf toneSamples usageSelect usageWrite
    replyLogInsert lastActiveUpdate].
  intros [D | [D | [D | [D | D]]]]; discriminate D.
Qed.

Lemma failed_is_not_unavailable (h : handler) :
  Failure 500 (failedOf h) <> Failure 500 (unavailableOf h).
Proof. destruct h; vm_compute; discriminate. Qed.


End AccountingFacts.

(* ================================================================== *)
(** ** The modify handlers *)
(* ================================================================== *)

Module ModifyFacts.
Import Js Classifier Agents Effects Routes Handlers TraceLogic Modify.
Local Open Scope N_scope.

(** X20.  A modification is never accounted and always tries the
    low-cost backend first: whatever the backends do, the trace of a
    modify request holds no usage select, usage write, reply-log insert
    or last-active update; each backend is called at most once, the
    high-cost one only after the low-cost one rejected; and a reply that
    is returned is the reply of the last backend called. *)
Theorem modify_is_never_accounted :
  forall h w req,
    let o := fst (run (modifyOf h w req)) in
    let t := snd (run (modifyOf h w req)) in
    Forall (fun e => isAccounting e = false) t
    /\ (filter isBackend t = []
        \/ filter isBackend t = [CallOpenAI]
        \/ (filter isBackend t = [CallOpenAI; CallAnthropic]
            /\ openai w = Rejected))
    /\ (forall r, modifiedText o = Some r ->
          exists g, r = g_reply g
                    /\ ((openai w = Resolved g /\ filter isBackend t = [CallOpenAI])
                        \/ (openai w = Rejected /\ anthropic w = Resolved g))).
Proof.
  intros h w req.
  destruct h; cbn [modifyOf]; unfold modify_inline, modify_ebay, run,
    eitherBackend, tryCatch, bind, await, emit, ret;
    destruct (fieldsMissing req);
    try (split; [constructor | split; [left; reflexivity
                                      | intros r D; discriminate D]]);
    destruct (openai w) as [g |] eqn:Ho;
    try (destruct (anthropic w) as [g' |] eqn:Ha);
    cbn; (split; [repeat constructor |]);
    (split; [auto |]); intros r D; inversion D; subst; eauto 8.
Qed.

(** X21.  The two modify handlers differ when both backends fail.  With
    both fields present, the handler without a [try] around its body
    rejects exactly when both backends reject, so that request gets no
    answer from it, while the inline handler always answers and then
    answers 500.  In every other case the two handlers give the same
    status, the same reply and the same calls; a request without
    [original_reply] or [instructions] gets 400 and no call. *)
Theorem modify_handlers_differ_when_both_backends_fail :
  forall w req,
    (fst (run (modify_ebay w req)) = Rejected
     <-> fieldsMissing req = false /\ openai w = Rejected
         /\ anthropic w = Rejected)
    /\ fst (run (modify_inline w req)) <> Rejected
    /\ (fst (run (modify_ebay w req)) = Rejected ->
        statusOf (fst (run (modify_inline w req))) = Some 500)
    /\ (fst (run (modify_ebay w req)) <> Rejected ->
        statusOf (fst (run (modify_ebay w req)))
        = statusOf (fst (run (modify_inline w req)))
        /\ modifiedText (fst (run (modify_ebay w req)))
           = modifiedText (fst (run (modify_inline w req)))
        /\ snd (run (modify_ebay w req)) = snd (run (modify_inline w req)))
    /\ (fieldsMissing req = true ->
        statusOf (fst (run (modify_ebay w req))) = Some 400
        /\ statusOf (fst (run (modify_inline w req))) = Some 400
        /\ snd (run (modify_ebay w req)) = []
        /\ snd (run (modify_inline w req)) = []).
Proof.
  intros w req.
  unfold modify_inline, modify_ebay, run, eitherBackend, tryCatch, bind,
    await, emit, ret.
  destruct (fieldsMissing req); [| destruct (openai w) as [g |];
                                   [| destruct (anthropic w) as [g' |]]];
    cbn; repeat split; try discriminate; try reflexivity;
    try (intros D; discriminate D); try (intros (D & _); discriminate D);
    try (intros (_ & D & _); discriminate D);
    try (intros (_ & _ & D); discriminate D);
    try (intros D; exfalso; apply D; reflexivity); try congruence.
Qed.

End ModifyFacts.

(* ================================================================== *)
(** ** The prompt of the writer agent *)
(* ================================================================== *)

Module WriterFacts.
Import Js Agents Effects Routes Writer.

Lemma lastTen_app {A} (old recent : list A) :
  length recent = 10%nat -> lastTen (old ++ recent) = recent.
Proof.
  intros H. unfold lastTen. rewrite length_app, H.
  replace (length old + 10 - 10)%nat with (length old + 0)%nat by lia.
  rewrite skipn_app, Nat.add_0_r, skipn_all.
  replace (length old - length old)%nat with 0%nat by lia. reflexivity.
Qed.

Lemma lastTen_short {A} (l : list A) :
  (length l <= 10)%nat -> lastTen l = l.
Proof.
  intros H. unfold lastTen.
  replace (length l - 10)%nat with 0%nat by lia. reflexivity.
Qed.

Lemma threadText_app (upper : jsstring -> jsstring)
      (old recent : list threadMessage) :
  length recent = 10%nat ->
  threadText upper (Some (old ++ recent)) = threadText upper (Some recent).
Proof.
  intros H. unfold threadText.
  destruct recent as [| m r]; [discriminate H |].
  rewrite (@lastTen_short _ (m :: r)) by lia.
  destruct (old ++ m :: r) as [| m' r'] eqn:E.
  - destruct old; discriminate E.
  - rewrite <- E, lastTen_app by exact H. reflexivity.
Qed.

(** X22.  Only the ten most recent thread messages reach the prompt of
    the writer agent: older messages of the thread, whatever they say,
    leave the prompt unchanged; and a thread of at most ten messages is
    used in full, one line per message. *)
Theorem prompt_uses_the_last_ten_thread_messages :
  forall upper latest (old recent : list threadMessage) r,
    length recent = 10%nat ->
    userPrompt upper latest (Some (old ++ recent)) r
    = userPrompt upper latest (Some recent) r
    /\ threadText upper (Some recent)
       = join nl (map (threadLine upper) recent).
Proof.
  intros upper latest old recent r H. split.
  - unfold userPrompt. rewrite (@threadText_app upper old recent H). reflexivity.
  - unfold threadText. destruct recent as [| m rest]; [discriminate H |].
    rewrite lastTen_short by lia. reflexivity.
Qed.

End WriterFacts.

(* ================================================================== *)
(** ** The token of the eBay account *)
(* ================================================================== *)

Module TokenFacts.
Import Js Agents License EbayClient.
Local Open Scope N_scope.

Lemma orElse_nonempty (s : option jsstring) (d : jsstring) :
  d <> [] -> orElse s d <> [].
Proof. destruct s as [[| c r] |]; cbn; auto; discriminate. Qed.

Lemma newExpiry_bounds (now : N) (e : option N) (expiry : N) :
  newExpiry now e = Some expiry -> now <= expiry <= maxTime.
Proof.
  unfold newExpiry. destruct e as [e |]; [| discriminate].
  destruct (N.leb_spec (now + e * 1000) maxTime); intros E; inversion E; lia.
Qed.

(** X24.  The token endpoint is called only for an expired token: a
    refresh is attempted exactly when the account row exists, its expiry
    is set and parses to a time before now, and the row holds a refresh
    token, which is the one sent.  An account whose expiry is null,
    empty, unparseable or not yet passed gets its stored token back
    after the select alone. *)
Theorem token_is_refreshed_only_when_expired :
  forall select now refresh update,
    let o := fst (getEbayToken select now refresh update) in
    let t := snd (getEbayToken select now refresh update) in
    (forall r, In (RefreshToken r) t <->
               exists account,
                 select = Resolved (Some account)
                 /\ expired now account = true
                 /\ ebay_refresh_token account = Some r /\ r <> [])
    /\ (forall account,
           select = Resolved (Some account) -> expired now account = false ->
           o = Resolved (ebay_token account) /\ t = [SelectAccount])
    /\ (forall account,
           expired now account = true ->
           exists text time,
             token_expires_at account = DateText text (Some time)
             /\ text <> [] /\ time < now).
Proof.
  intros select now refresh update o t. subst o t. split; [| split].
  - intros r. unfold getEbayToken. split.
    + destruct select as [[account |] |];
        try (cbn; intros [D | []]; discriminate D).
      destruct (expired now account) eqn:He;
        [| cbn; intros [D | []]; discriminate D].
      destruct (ebay_refresh_token account) as [[| c r'] |] eqn:Hr;
        try (cbn; intros [D | []]; discriminate D).
      intros Hin. exists account.
      assert (E : r = c :: r').
      { destruct refresh as [data |];
          [destruct (access_token data) as [[| a tk] |];
           [| destruct (newExpiry now (expires_in data)) |] |];
          cbn in Hin;
          repeat (destruct Hin as [Hin | Hin];
                  [try discriminate Hin; inversion Hin; reflexivity |]);
          destruct Hin. }
      subst r. repeat split; auto. discriminate.
    + intros (account & -> & He & Hr & Hne). rewrite He, Hr.
      destruct r as [| c r']; [destruct (Hne eq_refl) |].
      destruct refresh as [data |];
        [destruct (access_token data) as [[| a tk] |];
         [| destruct (newExpiry now (expires_in data)) |] |];
        cbn; auto.
  - intros account -> He. unfold getEbayToken. rewrite He. split; reflexivity.
  - intros account He. unfold expired in He.
    apply andb_true_iff in He. destruct He as [Hd Ha].
    destruct (token_expires_at account) as [| [| c text] [time |]];
      try discriminate Hd; try discriminate Ha.
    exists (c :: text), time. repeat split; [discriminate |].
    unfold isAfter in Ha. cbn in Ha. apply N.ltb_lt. exact Ha.
Qed.

(** X25.  A refresh stores what it returns and never erases the refresh
    token: the update written after a refresh carries the non-empty
    access token of the token endpoint, an expiry between now and the
    largest date, and a non-empty refresh token, the new one when the
    endpoint sent one and the old one otherwise; the token returned is
    the token stored, and the call rejects exactly when the update
    does.  Nothing is written when the endpoint sends no access token or
    no usable [expires_in]. *)
Theorem refresh_stores_what_it_returns :
  forall select now refresh update columns,
    In (UpdateAccount columns) (snd (getEbayToken select now refresh update)) ->
    up_ebay_token columns <> []
    /\ up_ebay_refresh_token columns <> []
    /\ now <= up_token_expires_at columns <= maxTime
    /\ (exists account data,
           select = Resolved (Some account) /\ refresh = Resolved data
           /\ access_token data = Some (up_ebay_token columns)
           /\ newExpiry now (expires_in data)
              = Some (up_token_expires_at columns)
           /\ up_ebay_refresh_token columns
              = (if truthy (refresh_token data)
                 then interp (refresh_token data)
                 else interp (ebay_refresh_token account)))
    /\ (forall tok,
           fst (getEbayToken select now refresh update) = Resolved tok ->
           tok = Some (up_ebay_token columns))
    /\ (fst (getEbayToken select now refresh update) = Rejected
        <-> update = Rejected).
Proof.
  intros select now refresh update columns. unfold getEbayToken.
  destruct select as [[account |] |];
    try (cbn; intros [D | []]; discriminate D).
  destruct (expired now account); [| cbn; intros [D | []]; discriminate D].
  destruct (ebay_refresh_token account) as [[| c r] |] eqn:Hr;
    try (cbn; intros [D | []]; discriminate D).
  destruct refresh as [data |];
    [| cbn; intros [D | [D | []]]; discriminate D].
  destruct (access_token data) as [[| a tk] |] eqn:Ha;
    try (cbn; intros [D | [D | []]]; discriminate D).
  destruct (newExpiry now (expires_in data)) as [expiry |] eqn:He;
    [| cbn; intros [D | [D | []]]; discriminate D].
  cbn [snd fst]. intros [D | [D | [D | []]]]; try discriminate D.
  inversion D; subst columns; clear D. cbn [up_ebay_token up_token_expires_at
                                           up_ebay_refresh_token].
  split; [discriminate |].
  split; [apply orElse_nonempty; discriminate |].
  split; [exact (newExpiry_bounds _ _ He) |].
  split; [| split].
  - exists account, data. repeat split; auto.
    rewrite Hr. destruct (refresh_token data) as [[| x y] |]; reflexivity.
  - intros tok E. destruct update; inversion E; reflexivity.
  - destruct update; split; intros D; try discriminate D; reflexivity.
Qed.

Lemma oauth_missing (getToken : outcome (option jsstring))
      (fetch : jsstring -> jsstring -> outcome fetchResult)
      (nd : needs) (orderId : option jsstring) :
  n_order nd = true -> truthy orderId = true ->
  (dataFetchAgent getToken fetch nd orderId
   = Resolved {| d_ok := false; d_fetched := noneFetched;
                 d_missing := [key_ebay_oauth] |}
   <-> exists tok, getToken = Resolved tok /\ truthy tok = false).
Proof.
  intros Hn Hid. unfold dataFetchAgent. rewrite Hn. cbn [negb].
  destruct orderId as [[| c r] |]; try discriminate Hid.
  destruct getToken as [[[| tc tr] |] |].
  - split; [intros _; exists (Some []); auto | reflexivity].
  - destruct (fetch (tc :: tr) (c :: r)) as [[order tl |] |];
      (split; [intros D; discriminate D |]);
      intros (tok & E & Ht); inversion E; subst tok; discriminate Ht.
  - split; [intros _; exists None; auto | reflexivity].
  - split; [intros D; discriminate D | intros (tok & E & _); discriminate E].
Qed.

Lemma token_unavailable (select : outcome (option ebayAccount)) (now : N)
      (refresh : outcome tokenData) (update : outcome unit) :
  (exists tok, fst (getEbayToken select now refresh update) = Resolved tok
               /\ truthy tok = false)
  <-> (select = Resolved None
       \/ (exists account,
              select = Resolved (Some account) /\ expired now account = true
              /\ (truthy (ebay_refresh_token account) = false
                  \/ exists data, refresh = Resolved data
                                  /\ truthy (access_token data) = false))
       \/ (exists account,
              select = Resolved (Some account) /\ expired now account = false
              /\ truthy (ebay_token account) = false)).
Proof.
  unfold getEbayToken. destruct select as [[account |] |]; cbn [fst].
  - destruct (expired now account) eqn:He.
    + split.
      * intros (tok & E & Ht). right; left. exists account.
        split; [reflexivity |]. split; [exact He |].
        destruct (ebay_refresh_token account) as [[| x y] |]; auto.
        right. destruct refresh as [data |]; [| discriminate E].
        exists data. split; [reflexivity |].
        destruct (access_token data) as [[| a tk] |]; auto.
        destruct (newExpiry now (expires_in data)); [| discriminate E].
        destruct update; inversion E; subst tok. discriminate Ht.
      * intros [D | [(acc & E & _ & Hc) | (acc & E & D & _)]];
          [discriminate D | | inversion E; subst acc; congruence].
        inversion E; subst acc. clear E.
        destruct (ebay_refresh_token account) as [[| x y] |];
          try (exists None; split; reflexivity).
        destruct Hc as [D | (data & -> & Ha)]; [discriminate D |].
        destruct (access_token data) as [[| a tk] |];
          try discriminate Ha; exists None; split; reflexivity.
    + split.
      * intros (tok & E & Ht). inversion E; subst tok. right; right.
        exists account. auto.
      * intros [D | [(acc & E & D & _) | (acc & E & _ & Ht)]];
          [discriminate D | inversion E; subst acc; congruence |].
        inversion E; subst acc. exists (ebay_token account). auto.
  - split; [intros _; left; reflexivity | intros _; exists None; auto].
  - split; [intros (tok & E & _); discriminate E |].
    intros [D | [(acc & E & _) | (acc & E & _)]]; discriminate.
Qed.

(** X26.  When the seller is asked to reconnect.  For a message that
    needs the order and carries an order id, the data-fetch agent run on
    the result of [getEbayToken] reports ['ebay_oauth'] missing exactly
    when no account row exists, or the token is expired and cannot be
    refreshed (no refresh token, or no access token from the endpoint),
    or the stored token of an unexpired account is empty; the order is
    then not fetched. *)
Theorem reconnect_is_asked_when_no_token_is_available :
  forall select now refresh update fetch nd orderId,
    n_order nd = true ->
    truthy orderId = true ->
    let token := fst (getEbayToken select now refresh update) in
    (select = Resolved None
     \/ (exists account,
            select = Resolved (Some account) /\ expired now account = true
            /\ (truthy (ebay_refresh_token account) = false
                \/ exists data, refresh = Resolved data
                                /\ truthy (access_token data) = false))
     \/ (exists account,
            select = Resolved (Some account) /\ expired now account = false
            /\ truthy (ebay_token account) = false))
    <-> dataFetchAgent token fetch nd orderId
        = Resolved {| d_ok := false; d_fetched := noneFetched;
                      d_missing := [key_ebay_oauth] |}.
Proof.
  intros select now refresh update fetch nd orderId Hn Hid token.
  rewrite (@oauth_missing token fetch nd orderId Hn Hid). subst token.
  symmetry. apply token_unavailable.
Qed.

End TokenFacts.

(* ================================================================== *)
(** ** The safety filter on drafts without trigger phrases *)
(* ================================================================== *)

Module SafetyDraftFacts.
Import Js Regex Agents RegexFacts SafetyFacts.

(** X27.  On a draft in which none of the three trigger patterns
    matches, the undefined and the empty draft included, the safety
    filter only trims: its output is the trimmed draft, is again free of
    trigger patterns, and filtering it again changes nothing. *)
Theorem safety_filter_only_trims_clean_drafts :
  forall draft,
    triggerFree (orElse draft []) ->
    safetyCheckAgent draft = trim (orElse draft [])
    /\ triggerFree (safetyCheckAgent draft)
    /\ safetyCheckAgent (Some (safetyCheckAgent draft)) = safetyCheckAgent draft.
Proof.
  intros draft H.
  assert (E : safetyCheckAgent draft = safetyCheckAgent (Some (orElse draft []))).
  { unfold safetyCheckAgent. rewrite orElse_some. reflexivity. }
  rewrite E. exact (safety_idempotent_on_clean_text H).
Qed.

End SafetyDraftFacts.

(* ================================================================== *)
(** ** The properties above on concrete requests *)
(* ================================================================== *)

Module ExtraScenarios.
Import Js Regex Classifier Agents Effects Routes Handlers Samples.
Import License ConstraintAgents EbayClient OrderIds TraceLogic TraceSamples.
Import Writer ExtraSamples.
Import LicenseFacts ConstraintFacts FetchFacts ClassifierAgentFacts.
Import TraceFacts WriterFacts TokenFacts SafetyDraftFacts AccountingFacts.
Local Open Scope N_scope.


Lemma license_refusal_is_permanent_witness :
  150 <= 200
  /\ passes (requireLicense_inline trialKey usersTable 150) = false
  /\ passes (requireLicense_inline trialKey usersTable 200) = false.
Proof.
  split; [lia |]. split; [vm_compute; reflexivity |].
  apply (@license_refusal_is_permanent trialKey usersTable 150 200);
    [lia | vm_compute; reflexivity].
Defined.

Lemma guidance_without_facts_witness :
  dataFetchAgent linkedToken upstreamDown needsOrder None
  = Resolved orderIdMissing
  /\ d_ok orderIdMissing = false
  /\ profitProtectionAgent tracking (Some (d_fetched orderIdMissing))
     = profitProtectionAgent tracking None
  /\ profitProtectionAgent tracking None = [checkingShipment].
Proof.
  split; [vm_compute; reflexivity |]. split; [reflexivity |].
  apply (@guidance_without_facts linkedToken upstreamDown needsOrder None
           orderIdMissing tracking); vm_compute; reflexivity.
Defined.

Lemma tracking_failure_keeps_the_order_witness :
  truthy (Some (lit "token")) = true
  /\ truthy (Some sampleOrderId) = true
  /\ n_order needsOrder = true
  /\ exists d facts,
      dataFetchAgent (Resolved (Some (lit "token")))
        (fun _ _ =>
           fetchOrderAndTracking
             (Resolved {| http_ok := true; http_json := orderWithoutId |})
             trackingDown)
        needsOrder (Some sampleOrderId)
      = Resolved d
      /\ d_ok d = true /\ d_missing d = []
      /\ f_order (d_fetched d) = Some facts
      /\ o_orderId facts = eo_orderId orderWithoutId
      /\ o_status facts = eo_orderFulfillmentStatus orderWithoutId
      /\ ((trackingDown = Rejected
           \/ exists f, trackingDown = Resolved f /\ http_ok f = false) ->
          f_tracking (d_fetched d) = Some []).
Proof.
  split; [reflexivity |]. split; [reflexivity |]. split; [reflexivity |].
  apply (@tracking_failure_keeps_the_order (lit "token") (Some sampleOrderId)
           needsOrder orderWithoutId trackingDown); reflexivity.
Defined.

Lemma extracted_order_id_is_well_formed_witness :
  extractOrderId (Some orderMessage) = Some sampleOrderId
  /\ shapedLikeOrderId sampleOrderId = true
  /\ length sampleOrderId = 14%nat
  /\ exists before after,
      orElse (Some orderMessage) [] = before ++ sampleOrderId ++ after.
Proof.
  split; [vm_compute; reflexivity |].
  apply (@extracted_order_id_is_well_formed (Some orderMessage) sampleOrderId).
  vm_compute; reflexivity.
Defined.

Lemma reply_is_sent_after_the_accounting_witness :
  responseOf InlineHandler calmWorld seller plainRequest
  = Resolved (Success definitelyText general low (Some mini) None)
  /\ (exists pre row,
         traceOf InlineHandler calmWorld seller plainRequest
         = pre ++ [SelectUsage; usageWriteOf calmWorld row;
                   InsertReplyLog (firstn 2000 definitelyText);
                   UpdateLastActive]
         /\ Forall (fun e => isAccounting e = false) pre)
  /\ usageSelect calmWorld <> Rejected
  /\ usageWrite calmWorld = Resolved tt
  /\ replyLogInsert calmWorld = Resolved tt
  /\ lastActiveUpdate calmWorld = Resolved tt.
Proof.
  split; [vm_compute; reflexivity |].
  apply (@reply_is_sent_after_the_accounting InlineHandler calmWorld seller
           plainRequest definitelyText general low (Some mini) None).
  vm_compute; reflexivity.
Defined.

Lemma usage_write_counts_the_reply_once_witness :
  responseOf EbayHandler busyWorld seller plainRequest
  = Resolved (Success definitelyText general low (Some mini) (Some false))
  /\ exists row,
      In (usageWriteOf busyWorld row)
         (traceOf EbayHandler busyWorld seller plainRequest)
      /\ replies_count row = replies_count (existingRow busyWorld) + 1
      /\ rule_count row = rule_count (existingRow busyWorld) + bump (Some mini) rule
      /\ mini_count row = mini_count (existingRow busyWorld) + bump (Some mini) mini
      /\ large_count row
         = large_count (existingRow busyWorld) + bump (Some mini) large
      /\ bump (Some mini) rule + bump (Some mini) mini + bump (Some mini) large = 1
      /\ tokens_used row
         = tokens_used (existingRow busyWorld) + tokensSpent busyWorld (Some mini)
      /\ (balanced (existingRow busyWorld) -> balanced row).
Proof.
  split; [vm_compute; reflexivity |].
  apply (@usage_write_counts_the_reply_once EbayHandler busyWorld seller
           plainRequest definitelyText general low (Some mini) (Some false)).
  vm_compute; reflexivity.
Defined.

Lemma backend_calls_of_a_route_witness :
  responseOf InlineHandler calmWorld seller lawyerRequest
  = Resolved (Success calmText legal_threat high (Some large) None)
  /\ ((high = high
       /\ filter isBackend (traceOf InlineHandler calmWorld seller lawyerRequest)
          = [CallAnthropic])
      \/ (high <> high
          /\ filter isBackend (traceOf InlineHandler calmWorld seller lawyerRequest)
             = [CallOpenAI; CallAnthropic]
          /\ (openai calmWorld = Rejected
              \/ exists g, openai calmWorld = Resolved g /\ g_reply g = []))).
Proof.
  split; [vm_compute; reflexivity |].
  apply (@backend_calls_of_a_route InlineHandler calmWorld seller lawyerRequest
           calmText legal_threat high (Some large) None).
  vm_compute; reflexivity.
Defined.

Lemma unavailable_means_the_last_backend_failed_witness :
  responseOf EbayHandler backendsDownWorld seller plainRequest
  = Resolved (Failure 500 (unavailableOf EbayHandler))
  /\ anthropic backendsDownWorld = Rejected
  /\ (exists msg,
         validMessage (customer_message plainRequest) = Some msg
         /\ (c_risk (classifyOf EbayHandler msg) = high
             \/ openai backendsDownWorld = Rejected
             \/ exists g, openai backendsDownWorld = Resolved g
                          /\ g_reply g = []))
  /\ (exists pre,
         traceOf EbayHandler backendsDownWorld seller plainRequest
         = pre ++ [CallAnthropic; ConsoleError])
  /\ Forall (fun e => isAccounting e = false)
            (traceOf EbayHandler backendsDownWorld seller plainRequest).
Proof.
  split; [vm_compute; reflexivity |].
  apply (@unavailable_means_the_last_backend_failed EbayHandler
           backendsDownWorld seller plainRequest).
  vm_compute; reflexivity.
Defined.

Lemma rule_replies_are_for_templated_low_risk_intents_witness :
  responseOf EbayHandler calmWorld seller thanksRequest
  = Resolved (Success thanksReplyEbay positive_feedback low (Some rule)
                      (Some false))
  /\ In positive_feedback (ruleIntents EbayHandler)
  /\ positive_feedback <> off_platform /\ low = low
  /\ templateOf EbayHandler positive_feedback seller = Some thanksReplyEbay
  /\ exists msg,
      validMessage (customer_message thanksRequest) = Some msg
      /\ (confidence (classifyOf EbayHandler msg) = 80
          \/ confidence (classifyOf EbayHandler msg) = 95).
Proof.
  split; [vm_compute; reflexivity |].
  apply (@rule_replies_are_for_templated_low_risk_intents EbayHandler calmWorld
           seller thanksRequest thanksReplyEbay positive_feedback low
           (Some false)).
  vm_compute; reflexivity.
Defined.

Lemma writer_agent_agrees_with_the_handlers_witness :
  responseOf InlineHandler calmWorld seller plainRequest
  = Resolved (Success definitelyText general low (Some mini) None)
  /\ Some mini <> Some rule
  /\ (forall g, openai calmWorld = Resolved g -> g_reply g <> [])
  /\ exists g,
      fst (run (writerAgent calmWorld low)) = Resolved g
      /\ g_reply g = definitelyText
      /\ snd (run (writerAgent calmWorld low))
         = filter isBackend (traceOf InlineHandler calmWorld seller plainRequest).
Proof.
  assert (Hne : forall g, openai calmWorld = Resolved g -> g_reply g <> []).
  { intros g E. inversion E; subst g. discriminate. }
  split; [vm_compute; reflexivity |]. split; [discriminate |].
  split; [exact Hne |].
  apply (@writer_agent_agrees_with_the_handlers InlineHandler calmWorld seller
           plainRequest definitelyText general low (Some mini) None);
    [vm_compute; reflexivity | discriminate | exact Hne].
Defined.

Lemma valid_request_succeeds_when_a_backend_answers_witness :
  validMessage (customer_message plainRequest)
  = Some (lit "Hello, do you have it in blue?")
  /\ exists r i rk rt used,
      responseOf InlineHandler busyWorld seller plainRequest
      = Resolved (Success r i rk rt used).
Proof.
  split; [vm_compute; reflexivity |].
  apply (@valid_request_succeeds_when_a_backend_answers InlineHandler busyWorld
           seller plainRequest (lit "Hello, do you have it in blue?"));
    try (vm_compute; reflexivity); [discriminate | left; discriminate].
Defined.

Lemma prompt_uses_the_last_ten_thread_messages_witness :
  length recentThread = 10%nat
  /\ userPrompt asciiUpper (Some noIdMessage)
                (Some (olderThread ++ recentThread)) emptyBundle
     = userPrompt asciiUpper (Some noIdMessage) (Some recentThread)
                  emptyBundle
  /\ threadText asciiUpper (Some recentThread)
     = join nl (map (threadLine asciiUpper) recentThread).
Proof.
  split; [reflexivity |].
  apply (@prompt_uses_the_last_ten_thread_messages asciiUpper
           (Some noIdMessage) olderThread recentThread emptyBundle).
  reflexivity.
Defined.

Lemma refresh_stores_what_it_returns_witness :
  In (UpdateAccount storedColumns)
     (snd (getEbayToken (Resolved (Some expiredAccount)) 150
                        (Resolved refreshedToken) (Resolved tt)))
  /\ up_ebay_token storedColumns <> []
  /\ up_ebay_refresh_token storedColumns <> []
  /\ 150 <= up_token_expires_at storedColumns <= maxTime
  /\ (exists account data,
         Resolved (Some expiredAccount) = Resolved (Some account)
         /\ Resolved refreshedToken = Resolved data
         /\ access_token data = Some (up_ebay_token storedColumns)
         /\ newExpiry 150 (expires_in data)
            = Some (up_token_expires_at storedColumns)
         /\ up_ebay_refresh_token storedColumns
            = (if truthy (refresh_token data)
               then interp (refresh_token data)
               else interp (ebay_refresh_token account)))
  /\ (forall tok,
         fst (getEbayToken (Resolved (Some expiredAccount)) 150
                           (Resolved refreshedToken) (Resolved tt))
         = Resolved tok ->
         tok = Some (up_ebay_token storedColumns))
  /\ (fst (getEbayToken (Resolved (Some expiredAccount)) 150
                        (Resolved refreshedToken) (Resolved tt))
      = Rejected
      <-> Resolved tt = Rejected).
Proof.
  assert (Hin : In (UpdateAccount storedColumns)
                   (snd (getEbayToken (Resolved (Some expiredAccount)) 150
                                      (Resolved refreshedToken) (Resolved tt)))).
  { vm_compute. right; right; left. reflexivity. }
  split; [exact Hin |].
  apply (@refresh_stores_what_it_returns (Resolved (Some expiredAccount)) 150
           (Resolved refreshedToken) (Resolved tt) storedColumns).
  exact Hin.
Defined.

Lemma reconnect_is_asked_when_no_token_is_available_witness :
  n_order needsOrder = true
  /\ truthy (Some sampleOrderId) = true
  /\ ((noAccount = Resolved None
       \/ (exists account,
              noAccount = Resolved (Some account) /\ expired 150 account = true
              /\ (truthy (ebay_refresh_token account) = false
                  \/ exists data, noRefresh = Resolved data
                                  /\ truthy (access_token data) = false))
       \/ (exists account,
              noAccount = Resolved (Some account) /\ expired 150 account = false
              /\ truthy (ebay_token account) = false))
      <-> dataFetchAgent (fst (getEbayToken noAccount 150 noRefresh Rejected))
                         upstreamDown needsOrder (Some sampleOrderId)
          = Resolved {| d_ok := false; d_fetched := noneFetched;
                        d_missing := [key_ebay_oauth] |}).
Proof.
  split; [reflexivity |]. split; [reflexivity |].
  apply (@reconnect_is_asked_when_no_token_is_available noAccount 150 noRefresh
           Rejected upstreamDown needsOrder (Some sampleOrderId)); reflexivity.
Defined.

Lemma safety_filter_only_trims_clean_drafts_witness :
  triggerFree (orElse (Some calmText) [])
  /\ safetyCheckAgent (Some calmText) = trim (orElse (Some calmText) [])
  /\ triggerFree (safetyCheckAgent (Some calmText))
  /\ safetyCheckAgent (Some (safetyCheckAgent (Some calmText)))
     = safetyCheckAgent (Some calmText).
Proof.
  assert (H : triggerFree (orElse (Some calmText) [])).
  { split; [| split]; vm_compute; reflexivity. }
  split; [exact H |].
  apply (@safety_filter_only_trims_clean_drafts (Some calmText)). exact H.
Defined.

End ExtraScenarios.
